(* ===== verification/_CoqProject ===== *)
-Q . S2P
SelPrelude.v
JsArray.v
Messages.v
Units.v
UnitInv.v
MemberSpec.v
Typing.v
Transaction.v
Filter.v
Registry.v
RegistryInv.v
Replication.v
Bootstrap.v
