(* ===== verification/SelPrelude.v ===== *)
(** * A verified model of the selection module of editor-framework

    The repository's selection module, [src/share/selection.js], keeps the
    objects chosen in an editor for each object type. Every process of the
    editor holds a replica of that state. The module has five parts.

    - The per-type unit ([SelectionUnit], lines 38-215). It keeps
      [selection] (the selected ids, in insertion order), [lastActive]
      (the focused id), [lastHover] and [_context]. Its methods change
      these fields and call [_sendToAll] to broadcast what changed.
    - The transactional unit ([ConfirmableSelectionUnit], lines
      219-274). It adds [confirmed] and [_confirmedSnapShot] and overrides
      [_activate], so that a provisional (drag-box) selection changes
      membership but not focus until [confirm]; [cancel] restores the
      snapshot.
    - The facade ([Selection], lines 276-556). It maps each registered
      type to its unit ([_units]) and keeps the process-wide
      [_lastActiveUnit]. It checks its arguments and logs errors instead of
      throwing. It also holds [filter], the hierarchy-aware reduction of an
      id list.
    - The replication handlers ([Ipc.on('_selection:...')], lines 566-680).
      They apply another process's messages to the local replica without
      sending anything.
    - The bootstrap (lines 686-725). The core process answers
      [selection:get-registers] with its whole table. A page process builds
      its units from that answer.

    ** Files, in dependency order

    - [SelPrelude] (this file): the [sel_scope] notations (JavaScript [===]),
      the [selection] hint database, the [simplify_opt] tactic, and the
      generic list lemmas ([NoDup] after [splice] and [a[i] = x], filters).
    - [JsArray]: the JavaScript and lodash primitives the module calls
      ([indexOf], [splice], [_.difference], [_.intersection], truthiness,
      [sel[sel.length - 1]]). They are not under [src/], so they are
      modelled from their documented semantics.
    - [Messages]: the message catalog ([IPC_SELECTED] ... [IPC_PATCH]),
      [_sendToAll], and the state-and-output monad [ST S] in which every
      method is written.
    - [Units]: the unit record and the [World] a method runs in (the unit
      bound to [this] and the module variable [_lastActiveUnit]). Module
      [SelectionUnit] holds the base prototype and module
      [ConfirmableSelectionUnit] the override (lines 38-274). The
      [*_run] lemmas give each method's final world and outbox. The
      functional facts about single methods are here too. The one-id
      branch of [unselect] equals the array branch. [select] with
      [unselectOthers] yields a permutation of the request. [contexts_spec] covers the [contexts] getter.
      [patch_roundtrip] is the spec's patch round trip, which holds when
      the new id is fresh; [patch_roundtrip_selected_fails] shows the
      reordering when it is already selected.
    - [UnitInv]: the unit invariant [wf] (unique ids; a confirmed unit's
      [lastActive] is null or selected and its snapshot empty; a pending
      unit's [lastActive] is null or in the snapshot). [unit_reach] is the
      step relation of method calls. [unit_reach_wf] proves the invariant
      by rule induction. [select_empty_dangling] and
      [patch_pending_cancel_dangling] prove, for every unit in the
      situation, that the two calls its preconditions exclude break it.
    - [MemberSpec]: the abstract specification of a unit as a set of
      selected ids and the set a pending transaction saved ([AbsUnit],
      [abs_step]), and the refinement theorem [abs_refines_run]: on every
      run of method calls from a well-formed unit the code moves [abs]
      exactly as the set-level specification says. The order of ids is
      what the abstraction forgets.
    - [Typing]: every unit method keeps its unit's [type], tags each of its
      messages with it, and moves the global pointer only to the unit
      ([typed_run_op]). [Replication] and
      [RegistryInv] use it to read a facade call unit by unit.
    - [Transaction]: the laws of a provisional selection. While it is
      pending nothing is activated. [cancel] restores membership and focus.
      [confirm] commits and activates once. [cancel_order_differs] gives
      the order [cancel] leaves, which is not the pre-transaction order.
    - [Filter]: [Selection.filter] (lines 516-555). For a non-[name] mode
      it returns exactly the maximal items under the comparator
      ([filter_maximal]). [filter_scan_js] is the code's indexed inner
      loop, with [splice] and [--j]. It terminates within its fuel
      ([filter_scan_js_terminates]) and agrees with the structural scan
      ([filter_js_equiv]).
    - [Registry]: the facade [Selection] (lines 276-508) over the
      insertion-ordered [_units]. Its error paths are an [Outcome] value.
      The file proves the facade laws ([facade_clear],
      [register_idempotent], [facade_select_global]) and the departures
      from the spec (the doubled [activated] broadcast, [Object.prototype]
      keys).
    - [RegistryInv]: the registry invariant [reg_wf]: unique keys, each
      unit stored under its own type, and each unit satisfying [wf].
      [register] preserves it and gives every ordinary type a unit, fresh
      when the type was new ([register_preserves_wf]), and so does every
      facade call whose arguments meet the unit preconditions
      ([facade_preserves_wf]). [facade_commit_all] shows that
      [Selection.confirm] and [Selection.cancel] end every transaction and
      that a second call is a no-op.
    - [Replication]: the [_selection:*] handlers (lines 566-680) and the
      refinement theorem [facade_replicates]: a replica that applies a
      facade call's messages in order reaches the caller's replicated
      state. [run_op_replays] is the same result for one unit.
      [facades_replicate] extends it to any sequence of calls, which is
      eventual agreement for one sender. [hover_empty_diverges] and
      [register_not_replicated] show, for every state, the two calls that
      replication misses. [concurrent_membership_diverges] is a concrete
      run in which two concurrent senders end with different membership.
    - [Bootstrap]: [selection:get-registers] and the page init (lines
      686-725). [page_init_roundtrip] proves the round trip from an empty
      page. [page_tracks_core] composes it with replication: a page that
      bootstraps at any time and then applies the core's broadcasts agrees
      with the core after any later facade calls. [page_init_stops] shows
      that the early [return] drops the rest of the table; [bootstrap_pending_not_wf] shows that the table
      drops the transaction state, so a pending core unit becomes a page
      unit that breaks [wf].

    ** How the parts interact in the model

    A facade call ([Registry]) looks up the unit, runs one or more unit
    methods ([Units]) in the [ST World] monad, writes the unit back, and
    returns the outbox. Other processes run [Replication.replay_reg] on
    that outbox; a new page first runs [Bootstrap.page_init] on the
    core's table. The global pointer [_lastActiveUnit] is stored as the
    unit's type, as the spec's design notes suggest. It is read and
    written by [_activate], the facade [select] and the [activated] and
    [deactivated] handlers.

    ** Bounds and termination

    Every loop of the module is structural over a finite array: the
    [unselect] loop, the two loops of [filter] (the inner one over the
    current results, which [splice] only shortens), [for (var p in
    _units)], and both bootstrap loops. So every definition is a
    structural [Fixpoint], total and executable. The one exception is
    [Filter.filter_scan_js], which follows the code's index loop. Its fuel
    is [length results + 1], and [filter_scan_js_terminates] proves that
    is enough: each round returns, splices one result out, or increments
    [j].
    Ids are strings and no integer arithmetic of the code can overflow.
    The comparator of [filter] returns a [Z] and only its sign is used.

    ** Not modelled

    The Electron runtime ([Editor.sendToAll], [Ipc.on],
    [Editor.sendToCoreSync]) is not modelled. Message delivery is taken to
    be in order and exactly once, which is what [replay] assumes. Logging
    ([Editor.error] and [Editor.warn]) appears only as the error value. The
    public [selection:*] notifications are the same [Msg] values as the
    internal ones. [src/test/main/window.js] is a test window and is not
    part of the module. On a type that names an [Object.prototype]
    member, a handler works on a built-in function object. The model does
    not track that object: [recv] returns [None]. *)

From stdpp Require Export base list strings option sets.
Set Warnings "-clear-no-such-hyp".

Declare Scope sel_scope.
Delimit Scope sel_scope with sel.

(** JavaScript strict (in)equality on ids and nullable ids. *)
Notation "a === b" := (bool_decide (a = b)) (at level 70, no associativity) : sel_scope.
Notation "a !== b" := (negb (bool_decide (a = b))) (at level 70, no associativity) : sel_scope.

Open Scope sel_scope.

Create HintDb selection discriminated.
#[export] Hint Constants Opaque : selection.

(** ** Generic list and option lemmas *)

Section lists.
Context {A : Type} `{!EqDecision A}.
Implicit Types (l k : list A) (x y : A).

Lemma NoDup_app_single l x : NoDup l -> x ∉ l -> NoDup (l ++ [x]).
Proof. intros. apply list.NoDup_app; repeat split; [done| |by apply NoDup_singleton]. set_solver. Qed.

Lemma elem_of_delete_NoDup l i x y :
  NoDup l -> l !! i = Some x -> y ∈ delete i l <-> y ∈ l /\ y <> x.
Proof.
  revert i. induction l as [|a l IH]; intros [|i] Hnd Hi; simplify_eq/=.
  - apply list.NoDup_cons in Hnd as [Ha _]. set_solver.
  - apply list.NoDup_cons in Hnd as [Ha Hnd].
    apply list_elem_of_lookup_2 in Hi as Hx. rewrite elem_of_cons, IH by done.
    rewrite elem_of_cons. naive_solver.
Qed.

Lemma NoDup_delete l i : NoDup l -> NoDup (delete i l).
Proof.
  revert i. induction l as [|a l IH]; intros [|i] Hnd; simpl; [done|done|by inversion Hnd|].
  apply list.NoDup_cons in Hnd as [Ha Hnd]. apply list.NoDup_cons; split; [|by apply IH].
  intros Hin. apply Ha. by apply list_elem_of_delete_inv in Hin.
Qed.

Lemma filter_ext_elem (P Q : A -> Prop) `{!forall x, Decision (P x), !forall x, Decision (Q x)} l :
  (forall x, x ∈ l -> P x <-> Q x) -> filter P l = filter Q l.
Proof.
  induction l as [|a l IH]; intros Hpq; [done|]. rewrite !filter_cons.
  rewrite IH by set_solver. destruct (decide (P a)), (decide (Q a)); set_solver.
Qed.

Lemma filter_all (P : A -> Prop) `{!forall x, Decision (P x)} l :
  (forall x, x ∈ l -> P x) -> filter P l = l.
Proof.
  induction l as [|a l IH]; intros Hall; [done|]. rewrite filter_cons, decide_True by set_solver.
  rewrite IH by set_solver. done.
Qed.

Lemma filter_none (P : A -> Prop) `{!forall x, Decision (P x)} l :
  (forall x, x ∈ l -> ¬ P x) -> filter P l = [].
Proof.
  induction l as [|a l IH]; intros Hn; [done|].
  rewrite filter_cons, decide_False by set_solver. apply IH. set_solver.
Qed.

Lemma delete_filter_NoDup l i x :
  NoDup l -> l !! i = Some x -> delete i l = filter (λ y, y ≠ x) l.
Proof.
  revert i. induction l as [|a l IH]; intros [|i] Hnd Hi; simplify_eq/=;
    apply list.NoDup_cons in Hnd as [Ha Hnd].
  - rewrite filter_cons, decide_False by tauto. symmetry. apply filter_all. set_solver.
  - apply list_elem_of_lookup_2 in Hi as Hx. rewrite filter_cons, decide_True by set_solver.
    by rewrite (IH i).
Qed.

Lemma elem_of_insert_NoDup l i x y z :
  NoDup l -> l !! i = Some x -> z ∈ <[i := y]> l <-> z = y \/ (z ∈ l /\ z <> x).
Proof.
  revert i. induction l as [|a l IH]; intros [|i] Hnd Hi; simplify_eq/=;
    apply list.NoDup_cons in Hnd as [Ha Hnd]; rewrite !elem_of_cons.
  - split; [intros [->|Hz]; [by left|right; split; [by right|by intros ->]]|].
    intros [->|[[->|Hz] Hne]]; [by left|done|by right].
  - apply list_elem_of_lookup_2 in Hi as Hx. rewrite IH by done.
    split; [intros [->|[->|[Hz Hne]]]; [|by left|]; right; split; auto; intros ->; done|].
    intros [->|[[->|Hz] Hne]]; [|by left|]; right; [by left|right; auto].
Qed.

Lemma NoDup_insert_fresh l i x y :
  NoDup l -> l !! i = Some x -> y ∉ l -> NoDup (<[i := y]> l).
Proof.
  revert i. induction l as [|a l IH]; intros [|i] Hnd Hi Hy; simplify_eq/=;
    apply list.NoDup_cons in Hnd as [Ha Hnd]; apply list.NoDup_cons; split; try done.
  - set_solver.
  - apply list_elem_of_lookup_2 in Hi as Hx.
    rewrite elem_of_insert_NoDup by done. set_solver.
  - apply IH; set_solver.
Qed.

Lemma last_elem l x : list.last l = Some x -> x ∈ l.
Proof. apply last_Some_elem_of. Qed.
(** Writing [y] over the [x] at position [i] and putting [x] in front
    permutes [y :: l]. *)
Lemma insert_cons_perm l (i : nat) x y : l !! i = Some x -> x :: <[i := y]> l ≡ₚ y :: l.
Proof.
  revert i. induction l as [|a l IH]; intros [|i] Hi; simplify_eq/=; [by constructor|].
  rewrite perm_swap, (IH i Hi). apply perm_swap.
Qed.
End lists.

#[export] Hint Resolve NoDup_app_single NoDup_delete NoDup_list_difference : selection.

(** [simplify_opt] closes the routine goals of the development: equalities of
    options and booleans, and the [bool_decide] of JavaScript [===]. *)
Ltac simplify_opt :=
  repeat match goal with
  | H : bool_decide _ = true |- _ => apply bool_decide_eq_true in H
  | H : bool_decide _ = false |- _ => apply bool_decide_eq_false in H
  | H : Some _ = Some _ |- _ => injection H as H
  | H : negb _ = true |- _ => apply negb_true_iff in H
  | H : negb _ = false |- _ => apply negb_false_iff in H
  | H : (_ && _)%bool = true |- _ => apply andb_prop in H as [? ?]
  | |- context [bool_decide ?P] => case_bool_decide
  end; simplify_eq.
