(* ===== verification/JsArray.v ===== *)
(** * JavaScript and lodash array primitives used by [selection.js]

    Ids are strings. A nullable id ([null], or a JavaScript value tested
    for truthiness) is an [option string]. The functions here are the
    library calls the module makes, with the semantics of the JavaScript
    built-ins and of lodash 3:
    - [index_of]: [Array.prototype.indexOf], with [None] for [-1];
    - [delete i] (stdpp): [splice(i, 1)];
    - [<[i := x]>] (stdpp): [a[i] = x] at an index [indexOf] returned;
    - [difference]: [_.difference(a, b)], which keeps the order and the
      duplicates of [a];
    - [intersection]: [_.intersection(a, b)], which keeps the order of [a]
      and drops repeated values;
    - [truthy]: the [if (x)] test on a nullable id. [null] and the empty
      string are falsy;
    - [last_or_null]: [sel.length > 0 ? sel[sel.length - 1] : null]. *)

From S2P Require Import SelPrelude.
Set Warnings "-clear-no-such-hyp".

(** [Array.prototype.indexOf] on strings: the first position, or [None]
    for [-1]. *)
Fixpoint index_of (x : string) (l : list string) : option nat :=
  match l with
  | [] => None
  | y :: l' => if x === y then Some 0 else S <$> index_of x l'
  end.

(** lodash [_.difference(array, values)]: the elements of [array] that
    are not in [values], in order, with duplicates kept. *)
Definition difference (array values : list string) : list string :=
  list_difference array values.

(** lodash [_.intersection(array, other)]: walks [array] and keeps a value
    when it is in [other] and not already in the result. *)
Fixpoint intersection_go (array other acc : list string) : list string :=
  match array with
  | [] => acc
  | v :: array' =>
      if bool_decide (v ∈ acc) then intersection_go array' other acc
      else if bool_decide (v ∈ other) then intersection_go array' other (acc ++ [v])
      else intersection_go array' other acc
  end.

Definition intersection (array other : list string) : list string :=
  intersection_go array other [].

(** JavaScript truthiness of a nullable string. *)
Definition truthy (o : option string) : bool :=
  match o with
  | Some s => s !== ""
  | None => false
  end.

(** [this.selection.length > 0 ? this.selection[this.selection.length - 1] : null] *)
Definition last_or_null (sel : list string) : option string :=
  if bool_decide (0 < length sel) then list.last sel else None.

(** ** Lemmas *)

Lemma index_of_Some x l i : index_of x l = Some i -> l !! i = Some x.
Proof.
  revert i. induction l as [|y l IH]; intros i; simpl; [done|].
  case_bool_decide; [intros [= <-]; by subst|].
  destruct (index_of x l) eqn:E; intros [= <-]. simpl. by apply IH.
Qed.

Lemma index_of_None x l : index_of x l = None <-> x ∉ l.
Proof.
  induction l as [|y l IH]; simpl; [set_solver|].
  case_bool_decide; [subst; set_solver|].
  destruct (index_of x l); simpl; rewrite elem_of_cons; naive_solver.
Qed.

Lemma index_of_elem x l : x ∈ l -> exists i, index_of x l = Some i /\ l !! i = Some x.
Proof.
  intros Hx. destruct (index_of x l) as [i|] eqn:E.
  - exists i. split; [done|]. by apply index_of_Some.
  - by apply index_of_None in E.
Qed.

(** Writing a fresh [y] at position [i] makes [i] its first index. *)
Lemma index_of_insert_fresh l (i : nat) x y :
  l !! i = Some x -> y ∉ l -> index_of y (<[i := y]> l) = Some i.
Proof.
  revert i. induction l as [|a l IH]; intros [|i] Hi Hy; simplify_eq/=.
  - by rewrite bool_decide_true.
  - rewrite bool_decide_false by set_solver. by rewrite (IH i Hi) by set_solver.
Qed.

Lemma elem_of_difference x a b : x ∈ difference a b <-> x ∈ a /\ x ∉ b.
Proof. apply list_elem_of_difference. Qed.

Lemma difference_filter a b : difference a b = filter (λ x, x ∉ b) a.
Proof.
  unfold difference. induction a as [|x a IH]; [done|]. simpl. rewrite filter_cons, IH.
  repeat case_match; done || tauto.
Qed.

Lemma NoDup_difference a b : NoDup a -> NoDup (difference a b).
Proof. apply NoDup_list_difference. Qed.

Lemma intersection_go_spec array other acc x :
  x ∈ intersection_go array other acc <-> x ∈ acc \/ (x ∈ array /\ x ∈ other).
Proof.
  revert acc. induction array as [|v array IH]; intros acc; simpl; [set_solver|].
  repeat case_bool_decide; rewrite IH; set_solver.
Qed.

Lemma elem_of_intersection x a b : x ∈ intersection a b <-> x ∈ a /\ x ∈ b.
Proof. unfold intersection. rewrite intersection_go_spec. set_solver. Qed.

Lemma NoDup_intersection_go array other acc :
  NoDup acc -> NoDup (intersection_go array other acc).
Proof.
  revert acc. induction array as [|v array IH]; intros acc Hacc; simpl; [done|].
  repeat case_bool_decide; apply IH; auto with selection.
Qed.

Lemma NoDup_intersection a b : NoDup (intersection a b).
Proof. apply NoDup_intersection_go, NoDup_nil_2. Qed.

(** On a duplicate-free [array], [_.intersection] is a filter. *)
Lemma intersection_go_filter array other acc :
  NoDup (acc ++ array) ->
  intersection_go array other acc = acc ++ filter (.∈ other) array.
Proof.
  revert acc. induction array as [|v array IH]; intros acc Hnd; simpl.
  - by rewrite app_nil_r.
  - apply list.NoDup_app in Hnd as (Hacc & Hdis & Hcons).
    apply list.NoDup_cons in Hcons as [Hv Harr].
    rewrite filter_cons. case_bool_decide as Hin; [by destruct (Hdis v Hin); left|].
    case_bool_decide as Ho; case_decide; try done.
    + rewrite IH; [by rewrite <-app_assoc|]. rewrite <-app_assoc. simpl.
      apply list.NoDup_app. repeat split; [done| |by apply list.NoDup_cons].
      intros y Hy. specialize (Hdis y Hy). set_solver.
    + apply IH. apply list.NoDup_app. repeat split; [done| |done]. set_solver.
Qed.

Lemma intersection_filter a b :
  NoDup a -> intersection a b = filter (.∈ b) a.
Proof. intros. unfold intersection. by rewrite intersection_go_filter. Qed.

Lemma last_or_null_last sel : last_or_null sel = list.last sel.
Proof. unfold last_or_null. case_bool_decide; [done|]. destruct sel; simpl in *; [done|lia]. Qed.

Lemma truthy_Some o : truthy o = true -> exists s, o = Some s /\ s <> "".
Proof. destruct o as [s|]; simpl; [|done]. intros H. simplify_opt. eauto. Qed.

#[export] Hint Resolve NoDup_difference NoDup_intersection : selection.
#[export] Hint Rewrite last_or_null_last : selection.
