(* ===== verification/Messages.v ===== *)
(** * The message catalog and the state-and-output monad

    [selection.js] broadcasts through [_sendToAll(topic, args...)] (lines
    20-29). Each call sends two messages. The first is [_selection:xxx], sent
    to every other process (the [Editor.selfExcluded] flag) and applied by
    their replication handlers. The second is [selection:xxx], sent to every
    process, observers included. Both carry the same topic and arguments, so
    one [Msg] stands for the pair. [Msg] has a constructor for each topic
    constant of lines 10-18, with that topic's arguments.

    A method of the module reads and writes state ([this], the
    process-wide [_lastActiveUnit]) and appends to the outbox. [ST S A]
    models such a method: [S -> A * S * list Msg]. Its instances of stdpp's
    [MRet] and [MBind] give the [x ← m; k] notation. *)

From S2P Require Import SelPrelude JsArray.
Set Warnings "-clear-no-such-hyp".

Inductive Msg :=
  | IPC_SELECTED (type : string) (ids : list string)       (* 'selection:selected' *)
  | IPC_UNSELECTED (type : string) (ids : list string)     (* 'selection:unselected' *)
  | IPC_ACTIVATED (type : string) (id : option string)     (* 'selection:activated' *)
  | IPC_DEACTIVATED (type : string) (id : option string)   (* 'selection:deactivated' *)
  | IPC_HOVERIN (type : string) (id : option string)       (* 'selection:hoverin' *)
  | IPC_HOVEROUT (type : string) (id : option string)      (* 'selection:hoverout' *)
  | IPC_CONTEXT (type : string) (id : option string)       (* 'selection:context' *)
  | IPC_CHANGED (type : string)                            (* 'selection:changed' *)
  | IPC_PATCH (type : string) (srcID destID : string).     (* 'selection:patch' *)

#[export] Instance Msg_eq_dec : EqDecision Msg.
Proof. solve_decision. Defined.

(** The type a message is about. *)
Definition msg_type (m : Msg) : string :=
  match m with
  | IPC_SELECTED t _ | IPC_UNSELECTED t _ | IPC_ACTIVATED t _
  | IPC_DEACTIVATED t _ | IPC_HOVERIN t _ | IPC_HOVEROUT t _
  | IPC_CONTEXT t _ | IPC_CHANGED t | IPC_PATCH t _ _ => t
  end.

(** Recognisers used to count emissions of one kind. *)
Definition is_activated (m : Msg) : bool :=
  match m with IPC_ACTIVATED _ _ => true | _ => false end.
Definition is_deactivated (m : Msg) : bool :=
  match m with IPC_DEACTIVATED _ _ => true | _ => false end.
Definition is_selected (m : Msg) : bool :=
  match m with IPC_SELECTED _ _ => true | _ => false end.
Definition is_unselected (m : Msg) : bool :=
  match m with IPC_UNSELECTED _ _ => true | _ => false end.

(** Membership and activation events: the events [patch] must not emit. *)
Definition is_selection_event (m : Msg) : bool :=
  is_selected m || is_unselected m || is_activated m || is_deactivated m.

(** ** The monad *)

Definition ST (S A : Type) : Type := S -> A * S * list Msg.

#[export] Instance ST_ret {S} : MRet (ST S) := fun A x s => (x, s, []).
#[export] Instance ST_bind {S} : MBind (ST S) := fun A B f m s =>
  match m s with
  | (a, s1, o1) => match f a s1 with (b, s2, o2) => (b, s2, o1 ++ o2) end
  end.

(** [_sendToAll(topic, args...)] *)
Definition _sendToAll {S} (m : Msg) : ST S unit := fun s => (tt, s, [m]).

Definition get_st {S} : ST S S := fun s => (s, s, []).
Definition put_st {S} (s : S) : ST S unit := fun _ => (tt, s, []).

(** [if (b) { m }] *)
Definition when {S} (b : bool) (m : ST S unit) : ST S unit :=
  if b then m else mret ().

(** Running a computation: the final state and the outbox. *)
Definition exec {S A} (m : ST S A) (s : S) : S := (m s).1.2.
Definition outbox {S A} (m : ST S A) (s : S) : list Msg := (m s).2.

Section monad_laws.
Context {S A B : Type}.

Lemma run_ret (x : A) (s : S) : (mret x : ST S A) s = (x, s, []).
Proof. done. Qed.

Lemma run_bind (m : ST S A) (f : A -> ST S B) s :
  (m ≫= f) s = let '(a, s1, o1) := m s in let '(b, s2, o2) := f a s1 in (b, s2, o1 ++ o2).
Proof. done. Qed.

Lemma run_send (m : Msg) (s : S) : (_sendToAll m : ST S unit) s = (tt, s, [m]).
Proof. done. Qed.

Lemma run_when (b : bool) (m : ST S unit) s :
  when b m s = if b then m s else (tt, s, []).
Proof. by destruct b. Qed.

Lemma exec_bind (m : ST S A) (f : A -> ST S B) s :
  exec (m ≫= f) s = exec (f (m s).1.1) (exec m s).
Proof. unfold exec, mbind, ST_bind. destruct (m s) as [[a s1] o1]. simpl. by destruct (f a s1) as [[b s2] o2]. Qed.

Lemma outbox_bind (m : ST S A) (f : A -> ST S B) s :
  outbox (m ≫= f) s = outbox m s ++ outbox (f (m s).1.1) (exec m s).
Proof. unfold exec, outbox, mbind, ST_bind. destruct (m s) as [[a s1] o1]. simpl. by destruct (f a s1) as [[b s2] o2]. Qed.
End monad_laws.

(** [st_simpl] evaluates the monadic plumbing of a goal or hypothesis so
    that only the branches on symbolic data are left. *)
Ltac st_simpl :=
  unfold exec, outbox, when, get_st, put_st, _sendToAll, mret, mbind, ST_ret, ST_bind in *;
  simpl in *.
