(* ===== verification/Units.v ===== *)
(** * The selection unit and its transactional extension

    [SelectionUnit] (lines 38-44) and [ConfirmableSelectionUnit] (lines
    220-225) are one record here. Only the confirmable constructor is ever
    called: [Selection.register] (line 286) and the bootstrap (line 712) use
    it. So every unit has all seven fields, and the base methods leave the
    last two alone.

    A method runs on a [World]: the unit bound to [this] and the module
    variable [_lastActiveUnit] (line 7). The module stores the unit itself
    there. As the spec's design notes suggest, the model stores the unit's
    type, which is unique in the registry.

    The base methods that call [this._activate] take the activation method
    as an argument ([act]). [SelectionUnit.prototype.select.call(this, ...)]
    on a confirmable unit runs the base body with the overriding
    [_activate], so module [ConfirmableSelectionUnit] passes its own
    [_activate] (lines 228-232) to the base bodies.

    After the definitions come the run equations (one per method), the
    selection [select] leaves ([select_this]), and the functional facts
    about single methods. [unselect_single_equiv] shows that the one-id
    branch of [unselect] (lines 110-118) equals the array branch.
    [select_unselectOthers_perm] covers [select] with [unselectOthers].
    [contexts_spec] covers the [contexts] getter (lines 185-207).
    [patch_roundtrip] proves that [patch(s, d)] then [patch(d, s)] (lines
    168-183) restores the world when [d] is fresh, and
    [patch_roundtrip_selected_fails] that it reorders the selection when
    [d] is already selected. *)

From S2P Require Import SelPrelude JsArray Messages.
Set Warnings "-clear-no-such-hyp".

Record SelectionUnit := mkUnit {
  type : string;
  selection : list string;
  lastActive : option string;
  lastHover : option string;
  _context : option string;
  confirmed : bool;
  _confirmedSnapShot : list string
}.

Definition set_selection (s : list string) (u : SelectionUnit) : SelectionUnit :=
  mkUnit u.(type) s u.(lastActive) u.(lastHover) u.(_context) u.(confirmed) u.(_confirmedSnapShot).
Definition set_lastActive (a : option string) (u : SelectionUnit) : SelectionUnit :=
  mkUnit u.(type) u.(selection) a u.(lastHover) u.(_context) u.(confirmed) u.(_confirmedSnapShot).
Definition set_lastHover (h : option string) (u : SelectionUnit) : SelectionUnit :=
  mkUnit u.(type) u.(selection) u.(lastActive) h u.(_context) u.(confirmed) u.(_confirmedSnapShot).
Definition set_context (c : option string) (u : SelectionUnit) : SelectionUnit :=
  mkUnit u.(type) u.(selection) u.(lastActive) u.(lastHover) c u.(confirmed) u.(_confirmedSnapShot).
Definition set_confirmed (b : bool) (u : SelectionUnit) : SelectionUnit :=
  mkUnit u.(type) u.(selection) u.(lastActive) u.(lastHover) u.(_context) b u.(_confirmedSnapShot).
Definition set_snapshot (s : list string) (u : SelectionUnit) : SelectionUnit :=
  mkUnit u.(type) u.(selection) u.(lastActive) u.(lastHover) u.(_context) u.(confirmed) s.

(** The state a unit method runs on: [this] and [_lastActiveUnit]. *)
Record World := mkWorld {
  this : SelectionUnit;
  _lastActiveUnit : option string
}.

Notation M := (ST World).

Definition self : M SelectionUnit := fun w => (w.(this), w, []).
Definition update (f : SelectionUnit -> SelectionUnit) : M unit :=
  fun w => (tt, mkWorld (f w.(this)) w.(_lastActiveUnit), []).
Definition set_lastActiveUnit (t : option string) : M unit :=
  fun w => (tt, mkWorld w.(this) t, []).

(** The id argument: one id or an array of ids. *)
Inductive IdArg :=
  | One (id : string)
  | Many (ids : list string).

(** [if (!Array.isArray(id)) { id = [id]; }] *)
Definition to_array (id : IdArg) : list string :=
  match id with One x => [x] | Many l => l end.

Module SelectionUnit.

(** [SelectionUnit.prototype._activate] *)
Definition _activate (id : option string) : M unit :=
  u ← self;
  when (u.(lastActive) !== id)
    (when (truthy u.(lastActive)) (_sendToAll (IPC_DEACTIVATED u.(type) u.(lastActive)));;
     update (set_lastActive id);;
     _sendToAll (IPC_ACTIVATED u.(type) id);;
     set_lastActiveUnit (Some u.(type))).

(** [SelectionUnit.prototype._unselectOthers]; the caller has already
    wrapped a single id into an array. *)
Definition _unselectOthers (id : list string) : M bool :=
  u ← self;
  let unselected := difference u.(selection) id in
  if bool_decide (0 < length unselected) then
    _sendToAll (IPC_UNSELECTED u.(type) unselected);;
    update (set_selection (intersection u.(selection) id));;
    mret true
  else mret false.

(** [SelectionUnit.prototype.select], with [this._activate] as [act]. *)
Definition select (act : option string -> M unit) (id : IdArg) (unselectOthers : bool) : M unit :=
  let id := to_array id in
  changed ← (if unselectOthers then _unselectOthers id else mret false);
  changed ← (if bool_decide (0 < length id) then
               u ← self;
               let diff := difference id u.(selection) in
               changed ← (if bool_decide (0 < length diff) then
                            update (set_selection (u.(selection) ++ diff));;
                            _sendToAll (IPC_SELECTED u.(type) diff);;
                            mret true
                          else mret changed);
               act (list.last id);;
               mret changed
             else mret changed);
  u ← self;
  when changed (_sendToAll (IPC_CHANGED u.(type))).

(** The [for] loop of the array branch of [unselect]: it removes each
    present id with [splice] and records it in [diff]. *)
Fixpoint unselect_loop (lastActive : option string) (ids sel diff : list string)
    (unselectActiveObj : bool) : list string * list string * bool :=
  match ids with
  | [] => (sel, diff, unselectActiveObj)
  | x :: ids' =>
      match index_of x sel with
      | Some index2 =>
          unselect_loop lastActive ids' (delete index2 sel) (diff ++ [x])
            (unselectActiveObj || (Some x === lastActive))
      | None => unselect_loop lastActive ids' sel diff unselectActiveObj
      end
  end.

(** [SelectionUnit.prototype.unselect] *)
Definition unselect (act : option string -> M unit) (id : IdArg) : M unit :=
  u ← self;
  '(changed, unselectActiveObj) ←
    (match id with
     | One x =>
         match index_of x u.(selection) with
         | Some index =>
             update (set_selection (delete index u.(selection)));;
             _sendToAll (IPC_UNSELECTED u.(type) [x]);;
             mret (true, Some x === u.(lastActive))
         | None => mret (false, false)
         end
     | Many ids =>
         if bool_decide (0 < length ids) then
           let '(sel, diff, flag) := unselect_loop u.(lastActive) ids u.(selection) [] false in
           update (set_selection sel);;
           (if bool_decide (0 < length diff) then
              _sendToAll (IPC_UNSELECTED u.(type) diff);; mret (true, flag)
            else mret (false, flag))
         else mret (false, false)
     end);
  u ← self;
  when unselectActiveObj (act (last_or_null u.(selection)));;
  when changed (_sendToAll (IPC_CHANGED u.(type))).

(** [SelectionUnit.prototype.hover] *)
Definition hover (id : option string) : M unit :=
  u ← self;
  when (u.(lastHover) !== id)
    (when (truthy u.(lastHover)) (_sendToAll (IPC_HOVEROUT u.(type) u.(lastHover)));;
     update (set_lastHover id);;
     when (truthy id) (_sendToAll (IPC_HOVERIN u.(type) id))).

(** [SelectionUnit.prototype.setContext] *)
Definition setContext (id : option string) : M unit :=
  update (set_context id);;
  u ← self;
  _sendToAll (IPC_CONTEXT u.(type) id).

(** [SelectionUnit.prototype.patch] *)
Definition patch (srcID destID : string) : M unit :=
  u ← self;
  (match index_of srcID u.(selection) with
   | Some idx => update (set_selection (<[idx := destID]> u.(selection)))
   | None => mret ()
   end);;
  u ← self;
  when (u.(lastActive) === Some srcID) (update (set_lastActive (Some destID)));;
  u ← self;
  when (u.(lastHover) === Some srcID) (update (set_lastHover (Some destID)));;
  u ← self;
  when (u.(_context) === Some srcID) (update (set_context (Some destID)));;
  _sendToAll (IPC_PATCH u.(type) srcID destID).

(** The [contexts] getter: the context id first, then the rest of the
    selection, the first element moved to the context's old slot. *)
Definition contexts (u : SelectionUnit) : list string :=
  match u.(_context) with
  | Some id =>
      if truthy (Some id) then
        match index_of id u.(selection) with
        | Some index =>
            let selection := u.(selection) in
            match head selection with
            | Some firstToSwap => <[index := firstToSwap]> (<[0 := id]> selection)
            | None => selection
            end
        | None => [id]
        end
      else []
  | None => []
  end.

(** [SelectionUnit.prototype.clear] *)
Definition clear (act : option string -> M unit) : M unit :=
  u ← self;
  _sendToAll (IPC_UNSELECTED u.(type) u.(selection));;
  update (set_selection []);;
  act None;;
  _sendToAll (IPC_CHANGED u.(type)).

End SelectionUnit.

Module ConfirmableSelectionUnit.

(** [new ConfirmableSelectionUnit(type)] *)
Definition new (type : string) : SelectionUnit :=
  mkUnit type [] None None None true [].

(** [ConfirmableSelectionUnit.prototype._activate]: activation is
    suppressed while a transaction is pending. *)
Definition _activate (id : option string) : M unit :=
  u ← self;
  when u.(confirmed) (SelectionUnit._activate id).

(** [ConfirmableSelectionUnit.prototype.confirm] *)
Definition confirm : M unit :=
  u ← self;
  when (negb u.(confirmed))
    (update (set_snapshot []);;
     update (set_confirmed true);;
     u ← self;
     _activate (last_or_null u.(selection))).

(** [_checkConfirm(helper, confirm)] *)
Definition _checkConfirm (confirm' : bool) : M unit :=
  u ← self;
  if negb u.(confirmed) && confirm' then confirm
  else if u.(confirmed) && negb confirm' then
    update (set_snapshot u.(selection));;
    update (set_confirmed false)
  else mret ().

(** [ConfirmableSelectionUnit.prototype.select] *)
Definition select (id : IdArg) (unselectOthers confirm' : bool) : M unit :=
  _checkConfirm confirm';;
  SelectionUnit.select _activate id unselectOthers.

(** [ConfirmableSelectionUnit.prototype.unselect] *)
Definition unselect (id : IdArg) (confirm' : bool) : M unit :=
  _checkConfirm confirm';;
  SelectionUnit.unselect _activate id.

(** [ConfirmableSelectionUnit.prototype.cancel] *)
Definition cancel : M unit :=
  u ← self;
  when (negb u.(confirmed))
    (SelectionUnit.select _activate (Many u.(_confirmedSnapShot)) true;;
     update (set_snapshot []);;
     update (set_confirmed true)).

(** The inherited methods, with [this._activate] dispatched to the
    override. *)
Definition clear : M unit := SelectionUnit.clear _activate.

End ConfirmableSelectionUnit.

(** A fresh unit of type ["node"], used by the concrete runs. *)
Definition u0 : SelectionUnit := ConfirmableSelectionUnit.new "node".
Definition w0 : World := mkWorld u0 None.

(** A unit of type ["node"] with ["a"; "b"; "c"] selected and ["c"] as
    context. *)
Definition u_abc : SelectionUnit := mkUnit "node" ["a"; "b"; "c"] (Some "c") None (Some "c") true [].

(** ** Run equations

    Each method, run on a world, as an explicit final world and outbox.
    The theorems of the later files are proved from these equations. *)

Definition c_act := ConfirmableSelectionUnit._activate.

(** The selection after the [_unselectOthers] step of [select]. *)
Definition uo_sel (unselectOthers : bool) (sel ids : list string) : list string :=
  if unselectOthers && bool_decide (0 < length (difference sel ids)) then intersection sel ids else sel.

(** The selection after [select]: the kept ids, then the new ones in the
    caller's order. *)
Definition select_sel (sel ids : list string) (unselectOthers : bool) : list string :=
  let sel1 := uo_sel unselectOthers sel ids in sel1 ++ difference ids sel1.

Definition msg_if (b : bool) (m : Msg) : list Msg := if b then [m] else [].

(** A nullable id that is present in a list. *)
Definition opt_in (o : option string) (l : list string) : Prop :=
  match o with Some a => a ∈ l | None => False end.

#[export] Instance opt_in_dec o l : Decision (opt_in o l).
Proof. destruct o; simpl; apply _. Defined.

(** The selection, the removed ids and the [unselectActiveObj] flag that
    the two branches of [unselect] compute. *)
Definition unselect_res (la : option string) (id : IdArg) (sel : list string)
    : list string * list string * bool :=
  match id with
  | One x =>
      match index_of x sel with
      | Some index => (delete index sel, [x], Some x === la)
      | None => (sel, [], false)
      end
  | Many ids =>
      if bool_decide (0 < length ids) then SelectionUnit.unselect_loop la ids sel [] false
      else (sel, [], false)
  end.

(** The four rewrites of [patch], as a function on the unit. *)
Definition patch_fields (srcID destID : string) (u : SelectionUnit) : SelectionUnit :=
  let rw (o : option string) := if o === Some srcID then Some destID else o in
  mkUnit u.(type)
    (match index_of srcID u.(selection) with
     | Some idx => <[idx := destID]> u.(selection)
     | None => u.(selection)
     end)
    (rw u.(lastActive)) (rw u.(lastHover)) (rw u.(_context))
    u.(confirmed) u.(_confirmedSnapShot).

Lemma mkWorld_eta w : mkWorld (this w) (_lastActiveUnit w) = w.
Proof. by destruct w. Qed.

Lemma set_selection_id u : set_selection (selection u) u = u.
Proof. by destruct u. Qed.

Lemma set_lastActive_id u : set_lastActive (lastActive u) u = u.
Proof. by destruct u. Qed.

Lemma activate_run id w :
  SelectionUnit._activate id w =
  if lastActive (this w) !== id then
    (tt, mkWorld (set_lastActive id (this w)) (Some (type (this w))),
     msg_if (truthy (lastActive (this w))) (IPC_DEACTIVATED (type (this w)) (lastActive (this w)))
     ++ [IPC_ACTIVATED (type (this w)) id])
  else (tt, w, []).
Proof.
  destruct w as [[ty sel la lh ctx c snap] g]. unfold SelectionUnit._activate, self, update, set_lastActiveUnit.
  st_simpl. destruct (bool_decide (la = id)); simpl; [done|]. by destruct (truthy la).
Qed.

Lemma c_act_run id w :
  c_act id w = if confirmed (this w) then SelectionUnit._activate id w else (tt, w, []).
Proof. destruct w as [[ty sel la lh ctx c snap] g]. unfold c_act, ConfirmableSelectionUnit._activate, self. st_simpl. destruct c; simpl; [destruct (SelectionUnit._activate id _) as [[??]?]|]; reflexivity. Qed.

Lemma unselectOthers_run ids w :
  SelectionUnit._unselectOthers ids w =
  if bool_decide (0 < length (difference (selection (this w)) ids)) then
    (true, mkWorld (set_selection (intersection (selection (this w)) ids) (this w)) (_lastActiveUnit w),
     [IPC_UNSELECTED (type (this w)) (difference (selection (this w)) ids)])
  else (false, w, []).
Proof.
  destruct w as [[ty sel la lh ctx c snap] g]. unfold SelectionUnit._unselectOthers, self, update.
  st_simpl. by case_bool_decide.
Qed.

Lemma select_run act id uo w :
  SelectionUnit.select act id uo w =
  let ids := to_array id in
  let u := this w in
  let removed := difference (selection u) ids in
  let sel1 := uo_sel uo (selection u) ids in
  let added := difference ids sel1 in
  let w1 := mkWorld (set_selection (sel1 ++ added) u) (_lastActiveUnit w) in
  let '(_, w2, o2) := if bool_decide (0 < length ids) then act (list.last ids) w1 else (tt, w1, []) in
  (tt, w2,
   msg_if (uo && bool_decide (0 < length removed)) (IPC_UNSELECTED (type u) removed)
   ++ msg_if (bool_decide (0 < length added)) (IPC_SELECTED (type u) added)
   ++ o2
   ++ msg_if ((uo && bool_decide (0 < length removed)) || bool_decide (0 < length added))
        (IPC_CHANGED (type (this w2)))).
Proof.
  unfold SelectionUnit.select. rewrite run_bind.
  set (ids := to_array id). simpl.
  assert (Hw : (if uo then SelectionUnit._unselectOthers ids else mret false) w =
    (uo && bool_decide (0 < length (difference (selection (this w)) ids)),
     mkWorld (set_selection (uo_sel uo (selection (this w)) ids) (this w)) (_lastActiveUnit w),
     msg_if (uo && bool_decide (0 < length (difference (selection (this w)) ids)))
       (IPC_UNSELECTED (type (this w)) (difference (selection (this w)) ids)))).
  { unfold uo_sel, msg_if. destruct uo; simpl; [rewrite unselectOthers_run; case_bool_decide|];
    simpl; by rewrite ?set_selection_id, ?mkWorld_eta. }
  rewrite Hw. clear Hw.
  destruct w as [[ty sel la lh ctx c snap] g]; simpl.
  remember (uo_sel uo sel ids) as sel1 eqn:Hsel1. remember (uo && _) as r eqn:Hr.
  clear Hsel1 Hr. unfold self, update, msg_if. st_simpl.
  destruct (bool_decide (0 < length ids)) eqn:Hi.
  - simpl. destruct (bool_decide (0 < length (difference ids sel1))) eqn:Ha; simpl.
    + destruct (act _ _) as [[[] w2] o2]. simpl. rewrite app_nil_r.
      destruct r; simpl; by rewrite <-?app_assoc.
    + assert (difference ids sel1 = []) as -> by (destruct (difference ids sel1); simpl in *; [done|]; simplify_opt; lia).
      rewrite app_nil_r. destruct (act _ _) as [[[] w2] o2]. simpl. rewrite !app_nil_r.
      destruct r; simpl; by rewrite <-?app_assoc.
  - assert (ids = []) as Hn by (destruct ids; simpl in *; [done|]; simplify_opt; lia).
    rewrite Hn. simpl. rewrite app_nil_r. destruct r; simpl; by rewrite ?app_nil_r.
Qed.

Lemma unselect_run act id w :
  SelectionUnit.unselect act id w =
  let u := this w in
  let '(sel', removed, flag) := unselect_res (lastActive u) id (selection u) in
  let w1 := mkWorld (set_selection sel' u) (_lastActiveUnit w) in
  let '(_, w2, o2) := if flag then act (last_or_null sel') w1 else (tt, w1, []) in
  (tt, w2, msg_if (bool_decide (0 < length removed)) (IPC_UNSELECTED (type u) removed)
           ++ o2 ++ msg_if (bool_decide (0 < length removed)) (IPC_CHANGED (type u))).
Proof.
  destruct w as [[ty sel la lh ctx c snap] g].
  unfold SelectionUnit.unselect, unselect_res, self, update, msg_if. st_simpl.
  destruct id as [x|ids].
  - destruct (index_of x sel) as [i|]; simpl.
    + destruct (bool_decide (Some x = la)); simpl; [destruct (act _ _) as [[[] w2] o2]|]; done.
    + done.
  - destruct (bool_decide (0 < length ids)); simpl; [|reflexivity].
    destruct (SelectionUnit.unselect_loop la ids sel [] false) as [[sel' diff] flag]. simpl.
    destruct (bool_decide (0 < length diff)), flag; simpl;
      try (destruct (act _ _) as [[[] w2] o2]; simpl); by rewrite ?app_nil_r.
Qed.

Lemma hover_run id w :
  SelectionUnit.hover id w =
  if lastHover (this w) !== id then
    (tt, mkWorld (set_lastHover id (this w)) (_lastActiveUnit w),
     msg_if (truthy (lastHover (this w))) (IPC_HOVEROUT (type (this w)) (lastHover (this w)))
     ++ msg_if (truthy id) (IPC_HOVERIN (type (this w)) id))
  else (tt, w, []).
Proof.
  destruct w as [[ty sel la lh ctx c snap] g]. unfold SelectionUnit.hover, self, update, msg_if.
  st_simpl. case_bool_decide; [done|]. by destruct (truthy lh), (truthy id).
Qed.

Lemma setContext_run id w :
  SelectionUnit.setContext id w =
  (tt, mkWorld (set_context id (this w)) (_lastActiveUnit w), [IPC_CONTEXT (type (this w)) id]).
Proof. by destruct w as [[] g]. Qed.

Lemma patch_run srcID destID w :
  SelectionUnit.patch srcID destID w =
  (tt, mkWorld (patch_fields srcID destID (this w)) (_lastActiveUnit w),
   [IPC_PATCH (type (this w)) srcID destID]).
Proof.
  destruct w as [[ty sel la lh ctx c snap] g].
  unfold SelectionUnit.patch, patch_fields, self, update. st_simpl.
  destruct (index_of srcID sel); simpl;
    repeat (case_bool_decide; simpl); subst; done.
Qed.

Lemma clear_run act w :
  SelectionUnit.clear act w =
  let '(_, w2, o2) := act None (mkWorld (set_selection [] (this w)) (_lastActiveUnit w)) in
  (tt, w2, [IPC_UNSELECTED (type (this w)) (selection (this w))] ++ o2 ++ [IPC_CHANGED (type (this w))]).
Proof.
  destruct w as [[ty sel la lh ctx c snap] g]. unfold SelectionUnit.clear, self, update. st_simpl.
  by destruct (act _ _) as [[[] w2] o2].
Qed.

Lemma confirm_run w :
  ConfirmableSelectionUnit.confirm w =
  if confirmed (this w) then (tt, w, [])
  else SelectionUnit._activate (last_or_null (selection (this w)))
         (mkWorld (set_confirmed true (set_snapshot [] (this w))) (_lastActiveUnit w)).
Proof.
  destruct w as [[ty sel la lh ctx [] snap] g];
    unfold ConfirmableSelectionUnit.confirm, ConfirmableSelectionUnit._activate, self, update; st_simpl; [done|].
  by destruct (SelectionUnit._activate _ _) as [[[] w2] o2].
Qed.

Lemma checkConfirm_run cf w :
  ConfirmableSelectionUnit._checkConfirm cf w =
  if negb (confirmed (this w)) && cf then ConfirmableSelectionUnit.confirm w
  else if confirmed (this w) && negb cf then
    (tt, mkWorld (set_confirmed false (set_snapshot (selection (this w)) (this w))) (_lastActiveUnit w), [])
  else (tt, w, []).
Proof.
  destruct w as [[ty sel la lh ctx c snap] g]. unfold ConfirmableSelectionUnit._checkConfirm, self, update.
  st_simpl. destruct c, cf; simpl; try done.
  by destruct (ConfirmableSelectionUnit.confirm _) as [[[] w2] o2].
Qed.

Lemma cancel_run w :
  ConfirmableSelectionUnit.cancel w =
  if confirmed (this w) then (tt, w, [])
  else
    let '(_, w1, o1) := SelectionUnit.select c_act (Many (_confirmedSnapShot (this w))) true w in
    (tt, mkWorld (set_confirmed true (set_snapshot [] (this w1))) (_lastActiveUnit w1), o1).
Proof.
  destruct w as [[ty sel la lh ctx [] snap] g];
    unfold ConfirmableSelectionUnit.cancel, self, update; st_simpl; [done|].
  fold c_act. destruct (SelectionUnit.select _ _ _ _) as [[[] w1] o1]. simpl. by rewrite !app_nil_r.
Qed.

(** ** Concrete runs *)

Example select_run_example :
  ConfirmableSelectionUnit.select (Many ["a"; "b"]) true true w0 =
  (tt, mkWorld (mkUnit "node" ["a"; "b"] (Some "b") None None true []) (Some "node"),
   [IPC_SELECTED "node" ["a"; "b"]; IPC_ACTIVATED "node" (Some "b"); IPC_CHANGED "node"]).
Proof. reflexivity. Qed.

(** ** The selection after [select] *)

Lemma patch_this srcID destID w :
  this (exec (SelectionUnit.patch srcID destID) w) = patch_fields srcID destID (this w).
Proof. unfold exec. by rewrite patch_run. Qed.

Lemma c_act_this id w :
  this (exec (c_act id) w) = if confirmed (this w) then set_lastActive id (this w) else this w.
Proof.
  unfold exec. rewrite c_act_run. destruct (confirmed (this w)); [|done].
  rewrite activate_run. case_bool_decide; simpl; [|done]. subst. by rewrite set_lastActive_id.
Qed.

Lemma select_this id uo w :
  this (exec (SelectionUnit.select c_act id uo) w) =
  let ids := to_array id in
  set_lastActive
    (if confirmed (this w) && bool_decide (0 < length ids) then list.last ids else lastActive (this w))
    (set_selection (select_sel (selection (this w)) ids uo) (this w)).
Proof.
  unfold exec. rewrite select_run. simpl. unfold select_sel.
  destruct (bool_decide (0 < length (to_array id))).
  - pose proof (c_act_this (list.last (to_array id))
      (mkWorld (set_selection (uo_sel uo (selection (this w)) (to_array id) ++
                 difference (to_array id) (uo_sel uo (selection (this w)) (to_array id))) (this w))
               (_lastActiveUnit w))) as H.
    unfold exec in H. destruct (c_act _ _) as [[[] w2] o2]. simpl in *. rewrite H.
    destruct (this w) as [? ? ? ? ? [] ?]; reflexivity.
  - rewrite andb_false_r. simpl. by destruct (this w).
Qed.

Lemma elem_of_uo_sel x uo sel ids :
  x ∈ uo_sel uo sel ids <-> x ∈ sel /\ (uo = true -> x ∈ ids).
Proof.
  unfold uo_sel. destruct uo; simpl; [|naive_solver].
  case_bool_decide as Hl.
  - rewrite elem_of_intersection. naive_solver.
  - assert (difference sel ids = []) as Hd by (destruct (difference sel ids); simpl in *; [done|lia]).
    split; [|naive_solver]. intros Hx. split; [done|]. intros _.
    destruct (decide (x ∈ ids)) as [|Hn]; [done|].
    assert (x ∈ difference sel ids) as Hxd by (by apply elem_of_difference). rewrite Hd in Hxd. set_solver.
Qed.

Lemma NoDup_uo_sel uo sel ids : NoDup sel -> NoDup (uo_sel uo sel ids).
Proof. unfold uo_sel. intros. destruct uo; simpl; [case_bool_decide|]; auto with selection. Qed.

Lemma elem_of_select_sel x sel ids uo :
  x ∈ select_sel sel ids uo <-> x ∈ ids \/ (uo = false /\ x ∈ sel).
Proof.
  unfold select_sel. rewrite elem_of_app, elem_of_difference, elem_of_uo_sel.
  destruct (decide (x ∈ sel)), (decide (x ∈ ids)), uo; naive_solver.
Qed.

Lemma NoDup_select_sel sel ids uo : NoDup sel -> NoDup ids -> NoDup (select_sel sel ids uo).
Proof.
  intros Hs Hi. unfold select_sel. apply list.NoDup_app. repeat split.
  - by apply NoDup_uo_sel.
  - intros x Hx. rewrite elem_of_difference. naive_solver.
  - by apply NoDup_difference.
Qed.

(** ** Functional properties *)

(** The two branches of [unselect] compute the same result on one id. *)
Lemma unselect_res_single la x sel : unselect_res la (One x) sel = unselect_res la (Many [x]) sel.
Proof. simpl. by destruct (index_of x sel). Qed.

(** C19: [unselect(id)] and [unselect([id])] are the same call. *)
Theorem unselect_single_equiv act x w :
  SelectionUnit.unselect act (One x) w = SelectionUnit.unselect act (Many [x]) w.
Proof. rewrite !unselect_run. cbv zeta. by rewrite unselect_res_single. Qed.

(** C17: With [unselectOthers], a duplicate-free request becomes the selection,
    up to order: the kept ids in their old order, then the new ones. *)
Theorem select_unselectOthers_perm id w :
  NoDup (selection (this w)) -> NoDup (to_array id) ->
  selection (this (exec (SelectionUnit.select c_act id true) w)) ≡ₚ to_array id.
Proof.
  intros Hs Hi. rewrite select_this. simpl. apply NoDup_Permutation; [by apply NoDup_select_sel|done|].
  intros x. rewrite elem_of_select_sel. naive_solver.
Qed.

Lemma contexts_selected u id :
  _context u = Some id -> id <> "" -> id ∈ selection u ->
  head (SelectionUnit.contexts u) = Some id /\ SelectionUnit.contexts u ≡ₚ selection u.
Proof.
  intros Hc Hne Hin. unfold SelectionUnit.contexts. rewrite Hc. simpl. rewrite bool_decide_false by done. simpl.
  destruct (index_of_elem id (selection u) Hin) as (i & -> & Hi).
  destruct (selection u) as [|s0 rest]; [set_solver|]. simpl.
  destruct i as [|k]; simplify_eq/=; [done|]. split; [done|]. by apply insert_cons_perm.
Qed.

(** C18: The [contexts] getter on each of its branches: no (truthy) context
    gives [[]]; a context outside the selection gives [[id]]; a selected
    context gives the selection reordered with the context first. *)
Theorem contexts_spec u :
  (truthy (_context u) = false -> SelectionUnit.contexts u = []) /\
  (forall id, _context u = Some id -> id <> "" -> id ∉ selection u -> SelectionUnit.contexts u = [id]) /\
  (forall id, _context u = Some id -> id <> "" -> id ∈ selection u ->
     head (SelectionUnit.contexts u) = Some id /\ SelectionUnit.contexts u ≡ₚ selection u).
Proof.
  split; [|split; [|apply contexts_selected]].
  - unfold SelectionUnit.contexts. destruct (_context u); simpl; [|done]. by intros ->.
  - intros id Hc Hne Hn. unfold SelectionUnit.contexts. rewrite Hc. simpl.
    rewrite bool_decide_false by done. simpl. apply index_of_None in Hn. by rewrite Hn.
Qed.

(** C10: patch(srcID, destID) writes destID over the first occurrence of
    srcID in the selection and moves each of lastActive, lastHover and
    context that equals srcID to destID; when destID is fresh (not
    selected and none of the three pointers), patch(destID, srcID) then
    gives back the world it started from, and the two calls emit exactly
    the two patch messages and no select, unselect or activation message. *)
Theorem patch_roundtrip srcID destID w :
  destID ∉ selection (this w) -> lastActive (this w) <> Some destID ->
  lastHover (this w) <> Some destID -> _context (this w) <> Some destID ->
  let rw (o : option string) := if o === Some srcID then Some destID else o in
  let w1 := exec (SelectionUnit.patch srcID destID) w in
  selection (this w1) = match index_of srcID (selection (this w)) with
                        | Some i => <[i := destID]> (selection (this w))
                        | None => selection (this w)
                        end /\
  lastActive (this w1) = rw (lastActive (this w)) /\ lastHover (this w1) = rw (lastHover (this w)) /\
  _context (this w1) = rw (_context (this w)) /\
  exec (SelectionUnit.patch destID srcID) w1 = w /\
  outbox (SelectionUnit.patch srcID destID) w ++ outbox (SelectionUnit.patch destID srcID) w1 =
  [IPC_PATCH (type (this w)) srcID destID; IPC_PATCH (type (this w)) destID srcID].
Proof.
  intros Hs Ha Hh Hc rw w1. subst w1 rw. unfold exec, outbox. rewrite !patch_run. simpl.
  do 4 (split; [done|]). split; [|done].
  destruct w as [[ty sel la lh ctx c snap] g]; simpl in *. f_equal.
  unfold patch_fields; simpl. f_equal.
  - destruct (index_of srcID sel) as [i|] eqn:Ei.
    + apply index_of_Some in Ei. rewrite (index_of_insert_fresh _ _ _ _ Ei Hs).
      by rewrite list_insert_insert, decide_True, list_insert_id.
    + by rewrite (proj2 (index_of_None _ _) Hs).
  - destruct la; repeat (case_bool_decide; simplify_eq/=); done.
  - destruct lh; repeat (case_bool_decide; simplify_eq/=); done.
  - destruct ctx; repeat (case_bool_decide; simplify_eq/=); done.
Qed.

(** The patch round trip fails when destID is already selected: from
    selection [b; a], patch(a, b) gives [b; b] and patch(b, a) rewrites the
    first b, leaving [a; b]. *)
Lemma patch_roundtrip_selected_fails :
  let w := mkWorld (mkUnit "node" ["b"; "a"] None None None true []) None in
  selection (this (exec (SelectionUnit.patch "b" "a") (exec (SelectionUnit.patch "a" "b") w))) = ["a"; "b"].
Proof. reflexivity. Qed.

Example select_unselectOthers_perm_witness :
  NoDup (selection (this w0)) /\ NoDup (to_array (Many ["b"; "a"])) /\
  selection (this (exec (SelectionUnit.select c_act (Many ["b"; "a"]) true) w0)) ≡ₚ to_array (Many ["b"; "a"]).
Proof.
  assert (H1 : NoDup (selection (this w0))) by constructor.
  assert (H2 : NoDup (to_array (Many ["b"; "a"]))) by (repeat constructor; set_solver).
  split; [exact H1|]. split; [exact H2|]. apply select_unselectOthers_perm; [exact H1|exact H2].
Defined.

Example contexts_spec_witness :
  _context u_abc = Some "c" /\ "c" <> "" /\ "c" ∈ selection u_abc /\
  head (SelectionUnit.contexts u_abc) = Some "c" /\ SelectionUnit.contexts u_abc ≡ₚ selection u_abc.
Proof.
  assert (Hin : "c" ∈ selection u_abc) by (simpl; set_solver).
  split; [reflexivity|]. split; [done|]. split; [exact Hin|].
  apply (proj2 (proj2 (contexts_spec u_abc)) "c"); [reflexivity|done|exact Hin].
Defined.

Example patch_roundtrip_witness :
  let w := mkWorld u_abc None in
  "d" ∉ selection (this w) /\ lastActive (this w) <> Some "d" /\
  lastHover (this w) <> Some "d" /\ _context (this w) <> Some "d" /\
  exec (SelectionUnit.patch "d" "c") (exec (SelectionUnit.patch "c" "d") w) = w.
Proof.
  assert (Hs : "d" ∉ selection (this (mkWorld u_abc None))) by (simpl; set_solver).
  split; [exact Hs|]. split; [done|]. split; [done|]. split; [done|].
  destruct (patch_roundtrip "c" "d" (mkWorld u_abc None) Hs) as (_ & _ & _ & _ & H & _);
    [done|done|done|exact H].
Defined.
