(* ===== verification/UnitInv.v ===== *)
(** * The unit invariant and its preservation

    [wf] is the invariant the code actually keeps on a unit. Ids are unique
    in [selection] and in [_confirmedSnapShot]. A confirmed unit has an
    empty snapshot and a [lastActive] that is null or selected. A unit with
    a pending transaction has a [lastActive] that is null or in the
    snapshot: activation is suppressed while the transaction is pending,
    so focus stays on an id of the pre-transaction selection.

    [unit_op] lists the methods a process calls on a unit. [op_pre] gives
    the conditions under which a call keeps the invariant: the ids passed
    to [select] are distinct, an empty [select] does not unselect others
    while confirming, and [patch] targets a fresh id and is not applied to
    the focused id during a transaction. [unit_reach] is the step relation
    from a fresh unit. [unit_reach_wf] proves the invariant by rule
    induction. [select_empty_dangling] and [patch_pending_cancel_dangling]
    show that the code breaks it when the conditions fail.

    The helper lemmas give closed forms of the [unselect] loop
    ([unselect_loop_spec]), of the selection [select] leaves
    ([elem_of_select_sel]) and of the unit after each method ([*_this]). *)

From S2P Require Import SelPrelude JsArray Messages Units.
Set Warnings "-clear-no-such-hyp".

Definition active_in (la : option string) (l : list string) : Prop :=
  match la with Some a => a ∈ l | None => True end.

Definition wf (u : SelectionUnit) : Prop :=
  NoDup (selection u) /\ NoDup (_confirmedSnapShot u) /\
  if confirmed u then active_in (lastActive u) (selection u) /\ _confirmedSnapShot u = []
  else active_in (lastActive u) (_confirmedSnapShot u).

(** The methods a process calls on a unit. *)
Inductive unit_op :=
  | OpSelect (id : IdArg) (unselectOthers confirm : bool)
  | OpUnselect (id : IdArg) (confirm : bool)
  | OpHover (id : option string)
  | OpSetContext (id : option string)
  | OpPatch (srcID destID : string)
  | OpClear
  | OpConfirm
  | OpCancel.

Definition run_op (op : unit_op) : M unit :=
  match op with
  | OpSelect id uo cf => ConfirmableSelectionUnit.select id uo cf
  | OpUnselect id cf => ConfirmableSelectionUnit.unselect id cf
  | OpHover id => SelectionUnit.hover id
  | OpSetContext id => SelectionUnit.setContext id
  | OpPatch s d => SelectionUnit.patch s d
  | OpClear => ConfirmableSelectionUnit.clear
  | OpConfirm => ConfirmableSelectionUnit.confirm
  | OpCancel => ConfirmableSelectionUnit.cancel
  end.

Definition op_pre (op : unit_op) (u : SelectionUnit) : Prop :=
  match op with
  | OpSelect id uo cf => NoDup (to_array id) /\ (to_array id <> [] \/ uo = false \/ cf = false)
  | OpPatch s d => s = d \/ (d ∉ selection u /\ (confirmed u = true \/ lastActive u <> Some s))
  | _ => True
  end.

Inductive unit_reach : World -> Prop :=
  | reach_new ty g : unit_reach (mkWorld (ConfirmableSelectionUnit.new ty) g)
  | reach_step w op : unit_reach w -> op_pre op (this w) -> unit_reach (exec (run_op op) w)
  | reach_global w g : unit_reach w -> unit_reach (mkWorld (this w) g).

(** The spec's invariant, as the unit's own check. *)
Definition active_ok (u : SelectionUnit) : Prop := active_in (lastActive u) (selection u).

Lemma intersection_go_other_ext ids o1 o2 acc :
  (forall y, y ∉ acc -> y ∈ o1 <-> y ∈ o2) ->
  intersection_go ids o1 acc = intersection_go ids o2 acc.
Proof.
  revert acc. induction ids as [|v ids IH]; intros acc H; simpl; [done|].
  case_bool_decide; [by apply IH|].
  do 2 case_bool_decide; try (exfalso; naive_solver); apply IH; set_solver.
Qed.

Lemma unselect_loop_spec la ids sel diff flag :
  NoDup sel -> (forall x, x ∈ diff -> x ∉ sel) ->
  SelectionUnit.unselect_loop la ids sel diff flag =
  (filter (λ y, y ∉ ids) sel, intersection_go ids sel diff,
   flag || bool_decide (opt_in la ids /\ opt_in la sel)).
Proof.
  revert sel diff flag. induction ids as [|x ids IH]; intros sel diff flag Hnd Hdis; simpl.
  - rewrite filter_all by set_solver.
    rewrite (bool_decide_eq_false_2 (opt_in la [] /\ _)), orb_false_r; [done|]. destruct la; simpl; set_solver.
  - destruct (index_of x sel) as [i|] eqn:Hi.
    + apply index_of_Some in Hi as Hx. apply list_elem_of_lookup_2 in Hx as Hxs.
      rewrite IH; [|by apply NoDup_delete|].
      2:{ intros y Hy. rewrite elem_of_delete_NoDup by done. set_solver. }
      rewrite (bool_decide_eq_false_2 (x ∈ diff)) by naive_solver.
      rewrite (bool_decide_eq_true_2 (x ∈ sel)) by done.
      f_equal; [f_equal|].
      * rewrite (delete_filter_NoDup _ _ _ Hnd Hx), list_filter_filter.
        apply list_filter_iff. set_solver.
      * apply intersection_go_other_ext. intros y Hy.
        rewrite elem_of_delete_NoDup by done. set_solver.
      * destruct la as [a|]; simpl; repeat case_bool_decide; simplify_eq; try done;
          rewrite ?orb_true_r, ?orb_false_r; try done; exfalso.
        all: match goal with H : ¬ _ |- _ => apply H end.
        all: try rewrite elem_of_delete_NoDup in * by done; set_solver.
    + apply index_of_None in Hi. rewrite IH by done.
      rewrite (bool_decide_eq_false_2 (x ∈ sel)) by done.
      destruct (bool_decide (x ∈ diff)).
      all: f_equal; [f_equal|].
      all: try (apply filter_ext_elem; set_solver).
      all: destruct la as [a|]; simpl; f_equal; apply bool_decide_ext; set_solver.
Qed.

Lemma unselect_res_spec la id sel :
  NoDup sel ->
  unselect_res la id sel =
  (filter (λ y, y ∉ to_array id) sel, intersection (to_array id) sel,
   bool_decide (opt_in la (to_array id) /\ opt_in la sel)).
Proof.
  intros Hnd. destruct id as [x|ids]; simpl.
  - destruct (index_of x sel) as [i|] eqn:Hi.
    + apply index_of_Some in Hi as Hx. apply list_elem_of_lookup_2 in Hx as Hxs.
      rewrite (delete_filter_NoDup _ _ _ Hnd Hx). unfold intersection. simpl.
      rewrite (bool_decide_eq_true_2 (x ∈ sel)) by done.
      f_equal; [f_equal|].
      * apply list_filter_iff. set_solver.
      * destruct la; simpl; first [done | apply bool_decide_ext; set_solver].
    + apply index_of_None in Hi. unfold intersection. simpl.
      rewrite (bool_decide_eq_false_2 (x ∈ sel)) by done.
      rewrite filter_all by set_solver. f_equal. symmetry. apply bool_decide_eq_false_2.
      destruct la; simpl; set_solver.
  - case_bool_decide.
    + by rewrite unselect_loop_spec by set_solver.
    + destruct ids; simpl in *; [|lia]. rewrite filter_all by set_solver.
      f_equal. symmetry. apply bool_decide_eq_false_2. destruct la; simpl; set_solver.
Qed.

Lemma unselect_this id w :
  this (exec (SelectionUnit.unselect c_act id) w) =
  let '(sel', _, flag) := unselect_res (lastActive (this w)) id (selection (this w)) in
  set_lastActive (if flag && confirmed (this w) then last_or_null sel' else lastActive (this w))
    (set_selection sel' (this w)).
Proof.
  unfold exec. rewrite unselect_run. simpl.
  destruct (unselect_res _ _ _) as [[sel' removed] flag]. destruct flag.
  - pose proof (c_act_this (last_or_null sel') (mkWorld (set_selection sel' (this w)) (_lastActiveUnit w))) as H.
    unfold exec in H. destruct (c_act _ _) as [[[] w2] o2]. simpl in *. rewrite H.
    destruct (this w) as [? ? ? ? ? [] ?]; reflexivity.
  - simpl. by destruct (this w).
Qed.

Lemma clear_this w :
  this (exec ConfirmableSelectionUnit.clear w) =
  set_lastActive (if confirmed (this w) then None else lastActive (this w)) (set_selection [] (this w)).
Proof.
  unfold exec, ConfirmableSelectionUnit.clear. rewrite clear_run. fold c_act.
  pose proof (c_act_this None (mkWorld (set_selection [] (this w)) (_lastActiveUnit w))) as H.
  unfold exec in H. destruct (c_act _ _) as [[[] w2] o2]. simpl in *. rewrite H.
  destruct (this w) as [? ? ? ? ? [] ?]; reflexivity.
Qed.

Lemma confirm_this w :
  this (exec ConfirmableSelectionUnit.confirm w) =
  if confirmed (this w) then this w
  else set_lastActive (last_or_null (selection (this w))) (set_confirmed true (set_snapshot [] (this w))).
Proof.
  unfold exec. rewrite confirm_run. destruct (confirmed (this w)) eqn:Hc; [done|].
  rewrite activate_run. simpl. case_bool_decide; simpl; [|done].
  destruct (this w); simpl in *; by subst.
Qed.

Lemma checkConfirm_this cf w :
  this (exec (ConfirmableSelectionUnit._checkConfirm cf) w) =
  if negb (confirmed (this w)) && cf then
    set_lastActive (last_or_null (selection (this w))) (set_confirmed true (set_snapshot [] (this w)))
  else if confirmed (this w) && negb cf then set_confirmed false (set_snapshot (selection (this w)) (this w))
  else this w.
Proof.
  unfold exec. rewrite checkConfirm_run.
  destruct (confirmed (this w)) eqn:Hc, cf; cbn [negb andb]; try done.
  pose proof (confirm_this w) as H. unfold exec in H. by rewrite H, Hc.
Qed.

Lemma checkConfirm_confirmed cf w :
  confirmed (this (exec (ConfirmableSelectionUnit._checkConfirm cf) w)) = cf.
Proof. rewrite checkConfirm_this. destruct (confirmed (this w)) eqn:Hc, cf; simpl; auto. Qed.

Lemma cancel_this w :
  this (exec ConfirmableSelectionUnit.cancel w) =
  if confirmed (this w) then this w
  else set_confirmed true (set_snapshot []
         (set_selection (select_sel (selection (this w)) (_confirmedSnapShot (this w)) true) (this w))).
Proof.
  unfold exec. rewrite cancel_run. destruct (confirmed (this w)) eqn:Hc; [done|].
  pose proof (select_this (Many (_confirmedSnapShot (this w))) true w) as H.
  unfold exec in H. destruct (SelectionUnit.select _ _ _ _) as [[[] w1] o1]. simpl in *. rewrite H, Hc.
  simpl. by destruct (this w).
Qed.

(** A fresh unit satisfies the invariant. *)
Lemma wf_new ty : wf (ConfirmableSelectionUnit.new ty).
Proof. repeat split; constructor. Qed.

Lemma active_in_last_or_null l : active_in (last_or_null l) l.
Proof. rewrite last_or_null_last. destruct (list.last l) eqn:E; simpl; [by apply last_elem|done]. Qed.

Lemma checkConfirm_wf cf w : wf (this w) -> wf (this (exec (ConfirmableSelectionUnit._checkConfirm cf) w)).
Proof.
  rewrite checkConfirm_this. unfold wf. destruct (this w) as [ty sel la lh ctx [] snap]; simpl;
    intros (Hs & Hn & Ha); destruct cf; simpl; try done.
  - destruct Ha as [Ha ->]. repeat split; auto using NoDup_nil_2.
  - repeat split; auto using NoDup_nil_2, active_in_last_or_null.
Qed.

Lemma select_wf id uo cf w :
  wf (this w) -> NoDup (to_array id) -> (to_array id <> [] \/ uo = false \/ cf = false) ->
  wf (this (exec (ConfirmableSelectionUnit.select id uo cf) w)).
Proof.
  intros Hwf Hnd Hpre. unfold ConfirmableSelectionUnit.select. rewrite exec_bind. fold c_act.
  pose proof (checkConfirm_wf cf w Hwf) as Hw1. pose proof (checkConfirm_confirmed cf w) as Hc.
  revert Hw1 Hc. generalize (exec (ConfirmableSelectionUnit._checkConfirm cf) w) as w1. intros w1 Hw1 Hc.
  rewrite select_this. destruct (this w1) as [ty sel la lh ctx c snap]; simpl in *. subst c.
  destruct Hw1 as (Hs & Hn & Ha). split; [by apply NoDup_select_sel|]. split; [done|].
  destruct cf; simpl in *; [|done]. destruct Ha as [Ha Hsn]. split; [|done].
  case_bool_decide as Hl; simpl.
  - destruct (list.last (to_array id)) eqn:E; simpl; [|done].
    apply elem_of_select_sel. left. by apply last_elem.
  - destruct la; simpl; [|done]. apply elem_of_select_sel.
    destruct Hpre as [Hne|[->|?]]; [destruct (to_array id); simpl in *; [done|lia]|by right|done].
Qed.

Lemma unselect_wf id cf w :
  wf (this w) -> wf (this (exec (ConfirmableSelectionUnit.unselect id cf) w)).
Proof.
  intros Hwf. unfold ConfirmableSelectionUnit.unselect. rewrite exec_bind. fold c_act.
  pose proof (checkConfirm_wf cf w Hwf) as Hw1.
  revert Hw1. generalize (exec (ConfirmableSelectionUnit._checkConfirm cf) w) as w1. intros w1 Hw1.
  rewrite unselect_this. destruct (this w1) as [ty sel la lh ctx c snap]; unfold wf in *; simpl in *.
  destruct Hw1 as (Hs & Hn & Ha). rewrite unselect_res_spec by done.
  split; [simpl; by apply NoDup_filter|]. split; [done|].
  destruct c; simpl in *; rewrite ?andb_false_r, ?andb_true_r; [|done].
  destruct Ha as [Ha Hsn]. split; [|done].
  case_bool_decide as Hf; simpl; [apply active_in_last_or_null|].
  destruct la as [a|]; simpl in *; [|done]. apply list_elem_of_filter. naive_solver.
Qed.

Lemma clear_wf w : wf (this w) -> wf (this (exec ConfirmableSelectionUnit.clear w)).
Proof.
  rewrite clear_this. destruct (this w) as [ty sel la lh ctx [] snap]; unfold wf; simpl;
    intros (Hs & Hn & Ha); repeat split; auto using NoDup_nil_2; by destruct Ha.
Qed.

Lemma confirm_wf w : wf (this w) -> wf (this (exec ConfirmableSelectionUnit.confirm w)).
Proof.
  rewrite confirm_this. destruct (this w) as [ty sel la lh ctx [] snap]; unfold wf; simpl;
    intros (Hs & Hn & Ha); repeat split; auto using NoDup_nil_2, active_in_last_or_null; by destruct Ha.
Qed.

Lemma cancel_wf w : wf (this w) -> wf (this (exec ConfirmableSelectionUnit.cancel w)).
Proof.
  rewrite cancel_this. destruct (this w) as [ty sel la lh ctx [] snap]; unfold wf; simpl; [done|].
  intros (Hs & Hn & Ha). repeat split; auto using NoDup_nil_2, NoDup_select_sel.
  destruct la; simpl in *; [|done]. apply elem_of_select_sel. by left.
Qed.

Lemma hover_wf id w : wf (this w) -> wf (this (exec (SelectionUnit.hover id) w)).
Proof. unfold exec. rewrite hover_run. case_bool_decide; simpl; [|by destruct (this w)]. by destruct (this w). Qed.

Lemma setContext_wf id w : wf (this w) -> wf (this (exec (SelectionUnit.setContext id) w)).
Proof. unfold exec. rewrite setContext_run. by destruct (this w). Qed.

Lemma patch_wf srcID destID w :
  wf (this w) ->
  srcID = destID \/ (destID ∉ selection (this w) /\
                     (confirmed (this w) = true \/ lastActive (this w) <> Some srcID)) ->
  wf (this (exec (SelectionUnit.patch srcID destID) w)).
Proof.
  unfold exec. rewrite patch_run. simpl. unfold patch_fields.
  destruct (this w) as [ty sel la lh ctx c snap]; unfold wf; simpl. intros (Hs & Hn & Ha) Hpre.
  destruct Hpre as [<-|[Hd Hc]].
  - destruct (index_of srcID sel) as [i|] eqn:Hi.
    + apply index_of_Some in Hi. rewrite list_insert_id by done.
      repeat case_bool_decide; simplify_eq; by repeat split.
    + repeat case_bool_decide; simplify_eq; by repeat split.
  - destruct (index_of srcID sel) as [i|] eqn:Hi.
    + apply index_of_Some in Hi as Hx. split; [by eapply NoDup_insert_fresh|]. split; [done|].
      destruct c; [destruct Ha as [Ha ->]; split; [|done]|].
      * case_bool_decide as Hla; simpl.
        -- rewrite elem_of_insert_NoDup by done. by left.
        -- destruct la as [a|]; simpl in *; [|done]. rewrite elem_of_insert_NoDup by done.
           right. split; [done|]. congruence.
      * destruct Hc as [Hc|Hc]; [done|]. case_bool_decide; [done|]. done.
    + apply index_of_None in Hi. split; [done|]. split; [done|].
      destruct c; [destruct Ha as [Ha ->]; split; [|done]|];
        case_bool_decide; simplify_eq; simpl in *; try done.
      destruct Hc; [done|]. congruence.
Qed.

Lemma run_op_wf op w : wf (this w) -> op_pre op (this w) -> wf (this (exec (run_op op) w)).
Proof.
  destruct op; simpl; intros Hwf Hpre.
  - destruct Hpre. by apply select_wf.
  - by apply unselect_wf.
  - by apply hover_wf.
  - by apply setContext_wf.
  - by apply patch_wf.
  - by apply clear_wf.
  - by apply confirm_wf.
  - by apply cancel_wf.
Qed.

(** Reachable units are well formed. *)
Lemma wf_reach w : unit_reach w -> wf (this w).
Proof.
  induction 1 as [ty g|w op _ IH Hpre|w g _ IH].
  - unfold wf. simpl. repeat split; auto using NoDup_nil_2.
  - by apply run_op_wf.
  - done.
Qed.

(** C3: Every unit reachable from a fresh ConfirmableSelectionUnit by method calls that meet their preconditions keeps unique ids and a lastActive that is null or selected (in the snapshot while a transaction is pending). *)
Theorem unit_reach_wf w : unit_reach w -> wf (this w).
Proof. apply wf_reach. Qed.

Example unit_reach_wf_witness :
  unit_reach (exec (run_op (OpSelect (Many ["a"; "b"]) true true)) w0) /\
  wf (this (exec (run_op (OpSelect (Many ["a"; "b"]) true true)) w0)).
Proof.
  assert (H : unit_reach (exec (run_op (OpSelect (Many ["a"; "b"]) true true)) w0)).
  { apply reach_step; [apply reach_new|]. simpl. split; [|left; done].
    repeat constructor; set_solver. }
  split; [done|]. by apply unit_reach_wf.
Defined.

(** C27: On every confirmed unit with a focus, select([], unselectOthers,
    confirm) empties the selection through _unselectOthers but skips the
    activation block (the request has length 0), so the focus stays on an
    id that is no longer selected and the unit breaks the invariant [wf]. *)
Theorem select_empty_dangling w a :
  confirmed (this w) = true -> lastActive (this w) = Some a ->
  let w1 := exec (ConfirmableSelectionUnit.select (Many []) true true) w in
  selection (this w1) = [] /\ lastActive (this w1) = Some a /\ confirmed (this w1) = true /\
  ¬ wf (this w1).
Proof.
  intros Hc Ha w1. subst w1. unfold ConfirmableSelectionUnit.select. rewrite exec_bind. fold c_act.
  rewrite select_this, checkConfirm_this, Hc. simpl.
  assert (Hnil : select_sel (selection (this w)) [] true = []).
  { apply elem_of_nil_inv. intros x. rewrite elem_of_select_sel. set_solver. }
  destruct (this w) as [ty sel la lh ctx c snap]; simpl in *; subst. rewrite Hnil.
  split; [done|]. split; [done|]. split; [done|]. intros (_ & _ & Hin & _). simpl in Hin. set_solver.
Qed.

(** C28: patch during a pending transaction rewrites lastActive but not
    _confirmedSnapShot: on every pending unit focused on srcID whose
    snapshot does not hold destID, patch(srcID, destID) then cancel gives
    a confirmed unit focused on destID, which cancel did not select, so
    the unit breaks the invariant [wf]. *)
Theorem patch_pending_cancel_dangling w srcID destID :
  confirmed (this w) = false -> lastActive (this w) = Some srcID ->
  destID ∉ _confirmedSnapShot (this w) ->
  let w1 := exec ConfirmableSelectionUnit.cancel (exec (SelectionUnit.patch srcID destID) w) in
  confirmed (this w1) = true /\ lastActive (this w1) = Some destID /\
  destID ∉ selection (this w1) /\ ¬ wf (this w1).
Proof.
  intros Hc Ha Hd w1. subst w1. rewrite cancel_this, patch_this.
  destruct (this w) as [ty sel la lh ctx c snap]; simpl in *; subst. unfold patch_fields; simpl.
  rewrite bool_decide_true by done. simpl.
  split; [done|]. split; [done|]. rewrite elem_of_select_sel.
  split; [naive_solver|]. intros (_ & _ & Hin & _). simpl in Hin. apply elem_of_select_sel in Hin.
  naive_solver.
Qed.

Example select_empty_dangling_witness :
  let w1 := exec (run_op (OpSelect (One "a") true true)) w0 in
  unit_reach w1 /\ confirmed (this w1) = true /\ lastActive (this w1) = Some "a" /\
  let w2 := exec (ConfirmableSelectionUnit.select (Many []) true true) w1 in
  selection (this w2) = [] /\ lastActive (this w2) = Some "a" /\ confirmed (this w2) = true /\
  ¬ wf (this w2).
Proof.
  split; [|split; [reflexivity|split; [reflexivity|]]].
  - apply reach_step; [apply reach_new|]. simpl. split; [repeat constructor; set_solver|left; done].
  - apply select_empty_dangling; reflexivity.
Defined.

Example patch_pending_cancel_dangling_witness :
  let w2 := exec (run_op (OpSelect (One "b") true false)) (exec (run_op (OpSelect (One "a") true true)) w0) in
  unit_reach w2 /\ confirmed (this w2) = false /\ lastActive (this w2) = Some "a" /\
  "c" ∉ _confirmedSnapShot (this w2) /\
  let w4 := exec ConfirmableSelectionUnit.cancel (exec (SelectionUnit.patch "a" "c") w2) in
  confirmed (this w4) = true /\ lastActive (this w4) = Some "c" /\ "c" ∉ selection (this w4) /\
  ¬ wf (this w4).
Proof.
  assert (Hd : "c" ∉ _confirmedSnapShot (this (exec (run_op (OpSelect (One "b") true false))
                                   (exec (run_op (OpSelect (One "a") true true)) w0)))).
  { vm_compute. set_solver. }
  split; [|split; [reflexivity|split; [reflexivity|split; [exact Hd|]]]].
  - apply reach_step; [apply reach_step; [apply reach_new|]|]; simpl;
      (split; [repeat constructor; set_solver|left; done]).
  - apply patch_pending_cancel_dangling; [reflexivity|reflexivity|exact Hd].
Defined.
