(* ===== verification/MemberSpec.v ===== *)
(** * The membership specification of a unit, and its refinement

    The spec (section 4) describes a unit's selection as a set of ids with
    a transaction that saves the set when it begins and restores it on
    [cancel]. [AbsUnit] is that view: [members] is the set of selected ids
    and [saved] the set captured by a pending transaction ([None] when the
    unit is confirmed). [abs] forgets the order of [selection] and the
    pointers of a [SelectionUnit]. [abs_step] is the set-level effect the
    spec gives each method:
    - [select(X, unselectOthers)] gives [X] or [members ∪ X];
    - [unselect(X)] gives [members ∖ X];
    - [patch(s, d)] swaps [s] for [d] when [s] is selected;
    - [clear] empties the set, [confirm] drops the saved set and [cancel]
      brings it back;
    - [hover] and [setContext] leave membership alone;
    and [select]/[unselect] first run the transaction rule [abs_begin] of
    [_checkConfirm].

    [abs_run_op] is the simulation step: on a unit with unique ids, every
    method moves [abs] exactly by [abs_step]. [abs_refines_run] lifts it
    to any sequence of calls that meet [op_pre], so the code implements
    the set-level state machine on every run from a well-formed unit. *)

From stdpp Require Import gmap.
From S2P Require Import SelPrelude JsArray Messages Units UnitInv.
Set Warnings "-clear-no-such-hyp".

Record AbsUnit := mkAbs {
  members : gset string;
  saved : option (gset string)
}.

Definition abs (u : SelectionUnit) : AbsUnit :=
  mkAbs (list_to_set (selection u))
        (if confirmed u then None else Some (list_to_set (_confirmedSnapShot u))).

(** The transaction rule: a confirming call on a pending unit commits; a
    provisional call on a confirmed unit saves the current set. *)
Definition abs_begin (cf : bool) (a : AbsUnit) : AbsUnit :=
  match saved a, cf with
  | Some _, true => mkAbs (members a) None
  | None, false => mkAbs (members a) (Some (members a))
  | _, _ => a
  end.

Definition abs_step (op : unit_op) (a : AbsUnit) : AbsUnit :=
  match op with
  | OpSelect id uo cf =>
      let a1 := abs_begin cf a in
      mkAbs ((if uo then ∅ else members a1) ∪ list_to_set (to_array id)) (saved a1)
  | OpUnselect id cf =>
      let a1 := abs_begin cf a in
      mkAbs (members a1 ∖ list_to_set (to_array id)) (saved a1)
  | OpHover _ | OpSetContext _ => a
  | OpPatch s d =>
      if bool_decide (s ∈ members a) then mkAbs ({[d]} ∪ members a ∖ {[s]}) (saved a) else a
  | OpClear => mkAbs ∅ (saved a)
  | OpConfirm => mkAbs (members a) None
  | OpCancel => match saved a with Some s => mkAbs s None | None => a end
  end.

(** A sequence of method calls, run in order. *)
Fixpoint run_ops (ops : list unit_op) : M unit :=
  match ops with
  | [] => mret ()
  | op :: ops' => run_op op;; run_ops ops'
  end.

(** Each call meets its precondition in the state the previous ones left. *)
Fixpoint ops_ok (ops : list unit_op) (w : World) : Prop :=
  match ops with
  | [] => True
  | op :: ops' => op_pre op (this w) /\ ops_ok ops' (exec (run_op op) w)
  end.

Lemma list_to_set_select_sel sel ids uo :
  list_to_set (select_sel sel ids uo) =@{gset string}
  (if uo then ∅ else list_to_set sel) ∪ list_to_set ids.
Proof.
  apply set_eq. intros x. rewrite elem_of_union, !elem_of_list_to_set, elem_of_select_sel.
  destruct uo; set_solver.
Qed.

Lemma abs_checkConfirm cf w :
  abs (this (exec (ConfirmableSelectionUnit._checkConfirm cf) w)) = abs_begin cf (abs (this w)).
Proof.
  rewrite checkConfirm_this. unfold abs, abs_begin.
  destruct (this w) as [ty sel la lh ctx [] snap], cf; reflexivity.
Qed.

Lemma abs_select id uo cf w :
  abs (this (exec (ConfirmableSelectionUnit.select id uo cf) w)) =
  abs_step (OpSelect id uo cf) (abs (this w)).
Proof.
  unfold ConfirmableSelectionUnit.select. rewrite exec_bind. fold c_act.
  simpl. rewrite <- abs_checkConfirm.
  generalize (exec (ConfirmableSelectionUnit._checkConfirm cf) w) as w1. intros w1.
  rewrite select_this. unfold abs. destruct (this w1); simpl.
  by rewrite list_to_set_select_sel.
Qed.

Lemma abs_unselect id cf w :
  NoDup (selection (this w)) ->
  abs (this (exec (ConfirmableSelectionUnit.unselect id cf) w)) =
  abs_step (OpUnselect id cf) (abs (this w)).
Proof.
  intros Hnd. unfold ConfirmableSelectionUnit.unselect. rewrite exec_bind. fold c_act.
  simpl. rewrite <- abs_checkConfirm.
  assert (Hnd1 : NoDup (selection (this (exec (ConfirmableSelectionUnit._checkConfirm cf) w)))).
  { rewrite checkConfirm_this. by destruct (this w) as [? ? ? ? ? [] ?], cf. }
  revert Hnd1. generalize (exec (ConfirmableSelectionUnit._checkConfirm cf) w) as w1. intros w1 Hnd1.
  rewrite unselect_this, unselect_res_spec by done. unfold abs. destruct (this w1); simpl in *.
  f_equal. apply set_eq. intros x.
  rewrite stdpp.base.elem_of_difference, !elem_of_list_to_set, list_elem_of_filter. naive_solver.
Qed.

Lemma abs_patch s d w :
  NoDup (selection (this w)) ->
  abs (this (exec (SelectionUnit.patch s d) w)) = abs_step (OpPatch s d) (abs (this w)).
Proof.
  intros Hnd. unfold exec. rewrite patch_run. simpl. unfold patch_fields, abs.
  destruct (this w) as [ty sel la lh ctx c snap]; simpl in *.
  destruct (index_of s sel) as [i|] eqn:Ei.
  - apply index_of_Some in Ei as Hi. rewrite bool_decide_true
      by (apply elem_of_list_to_set, list_elem_of_lookup_2 with i, Hi).
    f_equal. apply set_eq. intros x.
    rewrite elem_of_union, stdpp.base.elem_of_difference, elem_of_singleton, !elem_of_list_to_set, elem_of_insert_NoDup by done.
    set_solver.
  - apply index_of_None in Ei. rewrite bool_decide_false by (by rewrite elem_of_list_to_set). done.
Qed.

(** Every method moves [abs] by [abs_step] on a unit whose selection has
    unique ids. *)
Lemma abs_run_op op w :
  NoDup (selection (this w)) -> abs (this (exec (run_op op) w)) = abs_step op (abs (this w)).
Proof.
  intros Hnd. destruct op as [id uo cf|id cf|id|id|s d| | |]; cbn [run_op].
  - apply abs_select.
  - by apply abs_unselect.
  - unfold exec. rewrite hover_run. case_bool_decide; simpl; by destruct (this w).
  - unfold exec. rewrite setContext_run. by destruct (this w).
  - by apply abs_patch.
  - rewrite clear_this. unfold abs. by destruct (this w) as [? ? ? ? ? [] ?].
  - rewrite confirm_this. unfold abs. by destruct (this w) as [? ? ? ? ? [] ?].
  - rewrite cancel_this. unfold abs. destruct (this w) as [? ? ? ? ? [] ?]; simpl; [done|].
    rewrite list_to_set_select_sel. f_equal. set_solver.
Qed.

(** C6: On every run from a well-formed unit whose calls meet their
    preconditions, the set of selected ids and the set saved by a pending
    transaction evolve exactly as the set-level specification [abs_step]
    says: the code refines the membership state machine. *)
Theorem abs_refines_run ops w :
  wf (this w) -> ops_ok ops w ->
  abs (this (exec (run_ops ops) w)) = foldl (fun a op => abs_step op a) (abs (this w)) ops.
Proof.
  induction ops as [|op ops IH] in w |- *; simpl; intros Hwf Hok; [done|].
  destruct Hok as [Hpre Hok]. rewrite exec_bind, IH by auto using run_op_wf.
  f_equal. apply abs_run_op. by destruct Hwf.
Qed.

Example abs_refines_run_witness :
  let ops := [OpSelect (Many ["a"; "b"]) true true; OpSelect (Many ["c"]) false false;
              OpUnselect (One "a") false; OpCancel] in
  wf (this w0) /\ ops_ok ops w0 /\
  abs (this (exec (run_ops ops) w0)) = foldl (fun a op => abs_step op a) (abs (this w0)) ops.
Proof.
  assert (Hwf : wf (this w0)) by apply wf_new.
  assert (Hok : ops_ok [OpSelect (Many ["a"; "b"]) true true; OpSelect (Many ["c"]) false false;
                        OpUnselect (One "a") false; OpCancel] w0).
  { simpl. repeat split; try (left; done); try (right; right; done);
      repeat constructor; set_solver. }
  split; [exact Hwf|]. split; [exact Hok|]. exact (abs_refines_run _ w0 Hwf Hok).
Defined.
