(* ===== verification/Typing.v ===== *)
(** * Messages name their unit

    [typed_run m]: every message [m] sends carries the unit's [type], [m]
    keeps [type], and [m] leaves [_lastActiveUnit] alone or points it at
    the unit. Every unit method has this property ([typed_run_op]). It is
    what lets a facade call be read per unit: its messages are dispatched
    by [type] to the unit that sent them, and the global pointer only ever
    moves to a unit that was called. *)

From S2P Require Import SelPrelude JsArray Messages Units UnitInv.
Set Warnings "-clear-no-such-hyp".

Definition typed_run (m : M unit) : Prop :=
  forall w,
    type (this (exec m w)) = type (this w) /\
    Forall (λ x, msg_type x = type (this w)) (outbox m w) /\
    (_lastActiveUnit (exec m w) = _lastActiveUnit w \/ _lastActiveUnit (exec m w) = Some (type (this w))).

(** ** Lemmas *)

Lemma typed_bind (m1 m2 : M unit) : typed_run m1 -> typed_run m2 -> typed_run (m1;; m2).
Proof.
  intros H1 H2 w. rewrite exec_bind, outbox_bind. cbv beta.
  destruct (H1 w) as (Ht1 & Ho1 & Hg1), (H2 (exec m1 w)) as (Ht2 & Ho2 & Hg2).
  rewrite Ht2, Ht1. split; [done|]. split; [apply Forall_app; split; [done|by rewrite <-Ht1]|].
  rewrite Ht1 in Hg2. destruct Hg2 as [->| ->]; [destruct Hg1; auto|auto].
Qed.

Lemma Forall_msg_if (P : Msg -> Prop) b m : P m -> Forall P (msg_if b m).
Proof. destruct b; simpl; auto. Qed.

#[local] Hint Resolve Forall_msg_if Forall_app_2 Forall_nil_2 Forall_cons_2 : selection.

Lemma activate_typed id : typed_run (SelectionUnit._activate id).
Proof.
  intros w. unfold exec, outbox. rewrite activate_run.
  case_bool_decide; simpl; [by auto with selection|]. auto 8 with selection.
Qed.

Lemma c_act_typed id : typed_run (c_act id).
Proof.
  intros w. unfold exec, outbox. rewrite c_act_run. destruct (confirmed _); [apply activate_typed|].
  simpl. by auto with selection.
Qed.

Section typed_methods.
Context (act : option string -> M unit).
Hypothesis act_typed : forall id, typed_run (act id).

(** The continuation [act] of [select] and [unselect], run on a world
    whose unit has the caller's type. *)
Lemma act_branch_typed (b : bool) id w w1 :
  type (this w1) = type (this w) -> _lastActiveUnit w1 = _lastActiveUnit w ->
  let r := if b then act id w1 else (tt, w1, []) in
  type (this r.1.2) = type (this w) /\ Forall (λ x, msg_type x = type (this w)) r.2 /\
  (_lastActiveUnit r.1.2 = _lastActiveUnit w \/ _lastActiveUnit r.1.2 = Some (type (this w))).
Proof.
  intros Ht Hg. destruct b; simpl; [|rewrite Ht, Hg; auto with selection].
  destruct (act_typed id w1) as (Ht' & Ho & Hg'). unfold exec, outbox in *. by rewrite <-Ht, <-Hg.
Qed.

Lemma select_typed id uo : typed_run (SelectionUnit.select act id uo).
Proof.
  intros w. unfold exec, outbox. rewrite select_run. cbv zeta.
  match goal with |- context [if ?b then act ?i ?x else ?y] =>
    pose proof (act_branch_typed b i w x eq_refl eq_refl) as H; set (r := if b then act i x else y) in * end.
  clearbody r. destruct r as [[[] w2] o2]. simpl in *. destruct H as (Ht & Ho & Hg).
  rewrite Ht. repeat split; [|done]. auto 10 with selection.
Qed.

Lemma unselect_typed id : typed_run (SelectionUnit.unselect act id).
Proof.
  intros w. unfold exec, outbox. rewrite unselect_run. cbv zeta.
  destruct (unselect_res _ _ _) as [[sel' removed] flag].
  match goal with |- context [if ?b then act ?i ?x else ?y] =>
    pose proof (act_branch_typed b i w x eq_refl eq_refl) as H; set (r := if b then act i x else y) in * end.
  clearbody r. destruct r as [[[] w2] o2]. simpl in *. destruct H as (Ht & Ho & Hg).
  repeat split; [done| |done]. auto 10 with selection.
Qed.
End typed_methods.

Lemma hover_typed id : typed_run (SelectionUnit.hover id).
Proof. intros w. unfold exec, outbox. rewrite hover_run. case_bool_decide; simpl; auto 8 with selection. Qed.

Lemma setContext_typed id : typed_run (SelectionUnit.setContext id).
Proof. intros w. unfold exec, outbox. rewrite setContext_run. simpl. auto with selection. Qed.

Lemma patch_typed s d : typed_run (SelectionUnit.patch s d).
Proof. intros w. unfold exec, outbox. rewrite patch_run. simpl. auto with selection. Qed.

Lemma clear_typed : typed_run ConfirmableSelectionUnit.clear.
Proof.
  intros w. unfold exec, outbox, ConfirmableSelectionUnit.clear. rewrite clear_run. fold c_act.
  pose proof (act_branch_typed c_act c_act_typed true None w (mkWorld (set_selection [] (this w)) (_lastActiveUnit w)) eq_refl eq_refl) as H.
  simpl in H. destruct (c_act None _) as [[[] w2] o2]. simpl in *. destruct H as (Ht & Ho & Hg).
  repeat split; [done| |done]. auto 10 with selection.
Qed.

Lemma confirm_typed : typed_run ConfirmableSelectionUnit.confirm.
Proof.
  intros w. unfold exec, outbox. rewrite confirm_run. destruct (confirmed _); [simpl; auto with selection|].
  apply (activate_typed _ (mkWorld (set_confirmed true (set_snapshot [] (this w))) (_lastActiveUnit w))).
Qed.

Lemma checkConfirm_typed cf : typed_run (ConfirmableSelectionUnit._checkConfirm cf).
Proof.
  intros w. unfold exec, outbox. rewrite checkConfirm_run.
  destruct (negb _ && cf); [apply confirm_typed|]. destruct (_ && _); simpl; auto with selection.
Qed.

Lemma cancel_typed : typed_run ConfirmableSelectionUnit.cancel.
Proof.
  intros w. unfold exec, outbox. rewrite cancel_run. destruct (confirmed _); [simpl; auto with selection|].
  pose proof (select_typed c_act c_act_typed (Many (_confirmedSnapShot (this w))) true w) as H.
  unfold exec, outbox in H. destruct (SelectionUnit.select _ _ _ _) as [[[] w1] o1]. exact H.
Qed.

(** Every unit method is [typed_run]. *)
Lemma typed_run_op op : typed_run (run_op op).
Proof.
  destruct op; simpl.
  - apply typed_bind; [apply checkConfirm_typed|apply select_typed, c_act_typed].
  - apply typed_bind; [apply checkConfirm_typed|apply unselect_typed, c_act_typed].
  - apply hover_typed.
  - apply setContext_typed.
  - apply patch_typed.
  - apply clear_typed.
  - apply confirm_typed.
  - apply cancel_typed.
Qed.

