(* ===== verification/Transaction.v ===== *)
(** * The transaction protocol of [ConfirmableSelectionUnit]

    A drag-box gesture calls [select(ids, true, false)] repeatedly. That
    starts a transaction: [_checkConfirm] snapshots the selection and
    clears [confirmed]. The gesture then ends in [confirm] or [cancel]
    (lines 234-274). The theorems here are the laws of section 8 of the spec,
    stated as the code behaves:
    - [pending_suppresses_activation]: during a transaction [select] and
      [unselect] never emit [activated] or [deactivated] and keep
      [lastActive];
    - [cancel_roundtrip]: [cancel] restores the pre-transaction membership
      (a permutation of the old selection) and focus, with no activation
      event;
    - [confirm_commit]: [confirm] keeps the provisional selection and emits
      exactly one [activated] when the last id of the selection differs
      from the old focus.
    [cancel_order_differs] gives the order [cancel] leaves on every
    pending unit: the surviving ids in their current order, then the
    snapshot ids that were dropped, so the pre-transaction order is not
    restored. [confirm_activates_selection_tail] is a concrete run where
    [confirm] activates an id other than the last one requested. *)

From S2P Require Import SelPrelude JsArray Messages Units UnitInv.
Set Warnings "-clear-no-such-hyp".

Definition quiet (m : Msg) : Prop := is_activated m = false /\ is_deactivated m = false.
Definition count_activated (o : list Msg) : nat := length (filter (λ m, is_activated m = true) o).

Lemma msg_if_quiet b m : quiet m -> Forall quiet (msg_if b m).
Proof. intros. destruct b; simpl; auto. Qed.

Lemma c_act_pending id w : confirmed (this w) = false -> c_act id w = (tt, w, []).
Proof. intros Hc. by rewrite c_act_run, Hc. Qed.

Lemma select_pending id uo w :
  confirmed (this w) = false ->
  lastActive (this (exec (SelectionUnit.select c_act id uo) w)) = lastActive (this w) /\
  Forall quiet (outbox (SelectionUnit.select c_act id uo) w).
Proof.
  intros Hc. split; [rewrite select_this, Hc; by destruct (this w)|].
  unfold outbox. rewrite select_run. simpl.
  destruct (bool_decide (0 < length (to_array id))); [rewrite c_act_pending by (destruct (this w); done)|];
    simpl; repeat apply Forall_app_2; try apply msg_if_quiet; try done; constructor.
Qed.

Lemma unselect_pending id w :
  confirmed (this w) = false ->
  lastActive (this (exec (SelectionUnit.unselect c_act id) w)) = lastActive (this w) /\
  Forall quiet (outbox (SelectionUnit.unselect c_act id) w).
Proof.
  intros Hc. split.
  - rewrite unselect_this. destruct (unselect_res _ _ _) as [[sel' r] f]. rewrite Hc, andb_false_r.
    by destruct (this w).
  - unfold outbox. rewrite unselect_run. simpl. destruct (unselect_res _ _ _) as [[sel' r] f].
    destruct f; [rewrite c_act_pending by (destruct (this w); done)|];
      simpl; repeat apply Forall_app_2; try apply msg_if_quiet; try done; constructor.
Qed.

Lemma checkConfirm_begin w :
  confirmed (this w) = true ->
  ConfirmableSelectionUnit._checkConfirm false w =
  (tt, mkWorld (set_confirmed false (set_snapshot (selection (this w)) (this w))) (_lastActiveUnit w), []).
Proof. intros Hc. by rewrite checkConfirm_run, Hc. Qed.

Lemma checkConfirm_same cf w :
  confirmed (this w) = cf -> ConfirmableSelectionUnit._checkConfirm cf w = (tt, w, []).
Proof. intros <-. rewrite checkConfirm_run. by destruct (confirmed (this w)). Qed.

Lemma cancel_outbox_quiet w : Forall quiet (outbox ConfirmableSelectionUnit.cancel w).
Proof.
  unfold outbox. rewrite cancel_run. destruct (confirmed (this w)) eqn:Hc; [constructor|].
  destruct (select_pending (Many (_confirmedSnapShot (this w))) true w Hc) as [_ Hq].
  unfold outbox in Hq. destruct (SelectionUnit.select _ _ _ _) as [[[] w1] o1]. done.
Qed.

(** C7: While a transaction is pending, select and unselect with confirm=false never change lastActive nor emit activation events. *)
Theorem pending_suppresses_activation id uo w :
  confirmed (this w) = false ->
  (lastActive (this (exec (ConfirmableSelectionUnit.select id uo false) w)) = lastActive (this w) /\
   confirmed (this (exec (ConfirmableSelectionUnit.select id uo false) w)) = false /\
   Forall quiet (outbox (ConfirmableSelectionUnit.select id uo false) w)) /\
  (lastActive (this (exec (ConfirmableSelectionUnit.unselect id false) w)) = lastActive (this w) /\
   confirmed (this (exec (ConfirmableSelectionUnit.unselect id false) w)) = false /\
   Forall quiet (outbox (ConfirmableSelectionUnit.unselect id false) w)).
Proof.
  intros Hc.
  assert (Hx : exec (ConfirmableSelectionUnit._checkConfirm false) w = w)
    by (unfold exec; by rewrite checkConfirm_same).
  assert (Ho : outbox (ConfirmableSelectionUnit._checkConfirm false) w = [])
    by (unfold outbox; by rewrite checkConfirm_same).
  unfold ConfirmableSelectionUnit.select, ConfirmableSelectionUnit.unselect.
  rewrite !exec_bind, !outbox_bind. cbv beta. rewrite Hx, Ho. fold c_act.
  destruct (select_pending id uo w Hc) as [Hs1 Hs2], (unselect_pending id w Hc) as [Hu1 Hu2].
  rewrite Hs1, Hu1. repeat split; try done.
  - rewrite select_this, Hc. by destruct (this w).
  - rewrite unselect_this. destruct (unselect_res _ _ _) as [[??]?]. by destruct (this w).
Qed.

(** Beginning a transaction with [select(X, true, false)] on a confirmed
    unit: the snapshot is the old selection, activation is unchanged. *)
Lemma begin_select X w :
  confirmed (this w) = true ->
  this (exec (ConfirmableSelectionUnit.select X true false) w) =
  set_confirmed false (set_snapshot (selection (this w))
    (set_selection (select_sel (selection (this w)) (to_array X) true) (this w))) /\
  Forall quiet (outbox (ConfirmableSelectionUnit.select X true false) w).
Proof.
  intros Hc. set (w1 := mkWorld (set_confirmed false (set_snapshot (selection (this w)) (this w))) (_lastActiveUnit w)).
  assert (Hx : exec (ConfirmableSelectionUnit._checkConfirm false) w = w1)
    by (unfold exec; by rewrite checkConfirm_begin).
  assert (Ho : outbox (ConfirmableSelectionUnit._checkConfirm false) w = [])
    by (unfold outbox; by rewrite checkConfirm_begin).
  unfold ConfirmableSelectionUnit.select.
  rewrite exec_bind, outbox_bind. cbv beta. rewrite Hx, Ho. fold c_act.
  assert (Hc1 : confirmed (this w1) = false) by (subst w1; by destruct (this w)).
  destruct (select_pending X true w1 Hc1) as [_ Hq]. split; [|done].
  rewrite select_this, Hc1. subst w1. by destruct (this w).
Qed.

(** C8: Select(X, true, false) followed by cancel restores the old membership and focus and emits no activated or deactivated event. *)
Theorem cancel_roundtrip X w :
  wf (this w) -> confirmed (this w) = true -> NoDup (to_array X) ->
  let w1 := exec (ConfirmableSelectionUnit.select X true false) w in
  let w2 := exec ConfirmableSelectionUnit.cancel w1 in
  selection (this w2) ≡ₚ selection (this w) /\
  lastActive (this w2) = lastActive (this w) /\
  confirmed (this w2) = true /\ _confirmedSnapShot (this w2) = [] /\
  Forall quiet (outbox (ConfirmableSelectionUnit.select X true false) w ++
                outbox ConfirmableSelectionUnit.cancel w1).
Proof.
  intros Hwf Hc HX w1 w2. destruct (begin_select X w Hc) as [Hw1 Hq].
  subst w2. rewrite cancel_this. fold w1 in Hw1, Hq. rewrite Hw1. simpl.
  destruct Hwf as (Hs & _). repeat split.
  - apply NoDup_Permutation; [by repeat apply NoDup_select_sel|done|].
    intros x. rewrite elem_of_select_sel. naive_solver.
  - apply Forall_app_2; [done|apply cancel_outbox_quiet].
Qed.

Lemma count_activated_quiet o : Forall quiet o -> count_activated o = 0.
Proof.
  unfold count_activated. induction 1 as [|m o [Ha _] _ IH]; [done|].
  rewrite filter_cons, decide_False by congruence. done.
Qed.

Lemma count_activated_app o1 o2 : count_activated (o1 ++ o2) = count_activated o1 + count_activated o2.
Proof. unfold count_activated. by rewrite filter_app, length_app. Qed.

(** C9: Select(X, true, false) followed by confirm leaves the members of X selected and emits exactly one activated event iff the last selected id differs from the old focus. *)
Theorem confirm_commit X w :
  confirmed (this w) = true ->
  let w1 := exec (ConfirmableSelectionUnit.select X true false) w in
  let w2 := exec ConfirmableSelectionUnit.confirm w1 in
  (forall x, x ∈ selection (this w2) <-> x ∈ to_array X) /\
  selection (this w2) = selection (this w1) /\
  confirmed (this w2) = true /\ _confirmedSnapShot (this w2) = [] /\
  lastActive (this w2) = last_or_null (selection (this w1)) /\
  count_activated (outbox (ConfirmableSelectionUnit.select X true false) w ++
                   outbox ConfirmableSelectionUnit.confirm w1) =
    (if bool_decide (last_or_null (selection (this w1)) = lastActive (this w)) then 0 else 1).
Proof.
  intros Hc w1 w2. destruct (begin_select X w Hc) as [Hw1 Hq]. fold w1 in Hw1, Hq.
  rewrite count_activated_app, count_activated_quiet by done. simpl.
  subst w2. rewrite confirm_this. unfold outbox. rewrite confirm_run. rewrite Hw1. simpl.
  repeat split.
  - intros Hx. apply elem_of_select_sel in Hx. naive_solver.
  - intros Hx. apply elem_of_select_sel. by left.
  - rewrite activate_run. simpl.
    destruct (this w) as [ty sel la lh ctx c snap]; simpl.
    case_bool_decide as He; case_bool_decide as He'; simpl; subst; try done.
    unfold count_activated, msg_if. destruct (truthy la); simpl; by rewrite ?filter_cons, ?decide_True.
Qed.

(** C29: cancel re-selects the snapshot with select(snapshot, true): on
    every pending unit with unique ids it keeps the surviving ids in their
    current order and appends the snapshot ids that are no longer selected,
    in snapshot order, so the pre-transaction order is not restored. *)
Theorem cancel_order_differs w :
  confirmed (this w) = false -> NoDup (selection (this w)) ->
  selection (this (exec ConfirmableSelectionUnit.cancel w)) =
  filter (λ x, x ∈ _confirmedSnapShot (this w)) (selection (this w)) ++
  filter (λ x, x ∉ selection (this w)) (_confirmedSnapShot (this w)).
Proof.
  intros Hc Hnd. rewrite cancel_this, Hc. simpl. unfold select_sel, uo_sel. simpl.
  rewrite !difference_filter. case_bool_decide as Hl.
  - rewrite intersection_filter by done. f_equal. apply filter_ext_elem.
    intros x Hx. rewrite list_elem_of_filter. naive_solver.
  - assert (Hall : forall x, x ∈ selection (this w) -> x ∈ _confirmedSnapShot (this w)).
    { intros x Hx. destruct (decide (x ∈ _confirmedSnapShot (this w))) as [|Hn]; [done|].
      exfalso. apply Hl.
      assert (Hf : x ∈ filter (λ x, x ∉ _confirmedSnapShot (this w)) (selection (this w)))
        by (by apply list_elem_of_filter).
      destruct (filter _ _); [set_solver|simpl; lia]. }
    by rewrite (filter_all (λ x, x ∈ _confirmedSnapShot (this w)) (selection (this w)) Hall).
Qed.

(** Confirm activates the last id of the resulting selection, not the last id of the request, unlike a confirmed select. *)
Lemma confirm_activates_selection_tail :
  let w1 := exec (ConfirmableSelectionUnit.select (Many ["a"; "b"]) true true) w0 in
  let w2 := exec (ConfirmableSelectionUnit.select (Many ["b"; "a"]) true false) w1 in
  lastActive (this w1) = Some "b" /\
  lastActive (this (exec ConfirmableSelectionUnit.confirm w2)) = Some "b" /\
  count_activated (outbox ConfirmableSelectionUnit.confirm w2) = 0 /\
  lastActive (this (exec (ConfirmableSelectionUnit.select (Many ["b"; "a"]) true true) w1)) = Some "a".
Proof. vm_compute. done. Qed.

(** ** Witnesses *)

Lemma w_ab_reach :
  unit_reach (exec (run_op (OpSelect (Many ["a"; "b"]) true true)) w0).
Proof.
  apply reach_step; [apply reach_new|]. simpl. split; [|left; done].
  repeat constructor; set_solver.
Qed.

Lemma cancel_roundtrip_witness :
  let w1 := exec (ConfirmableSelectionUnit.select (Many ["a"; "b"]) true true) w0 in
  wf (this w1) /\ confirmed (this w1) = true /\ NoDup (to_array (Many ["c"; "a"])) /\
  (let w2 := exec (ConfirmableSelectionUnit.select (Many ["c"; "a"]) true false) w1 in
   let w3 := exec ConfirmableSelectionUnit.cancel w2 in
   selection (this w3) ≡ₚ selection (this w1) /\
   lastActive (this w3) = lastActive (this w1) /\
   confirmed (this w3) = true /\ _confirmedSnapShot (this w3) = [] /\
   Forall quiet (outbox (ConfirmableSelectionUnit.select (Many ["c"; "a"]) true false) w1 ++
                 outbox ConfirmableSelectionUnit.cancel w2)).
Proof.
  cbv zeta.
  assert (Hwf : wf (this (exec (ConfirmableSelectionUnit.select (Many ["a"; "b"]) true true) w0)))
    by exact (wf_reach _ w_ab_reach).
  assert (Hc : confirmed (this (exec (ConfirmableSelectionUnit.select (Many ["a"; "b"]) true true) w0)) = true)
    by reflexivity.
  assert (Hn : NoDup (to_array (Many ["c"; "a"]))) by (simpl; repeat constructor; set_solver).
  split; [done|split; [done|split; [done|]]].
  exact (cancel_roundtrip (Many ["c"; "a"]) _ Hwf Hc Hn).
Defined.

Lemma confirm_commit_witness :
  let w1 := exec (ConfirmableSelectionUnit.select (Many ["a"; "b"]) true true) w0 in
  confirmed (this w1) = true /\
  (let w2 := exec (ConfirmableSelectionUnit.select (Many ["c"; "a"]) true false) w1 in
   let w3 := exec ConfirmableSelectionUnit.confirm w2 in
   (forall x, x ∈ selection (this w3) <-> x ∈ to_array (Many ["c"; "a"])) /\
   selection (this w3) = selection (this w2) /\
   confirmed (this w3) = true /\ _confirmedSnapShot (this w3) = [] /\
   lastActive (this w3) = last_or_null (selection (this w2)) /\
   count_activated (outbox (ConfirmableSelectionUnit.select (Many ["c"; "a"]) true false) w1 ++
                    outbox ConfirmableSelectionUnit.confirm w2) =
     (if bool_decide (last_or_null (selection (this w2)) = lastActive (this w1)) then 0 else 1)).
Proof.
  cbv zeta. split; [reflexivity|]. apply (confirm_commit (Many ["c"; "a"])). reflexivity.
Defined.

Lemma pending_suppresses_activation_witness :
  let w2 := exec (ConfirmableSelectionUnit.select (Many ["c"]) true false)
              (exec (ConfirmableSelectionUnit.select (Many ["a"; "b"]) true true) w0) in
  confirmed (this w2) = false /\
  ((lastActive (this (exec (ConfirmableSelectionUnit.select (One "b") false false) w2)) = lastActive (this w2) /\
    confirmed (this (exec (ConfirmableSelectionUnit.select (One "b") false false) w2)) = false /\
    Forall quiet (outbox (ConfirmableSelectionUnit.select (One "b") false false) w2)) /\
   (lastActive (this (exec (ConfirmableSelectionUnit.unselect (One "b") false) w2)) = lastActive (this w2) /\
    confirmed (this (exec (ConfirmableSelectionUnit.unselect (One "b") false) w2)) = false /\
    Forall quiet (outbox (ConfirmableSelectionUnit.unselect (One "b") false) w2))).
Proof.
  cbv zeta. split; [reflexivity|]. apply (pending_suppresses_activation (One "b") false). reflexivity.
Defined.

Example cancel_order_differs_witness :
  let w2 := exec (ConfirmableSelectionUnit.select (One "b") true false)
              (exec (ConfirmableSelectionUnit.select (Many ["a"; "b"]) true true) w0) in
  _confirmedSnapShot (this w2) = ["a"; "b"] /\ confirmed (this w2) = false /\
  NoDup (selection (this w2)) /\
  selection (this (exec ConfirmableSelectionUnit.cancel w2)) = ["b"; "a"].
Proof.
  intros w2. assert (Hc : confirmed (this w2) = false) by reflexivity.
  assert (Hnd : NoDup (selection (this w2))) by (vm_compute; repeat constructor; set_solver).
  split; [reflexivity|]. split; [exact Hc|]. split; [exact Hnd|].
  rewrite (cancel_order_differs w2 Hc Hnd). vm_compute. reflexivity.
Defined.
