(* ===== verification/Filter.v ===== *)
(** * [Selection.filter]: the hierarchy-aware reduction of an id list

    [filter(items, mode, func)] (lines 516-555) has two modes. In mode
    ['name'] it is [items.filter(func)]. In every other mode (['top-level'],
    ['deep'], or any other string) it scans [items] and keeps a list
    [results]. An item is dropped when it is already in [results] or some
    result dominates it ([func(addedItem, item) > 0]). Results that the item
    dominates are spliced out ([func(addedItem, item) < 0]).

    The JavaScript [func] is called in two shapes, so it appears here as
    [func_test] (the one-argument predicate of mode ['name']) and [func]
    (the two-argument comparator). The inner [for] loop with its [splice]
    and [--j] is [filter_scan]; the outer loop is [filter_loop].

    In section [hierarchy] the comparator is assumed to be a strict partial
    order: [func a b > 0] iff [func b a < 0], and dominance is transitive.
    [filter_maximal] then shows that the result is duplicate-free and is
    exactly the set of maximal items, and that every item is in the result
    or dominated by a member. The proof keeps the invariant [filter_inv]
    over the processed prefix. [filter_scan_spec] gives the closed form of
    one scan over an antichain.

    [filter_scan_js] and [filter_loop_js] are the same loops written as
    the code writes them, with the index [j], [results.splice(j, 1)] and
    [--j]. The inner loop takes fuel. [filter_scan_js_terminates] proves
    that [length results - j + 1] rounds are enough, and
    [filter_js_equiv] proves that the indexed version computes [filter]. *)

From Stdlib Require Import ZArith.
From S2P Require Import SelPrelude JsArray.
Set Warnings "-clear-no-such-hyp".
Open Scope Z_scope.

(** The inner [for] loop over [results]: [kept] are the results already
  passed. *)
Fixpoint filter_scan (func : string -> string -> Z) (item : string) (rs kept : list string)
  : list string * bool :=
match rs with
| [] => (kept, true)
| addedItem :: rs' =>
    if item === addedItem then (kept ++ rs, false)
    else
      let cmp := func addedItem item in
      if bool_decide (cmp > 0) then (kept ++ rs, false)
      else if bool_decide (cmp < 0) then filter_scan func item rs' kept
      else filter_scan func item rs' (kept ++ [addedItem])
end.

Fixpoint filter_loop (func : string -> string -> Z) (items results : list string) : list string :=
match items with
| [] => results
| item :: items' =>
    let '(results', add) := filter_scan func item results [] in
    filter_loop func items' (if add then results' ++ [item] else results')
end.

Definition filter (items : list string) (mode : string) (func_test : string -> bool)
  (func : string -> string -> Z) : list string :=
if mode === "name" then List.filter func_test items
else filter_loop func items [].

(** The inner loop as the code writes it, over the index [j]: [results[j]]
  is [results !! j], [results.splice(j, 1); --j] followed by [++j] leaves
  [j] unchanged. The loop runs at most [length results - j + 1] rounds;
  [fuel] bounds them. *)
Fixpoint filter_scan_js (fuel : nat) (func : string -> string -> Z) (item : string)
    (results : list string) (j : nat) : option (list string * bool) :=
match fuel with
| O => None
| S fuel' =>
    match results !! j with
    | None => Some (results, true)
    | Some addedItem =>
        if item === addedItem then Some (results, false)
        else
          let cmp := func addedItem item in
          if bool_decide (cmp > 0) then Some (results, false)
          else if bool_decide (cmp < 0) then filter_scan_js fuel' func item (delete j results) j
          else filter_scan_js fuel' func item results (S j)
    end
end.

(** The outer loop with the indexed inner loop, given one round more than
  the length of [results]. *)
Fixpoint filter_loop_js (func : string -> string -> Z) (items results : list string) : list string :=
match items with
| [] => results
| item :: items' =>
    match filter_scan_js (S (length results)) func item results 0 with
    | Some (results', add) => filter_loop_js func items' (if add then results' ++ [item] else results')
    | None => results
    end
end.

(** [Selection.filter] over the indexed loops. *)
Definition filter_js (items : list string) (mode : string) (func_test : string -> bool)
  (func : string -> string -> Z) : list string :=
if mode === "name" then List.filter func_test items
else filter_loop_js func items [].

(** The ancestor comparator of the spec's example: [a] dominates [b] when
  [b] lies under the directory [a]. *)
Definition ancestor_cmp (a b : string) : Z :=
if String.prefix (a +:+ "/") b then 1
else if String.prefix (b +:+ "/") a then -1 else 0.

(** A comparator by length: shorter ids dominate longer ones. *)
Definition length_cmp (a b : string) : Z :=
Z.of_nat (String.length b) - Z.of_nat (String.length a).

Section hierarchy.
Context (func : string -> string -> Z).
Hypothesis func_antisym : forall a b, 0 < func a b <-> func b a < 0.
Hypothesis func_trans : forall a b c, 0 < func a b -> 0 < func b c -> 0 < func a c.

Definition dom (a b : string) : Prop := 0 < func a b.
#[local] Instance dom_dec a b : Decision (dom a b).
Proof. unfold dom. apply _. Defined.

Definition antichain (rs : list string) : Prop :=
  forall a b, a ∈ rs -> b ∈ rs -> ~ dom a b.

Definition filter_inv (rs seen : list string) : Prop :=
  NoDup rs /\ (forall x, x ∈ rs -> x ∈ seen) /\
  (forall r y, r ∈ rs -> y ∈ seen -> ~ dom y r) /\
  (forall y, y ∈ seen -> y ∈ rs \/ exists r, r ∈ rs /\ dom r y).

Lemma dom_irrefl a : ~ dom a a.
Proof. unfold dom. intros H. pose proof (proj1 (func_antisym a a) H). lia. Qed.

Lemma dom_asym a b : dom a b -> ~ dom b a.
Proof. unfold dom. intros H1 H2. apply func_antisym in H1. lia. Qed.

Lemma dom_lt a b : dom a b <-> func b a < 0.
Proof. apply func_antisym. Qed.

Lemma filter_scan_spec item rs kept :
  antichain rs ->
  filter_scan func item rs kept =
  if decide (item ∈ rs \/ Exists (λ r, dom r item) rs) then (kept ++ rs, false)
  else (kept ++ List.filter (λ r, negb (bool_decide (dom item r))) rs, true).
Proof.
  revert kept. induction rs as [|r rs IH]; intros kept Hac; cbn [filter_scan].
  - case_decide as Hc; [|by rewrite app_nil_r]. exfalso.
    destruct Hc as [Hin|Hex]; [set_solver|by apply Exists_nil in Hex].
  - assert (Hac' : antichain rs) by (intros a b ??; apply Hac; set_solver).
    case_bool_decide as He; [subst; rewrite decide_True by set_solver; done|].
    case_bool_decide as Hgt; [rewrite decide_True by (right; constructor; unfold dom; lia); done|].
    case_bool_decide as Hlt.
    + rewrite IH by done. apply dom_lt in Hlt.
      rewrite !decide_False; [simpl; rewrite bool_decide_eq_true_2 by done; done| |].
      * intros [Hin|Hex]; [apply (Hac item r); set_solver|].
        apply Exists_exists in Hex as (r' & Hr' & Hd). apply (Hac r' r); [set_solver|set_solver|].
        unfold dom in *. eauto.
      * intros [Hin|Hex]; [apply (Hac item r); set_solver|]. apply Exists_exists in Hex as (r' & Hr' & Hd).
        apply (Hac r' r); [set_solver|set_solver|]. unfold dom in *. eauto.
    + rewrite IH by done. assert (Hnd : ~ dom item r) by (rewrite dom_lt; lia).
      simpl. rewrite (bool_decide_eq_false_2 (dom item r)) by done. simpl.
      destruct (decide (item ∈ rs \/ Exists (λ r0, dom r0 item) rs)) as [Hc|Hc].
      * rewrite decide_True by (destruct Hc; [left; set_solver|right; by constructor]).
        by rewrite <-app_assoc.
      * rewrite decide_False; [by rewrite <-app_assoc|].
        intros [Hin|Hex]; [apply elem_of_cons in Hin as [->|?]; [done|naive_solver]|].
        apply Exists_cons in Hex as [Hd|?]; [unfold dom in Hd; lia|naive_solver].
Qed.
Lemma filter_inv_antichain rs seen : filter_inv rs seen -> antichain rs.
Proof. intros (_ & Hsub & Hmax & _) a b Ha Hb. apply Hmax; auto. Qed.

Lemma dom_trans a b c : dom a b -> dom b c -> dom a c.
Proof. apply func_trans. Qed.

Lemma filter_inv_step rs seen item :
  filter_inv rs seen ->
  let '(rs', add) := filter_scan func item rs [] in
  filter_inv (if add then rs' ++ [item] else rs') (seen ++ [item]).
Proof.
  intros Hinv. pose proof (filter_inv_antichain _ _ Hinv) as Hac.
  destruct Hinv as (Hnd & Hsub & Hmax & Hcov).
  rewrite filter_scan_spec by done. simpl. case_decide as Hc.
  - repeat split; [done|set_solver| |].
    + intros r y Hr Hy. apply elem_of_app in Hy as [Hy|Hy%list_elem_of_singleton]; [by apply Hmax|subst y].
      intros Hd. destruct Hc as [Hin|Hex]; [by apply (Hac item r)|].
      apply Exists_exists in Hex as (r' & Hr' & Hd'). apply (Hac r' r); [done|done|]. by eapply dom_trans.
    + intros y Hy. apply elem_of_app in Hy as [Hy|Hy%list_elem_of_singleton]; [by apply Hcov|subst y].
      destruct Hc as [Hin|Hex]; [by left|]. apply Exists_exists in Hex. right. naive_solver.
  - assert (Hnin : item ∉ rs) by naive_solver.
    assert (Hnd' : forall r, r ∈ rs -> ~ dom r item).
    { intros r Hr Hd. apply Hc. right. apply Exists_exists. eauto. }
    assert (Hf : forall x, x ∈ List.filter (λ r, negb (bool_decide (dom item r))) rs <-> x ∈ rs /\ ~ dom item x).
    { intros x. rewrite list_elem_of_In, filter_In, <-list_elem_of_In, negb_true_iff, bool_decide_eq_false. done. }
    repeat split.
    + apply NoDup_app_single; [by apply NoDup_ListNoDup, List.NoDup_filter, NoDup_ListNoDup|]. rewrite Hf. naive_solver.
    + intros x Hx. apply elem_of_app in Hx as [Hx|Hx]; [apply Hf in Hx; set_solver|set_solver].
    + intros r y Hr Hy. apply elem_of_app in Hr as [Hr|Hr%list_elem_of_singleton];
        apply elem_of_app in Hy as [Hy|Hy%list_elem_of_singleton]; try subst.
      * apply Hf in Hr as [Hr _]. by apply Hmax.
      * apply Hf in Hr as [_ Hr]. done.
      * intros Hd. destruct (Hcov y Hy) as [Hy'|(r' & Hr' & Hd')]; [by apply (Hnd' y)|].
        apply (Hnd' r' Hr'). by eapply dom_trans.
      * apply dom_irrefl.
    + intros y Hy. apply elem_of_app in Hy as [Hy|Hy%list_elem_of_singleton]; [|subst; left; set_solver].
      destruct (Hcov y Hy) as [Hy'|(r & Hr & Hd)].
      * destruct (decide (dom item y)); [right; exists item; set_solver|left; apply elem_of_app; left; by apply Hf].
      * destruct (decide (dom item r)).
        -- right. exists item. split; [set_solver|]. by eapply dom_trans.
        -- right. exists r. split; [apply elem_of_app; left; by apply Hf|done].
Qed.

Lemma filter_loop_inv items rs seen :
  filter_inv rs seen -> filter_inv (filter_loop func items rs) (seen ++ items).
Proof.
  revert rs seen. induction items as [|item items IH]; intros rs seen Hinv; simpl.
  - by rewrite app_nil_r.
  - pose proof (filter_inv_step rs seen item Hinv) as Hs.
    destruct (filter_scan func item rs []) as [rs' add].
    replace (seen ++ item :: items) with ((seen ++ [item]) ++ items) by by rewrite <-app_assoc.
    by apply IH.
Qed.

(** C11: For a mode other than 'name' and an antisymmetric, transitive comparator, filter returns without duplicates exactly the items no other item dominates, and every item is kept or dominated by a kept one. *)
Theorem filter_maximal items mode func_test :
  mode <> "name" ->
  let out := filter items mode func_test func in
  NoDup out /\
  (forall x, x ∈ out <-> x ∈ items /\ forall y, y ∈ items -> ~ dom y x) /\
  (forall y, y ∈ items -> y ∈ out \/ exists r, r ∈ out /\ dom r y).
Proof.
  intros Hm out. unfold out, filter. rewrite bool_decide_eq_false_2 by done.
  assert (Hi : filter_inv [] []) by (repeat split; [apply NoDup_nil_2|set_solver..]).
  destruct (filter_loop_inv items [] [] Hi) as (Hnd & Hsub & Hmax & Hcov). simpl in *.
  split; [done|split; [|done]]. intros x. split.
  - intros Hx. split; [by apply Hsub|]. intros y Hy. by apply Hmax.
  - intros [Hx Hm']. destruct (Hcov x Hx) as [|(r & Hr & Hd)]; [done|].
    exfalso. apply (Hm' r); [by apply Hsub|done].
Qed.
End hierarchy.

Example filter_top_level_example :
filter ["/a"; "/a/b"; "/c"] "top-level" (λ _, true) ancestor_cmp = ["/a"; "/c"].
Proof. vm_compute. reflexivity. Qed.

Example filter_name_example :
filter ["/a"; "/b"] "name" (λ x, negb (String.eqb x "/b")) ancestor_cmp = ["/a"].
Proof. vm_compute. reflexivity. Qed.

Lemma filter_maximal_witness :
(forall a b, 0 < length_cmp a b <-> length_cmp b a < 0) /\
(forall a b c, 0 < length_cmp a b -> 0 < length_cmp b c -> 0 < length_cmp a c) /\
"deep" <> "name" /\
(let out := filter ["ab"; "a"; "abc"; "b"; "a"] "deep" (λ _, true) length_cmp in
 NoDup out /\
 (forall x, x ∈ out <-> x ∈ ["ab"; "a"; "abc"; "b"; "a"] /\
    forall y, y ∈ ["ab"; "a"; "abc"; "b"; "a"] -> ~ dom length_cmp y x) /\
 (forall y, y ∈ ["ab"; "a"; "abc"; "b"; "a"] -> y ∈ out \/ exists r, r ∈ out /\ dom length_cmp r y)).
Proof.
assert (Ha : forall a b, 0 < length_cmp a b <-> length_cmp b a < 0) by (intros; unfold length_cmp; lia).
assert (Ht : forall a b c, 0 < length_cmp a b -> 0 < length_cmp b c -> 0 < length_cmp a c)
  by (intros ???; unfold length_cmp; lia).
assert (Hm : "deep" <> "name") by done.
split; [done|split; [done|split; [done|]]].
exact (filter_maximal length_cmp Ha Ht _ _ _ Hm).
Defined.

(** One run of the indexed loop from [j] is the structural scan of the
  results after [j], the ones before it passed. *)
Lemma filter_scan_js_spec fuel func item results j :
  (length results - j < fuel)%nat ->
  filter_scan_js fuel func item results j = Some (filter_scan func item (drop j results) (take j results)).
Proof.
  revert results j. induction fuel as [|fuel IH]; intros results j Hf; [lia|]. simpl.
  destruct (results !! j) as [a|] eqn:Ha.
  - rewrite (drop_S _ a) by done. simpl.
    pose proof (lookup_lt_Some _ _ _ Ha) as Hlt.
    case_bool_decide; [by rewrite <-(take_drop j results), (drop_S _ a) at 1|].
    case_bool_decide; [by rewrite <-(take_drop j results), (drop_S _ a) at 1|].
    case_bool_decide.
    + rewrite IH by (rewrite length_delete by eauto; lia).
      by rewrite delete_take_drop, take_app_length', drop_app_length' by (rewrite length_take; lia).
    + rewrite IH by lia. by rewrite (take_S_r _ _ a).
  - apply lookup_ge_None in Ha. by rewrite drop_ge, take_ge by done.
Qed.

(** C20: The indexed inner loop returns within [length results - j + 1]
  rounds: each round either returns, splices one result out, or moves
  [j] up. *)
Lemma filter_scan_js_terminates fuel func item results j :
  (length results - j < fuel)%nat -> is_Some (filter_scan_js fuel func item results j).
Proof. intros Hf. rewrite filter_scan_js_spec by done. exact (ex_intro _ _ eq_refl). Qed.

Lemma filter_loop_js_spec func items results :
  filter_loop_js func items results = filter_loop func items results.
Proof.
  revert results. induction items as [|item items IH]; intros results; [done|].
  cbn [filter_loop_js filter_loop]. rewrite filter_scan_js_spec by lia.
  rewrite drop_0, take_0. destruct (filter_scan _ _ _ _) as [rs' add]. apply IH.
Qed.

(** C12: The indexed loops compute the same result as [filter_loop]. *)
Theorem filter_js_equiv items mode func_test func :
  filter_js items mode func_test func = filter items mode func_test func.
Proof. unfold filter_js, filter. case_bool_decide; [done|]. apply filter_loop_js_spec. Qed.

Example filter_scan_js_terminates_witness :
  (length ["/a"; "/b"] - 0 < 3)%nat /\ is_Some (filter_scan_js 3 ancestor_cmp "/a/c" ["/a"; "/b"] 0).
Proof. split; [simpl; lia|]. apply filter_scan_js_terminates. simpl. lia. Defined.
