(* ===== verification/Registry.v ===== *)
(** * The [Selection] facade and the process registry

    [Registry] is the process-wide state of [selection.js]: [_units], the
    object that maps each registered type to its unit (line 8), and
    [_lastActiveUnit] (line 7), stored as a type. A JavaScript object
    enumerates its string keys in insertion order, which [Selection.confirm]
    and [Selection.cancel] ([for (var p in _units)]) expose, so [_units] is
    an association list in insertion order. [_units[type]] also finds the
    members of [Object.prototype] ([lookup_unit] returns [Inherited]): a
    call on such a type throws a [TypeError], modelled as [Crash].

    Module [Selection] has one definition per facade method (lines
    276-508). Each returns an [Outcome]: [Done] with the new registry and
    the messages sent, [Failed] with the error it logs (and no state
    change), or [Crash]. [run_unit] runs a unit method of [Units] on the
    registered unit and writes it back.

    The theorems: the error paths ([facade_unregistered],
    [facade_bad_argument]), [facade_clear] (the unit is empty, unfocused
    and confirmed whatever its state), [register_idempotent] (a
    registered type is left as it is, whatever its unit's state),
    [facade_select_global] (after a confirming [select] the global active
    pointer names the unit), and the duplicated [activated] broadcast
    ([facade_select_double_activated]) and the [Object.prototype] keys
    ([inherited_key_crash]: register is a no-op and select and clear
    throw on every such key). [facade_op] lists the facade's mutators and
    [run_facade] runs one. [RegistryInv] and [Replication] state their
    theorems over every call. *)

From S2P Require Import SelPrelude JsArray Messages Units UnitInv Transaction.
Set Warnings "-clear-no-such-hyp".

(** The process-wide state: [_units] in insertion order and [_lastActiveUnit]. *)
Record Registry := mkRegistry {
  _units : list (string * SelectionUnit);
  lastActiveUnit : option string
}.

(** The names [_units[type]] finds on [Object.prototype] when [type] is not
    an own key (ES5, plus the legacy accessors Electron's V8 has). *)
Definition object_prototype_keys : list string :=
  ["constructor"; "hasOwnProperty"; "isPrototypeOf"; "propertyIsEnumerable";
   "toLocaleString"; "toString"; "valueOf"; "__proto__"; "__defineGetter__";
   "__defineSetter__"; "__lookupGetter__"; "__lookupSetter__"].

(** What [_units[type]] evaluates to. *)
Inductive Lookup :=
  | Own (u : SelectionUnit)
  | Inherited
  | Absent.

Fixpoint assoc (type : string) (us : list (string * SelectionUnit)) : option SelectionUnit :=
  match us with
  | [] => None
  | (k, u) :: us' => if k === type then Some u else assoc type us'
  end.

Definition lookup_unit (type : string) (reg : Registry) : Lookup :=
  match assoc type reg.(_units) with
  | Some u => Own u
  | None => if bool_decide (type ∈ object_prototype_keys) then Inherited else Absent
  end.

(** [_units[type] = u] on an existing own key. *)
Fixpoint put_unit (type : string) (u : SelectionUnit) (us : list (string * SelectionUnit))
    : list (string * SelectionUnit) :=
  match us with
  | [] => []
  | (k, u0) :: us' => if k === type then (k, u) :: us' else (k, u0) :: put_unit type u us'
  end.

(** The second argument of [select] and [unselect]. *)
Inductive JsArg :=
  | JStr (s : string)
  | JArr (l : list string)
  | JOther.

(** [typeof id !== 'string' && !Array.isArray(id)] is the error case. *)
Definition arg_ids (id : JsArg) : option IdArg :=
  match id with
  | JStr s => Some (One s)
  | JArr l => Some (Many l)
  | JOther => None
  end.

Inductive FacadeError :=
  | UnregisteredType (type : string)   (* 'Can not find the type %s ...' *)
  | BadIdArgument                      (* 'The 2nd argument ... must be string or array' *)
  | NotCoreLevel.                      (* 'Editor.Selection.register can only be called in core level.' *)

(** A facade call either returns normally, with the new state and the
    messages sent, or logs an error and changes nothing, or throws: calling
    a unit method on a function inherited from [Object.prototype] raises a
    [TypeError]. *)
Inductive Outcome :=
  | Done (reg : Registry) (out : list Msg)
  | Failed (e : FacadeError)
  | Crash.

(** Running a unit method on the unit of [type] and writing it back. *)
Definition run_unit (type : string) (u : SelectionUnit) (m : M unit) (reg : Registry) : Registry * list Msg :=
  let '(_, w, out) := m (mkWorld u reg.(lastActiveUnit)) in
  (mkRegistry (put_unit type w.(this) reg.(_units)) w.(_lastActiveUnit), out).

(** The common prologue of the facade methods: find the unit or log. *)
Definition with_unit (type : string) (reg : Registry) (k : SelectionUnit -> Outcome) : Outcome :=
  match lookup_unit type reg with
  | Own u => k u
  | Inherited => Crash
  | Absent => Failed (UnregisteredType type)
  end.

Definition done_with (p : Registry * list Msg) : Outcome := Done p.1 p.2.

Module Selection.

(** [Selection.register] *)
Definition register (isCoreLevel : bool) (type : string) (reg : Registry) : Outcome :=
if negb isCoreLevel then Failed NotCoreLevel
else match lookup_unit type reg with
     | Own _ | Inherited => Done reg []
     | Absent => Done (mkRegistry (reg.(_units) ++ [(type, ConfirmableSelectionUnit.new type)])
                        reg.(lastActiveUnit)) []
     end.

(** [for (var p in _units) { _units[p].m(); }] *)
Fixpoint each_unit (m : M unit) (us : list (string * SelectionUnit)) (g : option string)
  : list (string * SelectionUnit) * option string * list Msg :=
match us with
| [] => ([], g, [])
| (k, u) :: us' =>
    let '(_, w, o) := m (mkWorld u g) in
    let '(us'', g', o') := each_unit m us' w.(_lastActiveUnit) in
    ((k, w.(this)) :: us'', g', o ++ o')
end.

Definition for_all_units (m : M unit) (reg : Registry) : Outcome :=
let '(us, g, out) := each_unit m reg.(_units) reg.(lastActiveUnit) in Done (mkRegistry us g) out.

(** [Selection.confirm] and [Selection.cancel] *)
Definition confirm (reg : Registry) : Outcome := for_all_units ConfirmableSelectionUnit.confirm reg.
Definition cancel (reg : Registry) : Outcome := for_all_units ConfirmableSelectionUnit.cancel reg.

(** [Selection.select] *)
Definition select (type : string) (id : JsArg) (unselectOthers confirm : option bool)
  (reg : Registry) : Outcome :=
with_unit type reg (fun selectionUnit =>
  match arg_ids id with
  | None => Failed BadIdArgument
  | Some ids =>
      let lastActiveBeforeSelect := selectionUnit.(lastActive) in
      let lastActiveUnitBeforeSelect := reg.(lastActiveUnit) in
      let unselectOthers := default true unselectOthers in
      let confirm := default true confirm in
      let '(_, w, out) := ConfirmableSelectionUnit.select ids unselectOthers confirm
                            (mkWorld selectionUnit reg.(lastActiveUnit)) in
      let u := w.(this) in
      let units := put_unit type u reg.(_units) in
      if u.(confirmed) then
        Done (mkRegistry units (Some type))
             (out ++ msg_if ((lastActiveUnitBeforeSelect !== Some type) ||
                             (lastActiveBeforeSelect !== u.(lastActive)))
                      (IPC_ACTIVATED type u.(lastActive)))
      else Done (mkRegistry units w.(_lastActiveUnit)) out
  end).

(** [Selection.unselect] *)
Definition unselect (type : string) (id : JsArg) (confirm : option bool) (reg : Registry) : Outcome :=
with_unit type reg (fun selectionUnit =>
  match arg_ids id with
  | None => Failed BadIdArgument
  | Some ids =>
      done_with (run_unit type selectionUnit
                   (ConfirmableSelectionUnit.unselect ids (default true confirm)) reg)
  end).

(** [Selection.hover], [Selection.setContext], [Selection.patch] *)
Definition hover (type : string) (id : option string) (reg : Registry) : Outcome :=
with_unit type reg (fun u => done_with (run_unit type u (SelectionUnit.hover id) reg)).
Definition setContext (type : string) (id : option string) (reg : Registry) : Outcome :=
with_unit type reg (fun u => done_with (run_unit type u (SelectionUnit.setContext id) reg)).
Definition patch (type srcID destID : string) (reg : Registry) : Outcome :=
with_unit type reg (fun u => done_with (run_unit type u (SelectionUnit.patch srcID destID) reg)).

(** [Selection.clear]: [selectionUnit.clear(); selectionUnit.confirm();] *)
Definition clear (type : string) (reg : Registry) : Outcome :=
with_unit type reg (fun u =>
  done_with (run_unit type u (ConfirmableSelectionUnit.clear;; ConfirmableSelectionUnit.confirm) reg)).

(** The queries. [None] is the [null] returned after logging; an inherited
  [Object.prototype] member has no [lastHover] or [lastActive], so those
  queries read [undefined] ([Some None]), while [contexts] reads
  [undefined] and [curSelection] throws. *)
Definition hovering (type : string) (reg : Registry) : option (option string) :=
match lookup_unit type reg with
| Own u => Some u.(lastHover) | Inherited => Some None | Absent => None
end.

Definition curActivate (type : string) (reg : Registry) : option (option string) :=
match lookup_unit type reg with
| Own u => Some u.(lastActive) | Inherited => Some None | Absent => None
end.

Definition contexts (type : string) (reg : Registry) : option (list string) :=
match lookup_unit type reg with
| Own u => Some (SelectionUnit.contexts u) | _ => None
end.

Definition curSelection (type : string) (reg : Registry) : option (list string) :=
match lookup_unit type reg with
| Own u => Some u.(selection) | _ => None
end.

(** [Selection.curGlobalActivate]: [{type, id}] of [_lastActiveUnit]. *)
Definition curGlobalActivate (reg : Registry) : option (string * option string) :=
match reg.(lastActiveUnit) with
| Some t => match assoc t reg.(_units) with Some u => Some (u.(type), u.(lastActive)) | None => None end
| None => None
end.

End Selection.

(** The facade calls a process makes. *)
Inductive facade_op :=
  | FSelect (type : string) (id : JsArg) (unselectOthers confirm : option bool)
  | FUnselect (type : string) (id : JsArg) (confirm : option bool)
  | FHover (type : string) (id : option string)
  | FSetContext (type : string) (id : option string)
  | FPatch (type srcID destID : string)
  | FClear (type : string)
  | FConfirm
  | FCancel.

Definition run_facade (op : facade_op) (reg : Registry) : Outcome :=
  match op with
  | FSelect t id uo cf => Selection.select t id uo cf reg
  | FUnselect t id cf => Selection.unselect t id cf reg
  | FHover t id => Selection.hover t id reg
  | FSetContext t id => Selection.setContext t id reg
  | FPatch t s d => Selection.patch t s d reg
  | FClear t => Selection.clear t reg
  | FConfirm => Selection.confirm reg
  | FCancel => Selection.cancel reg
  end.

Definition empty_registry : Registry := mkRegistry [] None.

Definition reg1 : Registry :=
  match Selection.register true "node" empty_registry with Done r _ => r | _ => empty_registry end.

Example facade_select_run :
  Selection.select "node" (JArr ["a"; "b"]) None None reg1 =
  Done (mkRegistry [("node", mkUnit "node" ["a"; "b"] (Some "b") None None true [])] (Some "node"))
       [IPC_SELECTED "node" ["a"; "b"]; IPC_ACTIVATED "node" (Some "b"); IPC_CHANGED "node";
        IPC_ACTIVATED "node" (Some "b")].
Proof. reflexivity. Qed.

Lemma assoc_put_unit_eq t u us : is_Some (assoc t us) -> assoc t (put_unit t u us) = Some u.
Proof.
  induction us as [|[k u0] us IH]; simpl; [by intros []|].
  case_bool_decide; simpl; [by rewrite bool_decide_eq_true_2|]. rewrite bool_decide_eq_false_2 by done. done.
Qed.

Lemma assoc_put_unit_ne t t' u us : t <> t' -> assoc t' (put_unit t u us) = assoc t' us.
Proof.
  intros Hne. induction us as [|[k u0] us IH]; simpl; [done|].
  case_bool_decide; simpl; [subst; by rewrite !bool_decide_eq_false_2 by congruence|].
  by case_bool_decide.
Qed.

(** C21: Every facade mutator on an unregistered type fails with the unregistered-type error and every query returns null. *)
Theorem facade_unregistered type reg id id' uo cf h c s d :
  lookup_unit type reg = Absent ->
  Selection.select type id uo cf reg = Failed (UnregisteredType type) /\
  Selection.unselect type id' cf reg = Failed (UnregisteredType type) /\
  Selection.hover type h reg = Failed (UnregisteredType type) /\
  Selection.setContext type c reg = Failed (UnregisteredType type) /\
  Selection.patch type s d reg = Failed (UnregisteredType type) /\
  Selection.clear type reg = Failed (UnregisteredType type) /\
  Selection.hovering type reg = None /\ Selection.curActivate type reg = None /\
  Selection.contexts type reg = None /\ Selection.curSelection type reg = None.
Proof.
  intros H. unfold Selection.select, Selection.unselect, Selection.hover, Selection.setContext,
    Selection.patch, Selection.clear, Selection.hovering, Selection.curActivate,
    Selection.contexts, Selection.curSelection, with_unit. by rewrite H.
Qed.

(** C22: Select and unselect with an id that is neither a string nor an array fail with the bad-argument error. *)
Theorem facade_bad_argument type reg u uo cf :
  lookup_unit type reg = Own u ->
  Selection.select type JOther uo cf reg = Failed BadIdArgument /\
  Selection.unselect type JOther cf reg = Failed BadIdArgument.
Proof. intros H. unfold Selection.select, Selection.unselect, with_unit. by rewrite H. Qed.

(** C30: _units is a plain object, so a type named like an
    Object.prototype member finds the inherited member: on every registry
    that has no own unit under such a name, register is a silent no-op,
    and select with any string or array id, and clear, throw. *)
Theorem inherited_key_crash k reg id uo cf :
  k ∈ object_prototype_keys -> assoc k (_units reg) = None -> arg_ids id <> None ->
  Selection.register true k reg = Done reg [] /\
  Selection.select k id uo cf reg = Crash /\ Selection.clear k reg = Crash.
Proof.
  intros Hk Ha _. unfold Selection.register, Selection.select, Selection.clear, with_unit, lookup_unit.
  rewrite Ha, bool_decide_true by done. by repeat split.
Qed.

(** C23: Clear on a registered type leaves its unit empty, unfocused and confirmed, whatever its state. *)
Theorem facade_clear type reg u :
  assoc type reg.(_units) = Some u ->
  exists reg' out, Selection.clear type reg = Done reg' out /\
    exists u', assoc type reg'.(_units) = Some u' /\
      selection u' = [] /\ lastActive u' = None /\ confirmed u' = true.
Proof.
  intros Ha. unfold Selection.clear, with_unit, lookup_unit. rewrite Ha.
  unfold run_unit, done_with.
  pose proof (exec_bind ConfirmableSelectionUnit.clear (λ _, ConfirmableSelectionUnit.confirm)
                (mkWorld u (lastActiveUnit reg))) as Hx.
  unfold exec in Hx |- *. destruct ((ConfirmableSelectionUnit.clear;; ConfirmableSelectionUnit.confirm) _)
    as [[[] w] out] eqn:E. simpl in Hx.
  eexists _, _. split; [reflexivity|]. eexists. split; [apply assoc_put_unit_eq; eauto|]. simpl.
  rewrite Hx. pose proof (confirm_this (exec ConfirmableSelectionUnit.clear (mkWorld u (lastActiveUnit reg)))) as Hc.
  unfold exec in Hc. rewrite Hc. pose proof (clear_this (mkWorld u (lastActiveUnit reg))) as Hcl.
  unfold exec in Hcl. rewrite Hcl. simpl.
  destruct u as [ty sel la lh ctx [] snap]; simpl; unfold last_or_null; simpl; repeat split.
Qed.

Lemma count_activated_msg_if b m : is_activated m = false -> count_activated (msg_if b m) = 0.
Proof. intros H. unfold count_activated, msg_if. destruct b; [|done]. rewrite filter_cons, decide_False; [done|congruence]. Qed.

Lemma select_count_activated id uo w :
  confirmed (this w) = true ->
  count_activated (outbox (SelectionUnit.select c_act id uo) w) =
  if bool_decide (0 < length (to_array id)) && (lastActive (this w) !== list.last (to_array id)) then 1 else 0.
Proof.
  intros Hc. unfold outbox. rewrite select_run. cbv zeta.
  destruct (bool_decide (0 < length (to_array id))); simpl.
  - rewrite c_act_run, activate_run. simpl. rewrite Hc. destruct (this w); simpl in *.
    case_bool_decide; simpl; rewrite ?count_activated_app, ?count_activated_msg_if by done; done.
  - rewrite !count_activated_app, !count_activated_msg_if by done. done.
Qed.


Lemma confirmable_select_confirmed id uo w :
  confirmed (this w) = true ->
  ConfirmableSelectionUnit.select id uo true w = SelectionUnit.select c_act id uo w.
Proof.
  intros Hc. unfold ConfirmableSelectionUnit.select, mbind, ST_bind.
  rewrite checkConfirm_same by done. fold c_act. by destruct (SelectionUnit.select c_act id uo w) as [[??]?].
Qed.

(** C26: A confirming facade select that moves the focus broadcasts activated twice: once from _activate and once from the facade check. *)
Theorem facade_select_double_activated type reg u id ids uo :
  lookup_unit type reg = Own u -> confirmed u = true -> arg_ids id = Some ids ->
  0 < length (to_array ids) -> list.last (to_array ids) <> lastActive u ->
  exists reg' out, Selection.select type id uo (Some true) reg = Done reg' out /\ count_activated out = 2.
Proof.
  intros Hl Hc Ha Hn Hne. unfold Selection.select, with_unit. rewrite Hl, Ha. simpl.
  set (w := mkWorld u (lastActiveUnit reg)).
  rewrite confirmable_select_confirmed by done.
  pose proof (select_count_activated ids (default true uo) w Hc) as Hcnt.
  pose proof (select_this ids (default true uo) w) as Hth.
  unfold outbox, exec in *. destruct (SelectionUnit.select c_act ids _ w) as [[[] w'] out]. simpl in *.
  rewrite Hth. simpl. rewrite Hc. simpl. rewrite (bool_decide_eq_true_2 (0 < _)) by done. simpl.
  eexists _, _. split; [reflexivity|].
  rewrite count_activated_app, Hcnt, (bool_decide_eq_true_2 (0 < _)) by done. simpl.
  rewrite (bool_decide_eq_false_2 (lastActive u = last (to_array ids))) by congruence.
  rewrite orb_true_r. reflexivity.
Qed.

Lemma assoc_app_new t u us : assoc t us = None -> assoc t (us ++ [(t, u)]) = Some u.
Proof.
  induction us as [|[k u0] us IH]; simpl; [by rewrite bool_decide_eq_true_2|].
  case_bool_decide; [done|]. done.
Qed.

Lemma assoc_app_ne t t' u us : t <> t' -> assoc t' (us ++ [(t, u)]) = assoc t' us.
Proof.
  intros Hne. induction us as [|[k u0] us IH]; simpl; [by rewrite bool_decide_eq_false_2|].
  by case_bool_decide.
Qed.

(** C24: Register sends nothing; on a type that is already registered,
    or that names an Object.prototype member, it leaves the registry as it
    is whatever the state of the existing unit; it never touches another
    type; and a second register of the same type changes nothing. *)
Theorem register_idempotent type reg reg' out :
  Selection.register true type reg = Done reg' out ->
  out = [] /\ (lookup_unit type reg <> Absent -> reg' = reg) /\
  (forall t, t <> type -> assoc t reg'.(_units) = assoc t reg.(_units)) /\
  Selection.register true type reg' = Done reg' [].
Proof.
  unfold Selection.register. simpl. destruct (lookup_unit type reg) as [u| |] eqn:Hl.
  - intros [= <- <-]. rewrite Hl. by repeat split.
  - intros [= <- <-]. rewrite Hl. by repeat split.
  - intros [= <- <-]. unfold lookup_unit in Hl |- *. simpl.
    destruct (assoc type (_units reg)) eqn:Ha; [done|].
    rewrite assoc_app_new by done. split; [done|]. split; [done|]. split; [|done].
    intros t Hne. by apply assoc_app_ne.
Qed.

Lemma select_type_confirmed id uo w :
  type (this (exec (ConfirmableSelectionUnit.select id uo true) w)) = type (this w) /\
  confirmed (this (exec (ConfirmableSelectionUnit.select id uo true) w)) = true.
Proof.
  unfold ConfirmableSelectionUnit.select. rewrite exec_bind. cbv beta. fold c_act.
  rewrite select_this. simpl. split; [|apply checkConfirm_confirmed].
  rewrite checkConfirm_this. destruct (confirmed (this w)); simpl; [done|]. done.
Qed.

Lemma lookup_unit_Own type reg u : lookup_unit type reg = Own u -> assoc type reg.(_units) = Some u.
Proof. unfold lookup_unit. destruct (assoc _ _); [by intros [= ->]|]. by case_bool_decide. Qed.

(** C25: After a confirming facade select the unit is confirmed and curGlobalActivate names its type and lastActive. *)
Theorem facade_select_global type reg u id ids uo :
  lookup_unit type reg = Own u -> Units.type u = type -> arg_ids id = Some ids ->
  exists reg' out u',
    Selection.select type id uo (Some true) reg = Done reg' out /\
    assoc type reg'.(_units) = Some u' /\ confirmed u' = true /\
    Selection.curGlobalActivate reg' = Some (type, lastActive u').
Proof.
  intros Hl Ht Ha. pose proof (lookup_unit_Own _ _ _ Hl) as Has.
  unfold Selection.select, with_unit. rewrite Hl, Ha. simpl.
  set (w := mkWorld u (lastActiveUnit reg)).
  destruct (select_type_confirmed ids (default true uo) w) as [Hty Hc].
  unfold exec in Hty, Hc. destruct (ConfirmableSelectionUnit.select ids _ true w) as [[[] w'] out].
  simpl in *. rewrite Hc. eexists _, _, _. split; [reflexivity|].
  assert (Hp : assoc type (put_unit type (this w') (_units reg)) = Some (this w'))
    by (apply assoc_put_unit_eq; eauto).
  split; [done|]. split; [done|]. unfold Selection.curGlobalActivate. simpl. rewrite Hp.
  by rewrite Hty, Ht.
Qed.

Example facade_unregistered_witness :
  lookup_unit "scene" reg1 = Absent /\
  Selection.select "scene" (JStr "a") None None reg1 = Failed (UnregisteredType "scene") /\
  Selection.unselect "scene" (JStr "a") None reg1 = Failed (UnregisteredType "scene") /\
  Selection.hover "scene" (Some "a") reg1 = Failed (UnregisteredType "scene") /\
  Selection.setContext "scene" (Some "a") reg1 = Failed (UnregisteredType "scene") /\
  Selection.patch "scene" "a" "b" reg1 = Failed (UnregisteredType "scene") /\
  Selection.clear "scene" reg1 = Failed (UnregisteredType "scene") /\
  Selection.hovering "scene" reg1 = None /\ Selection.curActivate "scene" reg1 = None /\
  Selection.contexts "scene" reg1 = None /\ Selection.curSelection "scene" reg1 = None.
Proof. split; [reflexivity|]. apply facade_unregistered. reflexivity. Defined.

Example facade_bad_argument_witness :
  lookup_unit "node" reg1 = Own (ConfirmableSelectionUnit.new "node") /\
  Selection.select "node" JOther None None reg1 = Failed BadIdArgument /\
  Selection.unselect "node" JOther None reg1 = Failed BadIdArgument.
Proof. split; [reflexivity|]. apply (facade_bad_argument _ _ (ConfirmableSelectionUnit.new "node")). reflexivity. Defined.

Example facade_clear_witness :
  assoc "node" reg1.(_units) = Some (ConfirmableSelectionUnit.new "node") /\
  exists reg' out, Selection.clear "node" reg1 = Done reg' out /\
    exists u', assoc "node" reg'.(_units) = Some u' /\
      selection u' = [] /\ lastActive u' = None /\ confirmed u' = true.
Proof. split; [reflexivity|]. apply (facade_clear _ _ (ConfirmableSelectionUnit.new "node")). reflexivity. Defined.

Example register_idempotent_witness :
  Selection.register true "node" reg1 = Done reg1 [] /\
  ([] : list Msg) = [] /\ (lookup_unit "node" reg1 <> Absent -> reg1 = reg1) /\
  (forall t, t <> "node" -> assoc t reg1.(_units) = assoc t reg1.(_units)) /\
  Selection.register true "node" reg1 = Done reg1 [].
Proof. split; [reflexivity|]. apply register_idempotent. reflexivity. Defined.

Example facade_select_global_witness :
  lookup_unit "node" reg1 = Own (ConfirmableSelectionUnit.new "node") /\
  Units.type (ConfirmableSelectionUnit.new "node") = "node" /\ arg_ids (JArr ["a"]) = Some (Many ["a"]) /\
  exists reg' out u',
    Selection.select "node" (JArr ["a"]) None (Some true) reg1 = Done reg' out /\
    assoc "node" reg'.(_units) = Some u' /\ confirmed u' = true /\
    Selection.curGlobalActivate reg' = Some ("node", lastActive u').
Proof.
  split; [reflexivity|]. split; [reflexivity|]. split; [reflexivity|].
  apply (facade_select_global _ _ (ConfirmableSelectionUnit.new "node") _ (Many ["a"])); reflexivity.
Defined.

Example facade_select_double_activated_witness :
  lookup_unit "node" reg1 = Own (ConfirmableSelectionUnit.new "node") /\
  confirmed (ConfirmableSelectionUnit.new "node") = true /\ arg_ids (JArr ["a"]) = Some (Many ["a"]) /\
  0 < length (to_array (Many ["a"])) /\ list.last (to_array (Many ["a"])) <> lastActive (ConfirmableSelectionUnit.new "node") /\
  exists reg' out, Selection.select "node" (JArr ["a"]) None (Some true) reg1 = Done reg' out /\ count_activated out = 2.
Proof.
  split; [reflexivity|]. split; [reflexivity|]. split; [reflexivity|]. split; [simpl; lia|].
  split; [simpl; congruence|].
  apply (facade_select_double_activated _ _ (ConfirmableSelectionUnit.new "node") _ (Many ["a"])); [reflexivity..|simpl; lia|simpl; congruence].
Defined.

Example inherited_key_crash_witness :
  "toString" ∈ object_prototype_keys /\ assoc "toString" (_units empty_registry) = None /\
  arg_ids (JStr "a") <> None /\
  Selection.register true "toString" empty_registry = Done empty_registry [] /\
  Selection.select "toString" (JStr "a") None None empty_registry = Crash /\
  Selection.clear "toString" empty_registry = Crash.
Proof.
  assert (Hk : "toString" ∈ object_prototype_keys) by (apply (bool_decide_unpack _); vm_compute; reflexivity).
  split; [exact Hk|]. split; [reflexivity|]. split; [done|].
  apply inherited_key_crash; [exact Hk|reflexivity|done].
Defined.
