(* ===== verification/RegistryInv.v ===== *)
(** * The registry invariant

    [reg_wf reg]: the keys of [_units] are unique and each unit is stored
    under its own [type] and satisfies the unit invariant [wf]. The file
    holds the generic lemmas on the association list [_units] ([assoc],
    [put_unit]) and the proof that [Selection.register] and every facade
    call preserve [reg_wf]. [facade_commit_all] proves that
    [Selection.confirm] and [Selection.cancel] (lines 294-309, a
    [for (var p in _units)] loop) confirm every unit and empty its
    snapshot, and that a second call changes nothing. [reg_pending] is a
    registry with a transaction in progress. *)

From S2P Require Import SelPrelude JsArray Messages Units UnitInv Transaction Typing Registry.
Set Warnings "-clear-no-such-hyp".

(** The registry invariant: each unit is stored under its own type and
    satisfies the unit invariant [wf]. *)
Definition reg_wf (reg : Registry) : Prop :=
  NoDup (_units reg).*1 /\ forall t u, assoc t (_units reg) = Some u -> type u = t /\ wf u.

(** What [facade_preserves_wf] needs of the arguments: the unit methods'
    preconditions [op_pre]. *)
Definition inv_pre (op : facade_op) (reg : Registry) : Prop :=
  match op with
  | FSelect t id uo cf => forall u ids, assoc t (_units reg) = Some u -> arg_ids id = Some ids ->
      op_pre (OpSelect ids (default true uo) (default true cf)) u
  | FPatch t s d => forall u, assoc t (_units reg) = Some u -> op_pre (OpPatch s d) u
  | _ => True
  end.

(** A registry whose only unit is in the middle of a provisional
    selection: ["b"] selected, the focus ["a"] kept in the snapshot. *)
Definition reg_pending : Registry :=
  mkRegistry [("node", mkUnit "node" ["b"] (Some "a") None None false ["a"])] None.


(** ** Lemmas *)

Lemma put_unit_same t u us : assoc t us = Some u -> put_unit t u us = us.
Proof.
  induction us as [|[k u0] us IH]; simpl; [done|].
  case_bool_decide as Hk; [intros [= ->]; by subst|intros Ha; by rewrite IH].
Qed.

Lemma put_unit_put_unit t u1 u2 us : put_unit t u2 (put_unit t u1 us) = put_unit t u2 us.
Proof.
  induction us as [|[k u0] us IH]; simpl; [done|].
  case_bool_decide; simpl; rewrite ?bool_decide_true, ?bool_decide_false by done; by rewrite ?IH.
Qed.

Lemma assoc_put_unit_None t u us : assoc t us = None -> assoc t (put_unit t u us) = None.
Proof.
  induction us as [|[k u0] us IH]; simpl; [done|].
  case_bool_decide; [done|]. simpl. rewrite bool_decide_false by done. done.
Qed.

Lemma assoc_app_notin k (pre us : list (string * SelectionUnit)) :
  k ∉ pre.*1 -> assoc k (pre ++ us) = assoc k us.
Proof.
  induction pre as [|[k' u'] pre IH]; intros Hk; simpl in *; [done|].
  rewrite bool_decide_false by set_solver. apply IH. set_solver.
Qed.

Lemma put_unit_app_notin k u (pre us : list (string * SelectionUnit)) :
  k ∉ pre.*1 -> put_unit k u (pre ++ us) = pre ++ put_unit k u us.
Proof.
  induction pre as [|[k' u'] pre IH]; intros Hk; simpl in *; [done|].
  rewrite bool_decide_false by set_solver. rewrite IH by set_solver. done.
Qed.

Lemma assoc_elem k u us : NoDup us.*1 -> (k, u) ∈ us -> assoc k us = Some u.
Proof.
  induction us as [|[k' u'] us IH]; intros Hnd Hin; simpl in *; [set_solver|].
  apply NoDup_cons in Hnd as [Hk Hnd]. apply elem_of_cons in Hin as [[= -> ->]|Hin].
  - by rewrite bool_decide_true.
  - rewrite bool_decide_false; [by apply IH|]. intros ->. apply Hk.
    apply list_elem_of_fmap. by exists (k, u).
Qed.

Lemma lookup_unit_Done t reg (k : SelectionUnit -> Outcome) reg' out :
  with_unit t reg k = Done reg' out -> exists u, assoc t (_units reg) = Some u /\ k u = Done reg' out.
Proof.
  unfold with_unit, lookup_unit. destruct (assoc t _) as [u|]; [by exists u|].
  by case_bool_decide.
Qed.

Lemma assoc_None_notin t (us : list (string * SelectionUnit)) : t ∉ us.*1 -> assoc t us = None.
Proof.
  induction us as [|[k u] us IH]; intros Ht; simpl in *; [done|].
  rewrite bool_decide_false by set_solver. apply IH. set_solver.
Qed.

Lemma assoc_Some_elem t u (us : list (string * SelectionUnit)) : assoc t us = Some u -> (t, u) ∈ us.
Proof.
  induction us as [|[k u'] us IH]; simpl; [done|]. case_bool_decide; [intros [= ->]; subst; set_solver|].
  intros Ha. specialize (IH Ha). set_solver.
Qed.

Lemma put_unit_keys t u us : (put_unit t u us).*1 = us.*1.
Proof. induction us as [|[k u0] us IH]; csimpl; [done|]. case_bool_decide; csimpl; by rewrite ?IH. Qed.

Lemma run_unit_fst t u m reg :
  (run_unit t u m reg).1 =
  mkRegistry (put_unit t (this (exec m (mkWorld u (lastActiveUnit reg)))) (_units reg))
             (_lastActiveUnit (exec m (mkWorld u (lastActiveUnit reg)))).
Proof. unfold run_unit, exec. by destruct (m _) as [[? ?] ?]. Qed.

(** Writing back a unit that kept its type and the unit invariant. *)
Lemma reg_wf_put reg t u u' g :
  reg_wf reg -> assoc t (_units reg) = Some u -> type u' = type u -> wf u' ->
  reg_wf (mkRegistry (put_unit t u' (_units reg)) g).
Proof.
  intros [Hnd Hwf] Ha Ht Hu. split; simpl; [by rewrite put_unit_keys|].
  intros t' u1 Ha1. destruct (decide (t = t')) as [<-|Hne].
  - rewrite assoc_put_unit_eq in Ha1 by eauto. injection Ha1 as <-. split; [|done].
    rewrite Ht. by apply (Hwf t u).
  - rewrite assoc_put_unit_ne in Ha1 by done. by apply Hwf.
Qed.

Lemma run_unit_wf t u m reg :
  reg_wf reg -> assoc t (_units reg) = Some u -> typed_run m ->
  wf (this (exec m (mkWorld u (lastActiveUnit reg)))) -> reg_wf (run_unit t u m reg).1.
Proof.
  intros Hr Ha Hty Hw. rewrite run_unit_fst. eapply reg_wf_put; [done|done| |done].
  apply (Hty (mkWorld u (lastActiveUnit reg))).
Qed.

Section each_unit_wf.
Context (m : M unit).
Hypothesis m_wf : forall w, wf (this w) -> wf (this (exec m w)).
Hypothesis m_typed : typed_run m.

Lemma each_unit_wf us g :
  (forall k u, (k, u) ∈ us -> type u = k /\ wf u) ->
  (Selection.each_unit m us g).1.1.*1 = us.*1 /\
  forall k u, (k, u) ∈ (Selection.each_unit m us g).1.1 -> type u = k /\ wf u.
Proof.
  revert g. induction us as [|[k u] us IH]; intros g Hus; csimpl; [split; [done|set_solver]|].
  destruct (Hus k u) as [Ht Hu]; [set_solver|].
  pose proof (m_wf (mkWorld u g) Hu) as Hw. destruct (m_typed (mkWorld u g)) as (Hty & _).
  unfold exec in Hw, Hty. destruct (m (mkWorld u g)) as [[[] w] o]. csimpl in *.
  destruct (IH (_lastActiveUnit w)) as [Hk Hu']; [intros; apply Hus; set_solver|].
  destruct (Selection.each_unit m us _) as [[us' g'] o']. csimpl in *. rewrite Hk. split; [done|].
  intros k' u' [[= -> ->]|Hin]%elem_of_cons; [by rewrite Hty|by apply Hu'].
Qed.
End each_unit_wf.

Lemma for_all_units_wf m reg reg' out :
  (forall w, wf (this w) -> wf (this (exec m w))) -> typed_run m ->
  reg_wf reg -> Selection.for_all_units m reg = Done reg' out -> reg_wf reg'.
Proof.
  intros Hm Hty [Hnd Hwf] Hd. unfold Selection.for_all_units in Hd.
  destruct (each_unit_wf m Hm Hty (_units reg) (lastActiveUnit reg)) as [Hk Hu].
  { intros k u Hin. apply Hwf, assoc_elem; done. }
  destruct (Selection.each_unit m _ _) as [[us g] o]. injection Hd as <- <-. simpl in *.
  split; simpl; [by rewrite Hk|]. intros t u Ha. by apply Hu, assoc_Some_elem.
Qed.

Lemma with_unit_run_wf t m reg reg' out :
  reg_wf reg -> typed_run m ->
  (forall u, assoc t (_units reg) = Some u -> wf (this (exec m (mkWorld u (lastActiveUnit reg))))) ->
  with_unit t reg (λ u, done_with (run_unit t u m reg)) = Done reg' out -> reg_wf reg'.
Proof.
  intros Hr Hty Hm Hd. apply lookup_unit_Done in Hd as (u & Ha & Hd). injection Hd as <- _.
  apply run_unit_wf; auto.
Qed.

Lemma unit_wf_of reg t u : reg_wf reg -> assoc t (_units reg) = Some u -> wf u.
Proof. intros [_ H] Ha. by apply (H t u). Qed.

(** [Selection.confirm] and [Selection.cancel] run a method that leaves
    every unit confirmed and does nothing on a confirmed unit. *)
Section each_unit_commit.
Context (m : M unit).
Hypothesis m_commits : forall w, confirmed (this (exec m w)) = true.
Hypothesis m_idle : forall w, confirmed (this w) = true -> m w = (tt, w, []).

Lemma each_unit_commits us g :
  (Selection.each_unit m us g).1.1.*1 = us.*1 /\
  Forall (λ e, confirmed e.2 = true) (Selection.each_unit m us g).1.1.
Proof.
  revert g. induction us as [|[k u] us IH]; intros g; csimpl; [done|].
  pose proof (m_commits (mkWorld u g)) as Hc. unfold exec in Hc.
  destruct (m (mkWorld u g)) as [[[] w] o]. csimpl in *.
  destruct (IH (_lastActiveUnit w)) as [Hk Hu].
  destruct (Selection.each_unit m us _) as [[us' g'] o']. csimpl in *. rewrite Hk.
  split; [done|]. by constructor.
Qed.

Lemma each_unit_idle us g :
  Forall (λ e, confirmed e.2 = true) us -> Selection.each_unit m us g = (us, g, []).
Proof.
  revert g. induction us as [|[k u] us IH]; intros g Hus; [done|].
  apply Forall_cons in Hus as [Hu Hus]. simpl. rewrite (m_idle (mkWorld u g) Hu). simpl.
  by rewrite IH.
Qed.
End each_unit_commit.

Lemma confirm_commits w : confirmed (this (exec ConfirmableSelectionUnit.confirm w)) = true.
Proof. rewrite confirm_this. by destruct (confirmed (this w)) eqn:Hc. Qed.

Lemma cancel_commits w : confirmed (this (exec ConfirmableSelectionUnit.cancel w)) = true.
Proof. rewrite cancel_this. by destruct (confirmed (this w)) eqn:Hc. Qed.

Lemma confirm_idle w : confirmed (this w) = true -> ConfirmableSelectionUnit.confirm w = (tt, w, []).
Proof. intros Hc. by rewrite confirm_run, Hc. Qed.

Lemma cancel_idle w : confirmed (this w) = true -> ConfirmableSelectionUnit.cancel w = (tt, w, []).
Proof. intros Hc. by rewrite cancel_run, Hc. Qed.

(** One facade call keeps [reg_wf]. *)
Lemma wf_facade op reg reg' out :
  reg_wf reg -> inv_pre op reg -> run_facade op reg = Done reg' out -> reg_wf reg'.
Proof.
  intros Hr Hpre Hd. destruct op as [t id uo cf|t id cf|t id|t id|t s d|t| |]; simpl in *.
  - unfold Selection.select in Hd. apply lookup_unit_Done in Hd as (u & Ha & Hd).
    destruct (arg_ids id) as [ids|] eqn:Hid; [|done].
    pose proof (run_op_wf (OpSelect ids (default true uo) (default true cf)) (mkWorld u (lastActiveUnit reg))
                  (unit_wf_of _ _ _ Hr Ha) (Hpre u ids Ha eq_refl)) as Hw.
    destruct (typed_run_op (OpSelect ids (default true uo) (default true cf)) (mkWorld u (lastActiveUnit reg))) as [Ht _].
    unfold exec in Hw, Ht. simpl in Hw, Ht.
    destruct (ConfirmableSelectionUnit.select _ _ _ _) as [[[] w] o]. simpl in *.
    destruct (confirmed (this w)); injection Hd as <- _; by eapply reg_wf_put.
  - unfold Selection.unselect in Hd. destruct (arg_ids id) as [ids|].
    + eapply (with_unit_run_wf t (run_op (OpUnselect ids (default true cf)))); eauto using typed_run_op.
      intros u Ha. apply run_op_wf; [by eapply unit_wf_of|done].
    + by apply lookup_unit_Done in Hd as (u & _ & Hd).
  - eapply (with_unit_run_wf t (run_op (OpHover id))); eauto using typed_run_op.
    intros u Ha. apply run_op_wf; [by eapply unit_wf_of|done].
  - eapply (with_unit_run_wf t (run_op (OpSetContext id))); eauto using typed_run_op.
    intros u Ha. apply run_op_wf; [by eapply unit_wf_of|done].
  - eapply (with_unit_run_wf t (run_op (OpPatch s d))); eauto using typed_run_op.
    intros u Ha. apply run_op_wf; [by eapply unit_wf_of|by apply Hpre].
  - eapply (with_unit_run_wf t (run_op OpClear;; run_op OpConfirm)); eauto using typed_bind, typed_run_op.
    intros u Ha. rewrite exec_bind. apply (run_op_wf OpConfirm); [|done].
    apply run_op_wf; [by eapply unit_wf_of|done].
  - eapply (for_all_units_wf (run_op OpConfirm)); eauto using typed_run_op. intros w Hw. by apply run_op_wf.
  - eapply (for_all_units_wf (run_op OpCancel)); eauto using typed_run_op. intros w Hw. by apply run_op_wf.
Qed.

(** C4: The registry invariant is kept by every facade call whose arguments
    meet the unit methods' preconditions ([select] with a duplicate-free,
    non-empty request or without confirming and unselecting; [patch] to a
    fresh id). *)
Theorem facade_preserves_wf op reg reg' out :
  reg_wf reg -> inv_pre op reg -> run_facade op reg = Done reg' out -> reg_wf reg'.
Proof. apply wf_facade. Qed.

(** C16: [Selection.confirm] and [Selection.cancel] end every transaction.
    On a well-formed registry each succeeds, keeps the registered types,
    leaves every unit confirmed with an empty snapshot, and a second call
    of the same facade method changes nothing and sends nothing. *)
Theorem facade_commit_all op reg :
  op = FConfirm \/ op = FCancel -> reg_wf reg ->
  exists reg' out, run_facade op reg = Done reg' out /\ (_units reg').*1 = (_units reg).*1 /\
    Forall (λ e, confirmed e.2 = true /\ _confirmedSnapShot e.2 = []) (_units reg') /\
    run_facade op reg' = Done reg' [].
Proof.
  intros Hop Hwf.
  assert (Hm : exists m, (op = FConfirm /\ m = ConfirmableSelectionUnit.confirm \/
                          op = FCancel /\ m = ConfirmableSelectionUnit.cancel) /\
                         (forall w, confirmed (this (exec m w)) = true) /\
                         (forall w, confirmed (this w) = true -> m w = (tt, w, []))).
  { destruct Hop as [->| ->]; eexists; (split; [by eauto|]);
      eauto using confirm_commits, cancel_commits, confirm_idle, cancel_idle. }
  destruct Hm as (m & Hsel & Hc & Hi).
  assert (Hrun : forall r, run_facade op r = Selection.for_all_units m r)
    by (by destruct Hsel as [[-> ->]|[-> ->]]).
  rewrite Hrun. unfold Selection.for_all_units.
  destruct (each_unit_commits m Hc (_units reg) (lastActiveUnit reg)) as [Hk Hall].
  destruct (Selection.each_unit m _ _) as [[us g] out] eqn:He. simpl in Hk, Hall.
  assert (Hwf' : reg_wf (mkRegistry us g)).
  { apply (wf_facade op reg _ out Hwf); [by destruct Hop as [->| ->]|].
    rewrite Hrun. unfold Selection.for_all_units. by rewrite He. }
  exists (mkRegistry us g), out. split; [done|]. split; [done|]. split.
  - apply Forall_forall. intros [k u] Hin. rewrite Forall_forall in Hall.
    pose proof (Hall _ Hin) as Hcu. simpl in *. split; [done|].
    destruct Hwf' as [Hnd Hu]. destruct (Hu k u) as [_ Hwu]; [by apply assoc_elem|].
    unfold wf in Hwu. rewrite Hcu in Hwu. by destruct Hwu as (_ & _ & _ & ?).
  - rewrite Hrun. unfold Selection.for_all_units. simpl. by rewrite each_unit_idle.
Qed.

(** C15: Register keeps the registry invariant and registers the type: on
    a well-formed registry, every ordinary type (not an Object.prototype
    member) has a unit afterwards, a fresh confirmable unit when it had
    none, and the global pointer is untouched. *)
Theorem register_preserves_wf b t reg reg' out :
  reg_wf reg -> Selection.register b t reg = Done reg' out ->
  reg_wf reg' /\ lastActiveUnit reg' = lastActiveUnit reg /\
  (t ∉ object_prototype_keys ->
   exists u, assoc t (_units reg') = Some u /\
             (assoc t (_units reg) = None -> u = ConfirmableSelectionUnit.new t)).
Proof.
  intros [Hnd Hwf] Hd. unfold Selection.register, lookup_unit in Hd. destruct b; [|done]. simpl in Hd.
  destruct (assoc t (_units reg)) as [u0|] eqn:Ha.
  { injection Hd as <- _. split; [by split|]. split; [done|]. intros _. by exists u0. }
  case_bool_decide as Hp; injection Hd as <- _; [split; [by split|]; split; [done|]; done|].
  split; [split; simpl|].
  - rewrite fmap_app. csimpl. apply NoDup_app. repeat split; [done| |apply NoDup_singleton].
    intros k Hk ->%list_elem_of_singleton. apply list_elem_of_fmap in Hk as [[k' u] [-> Hin]].
    simpl in Ha. rewrite (assoc_elem k' u) in Ha by done. done.
  - intros t' u Ha'. destruct (decide (t = t')) as [<-|Hne].
    + rewrite assoc_app_new in Ha' by done. injection Ha' as <-. split; [done|apply wf_new].
    + rewrite assoc_app_ne in Ha' by done. by apply Hwf.
  - split; [done|]. intros _. simpl. rewrite assoc_app_new by done. by eexists.
Qed.

Lemma reg1_wf : reg_wf reg1.
Proof.
  split; [vm_compute; by repeat constructor; set_solver|].
  intros t u Ha. simpl in Ha. case_bool_decide; simplify_eq. split; [done|apply wf_new].
Qed.

Lemma reg_pending_wf : reg_wf reg_pending.
Proof.
  split; [simpl; repeat constructor; set_solver|]. intros t u Ha. simpl in Ha.
  case_bool_decide; simplify_eq. split; [done|]. repeat split; simpl; try set_solver.
  all: repeat constructor; set_solver.
Qed.

Example facade_preserves_wf_witness :
  reg_wf reg1 /\ inv_pre (FPatch "node" "a" "b") reg1 /\
  run_facade (FPatch "node" "a" "b") reg1 = Done reg1 [IPC_PATCH "node" "a" "b"] /\ reg_wf reg1.
Proof.
  assert (Hp : inv_pre (FPatch "node" "a" "b") reg1).
  { intros u Ha. simpl in Ha. injection Ha as <-. right. split; [set_solver|by left]. }
  split; [apply reg1_wf|]. split; [exact Hp|]. split; [reflexivity|].
  apply (facade_preserves_wf (FPatch "node" "a" "b") reg1 reg1 [IPC_PATCH "node" "a" "b"]); [apply reg1_wf|exact Hp|reflexivity].
Defined.

Example register_preserves_wf_witness :
  reg_wf empty_registry /\ Selection.register true "node" empty_registry = Done reg1 [] /\
  reg_wf reg1 /\ lastActiveUnit reg1 = lastActiveUnit empty_registry /\
  ("node" ∉ object_prototype_keys ->
   exists u, assoc "node" (_units reg1) = Some u /\
             (assoc "node" (_units empty_registry) = None -> u = ConfirmableSelectionUnit.new "node")).
Proof.
  assert (H0 : reg_wf empty_registry) by (split; [constructor|done]).
  split; [exact H0|]. split; [reflexivity|].
  apply (register_preserves_wf true "node" empty_registry _ []); [exact H0|reflexivity].
Defined.

Example facade_commit_all_witness :
  (FCancel = FConfirm \/ FCancel = FCancel) /\ reg_wf reg_pending /\
  exists reg' out, run_facade FCancel reg_pending = Done reg' out /\
    (_units reg').*1 = (_units reg_pending).*1 /\
    Forall (λ e, confirmed e.2 = true /\ _confirmedSnapShot e.2 = []) (_units reg') /\
    run_facade FCancel reg' = Done reg' [].
Proof.
  split; [by right|]. split; [exact reg_pending_wf|].
  apply facade_commit_all; [by right|exact reg_pending_wf].
Defined.
