(* ===== verification/Replication.v ===== *)
(** * Replication: the [_selection:*] handlers and the refinement theorem

    Every process holds a replica of the selection state. A facade call
    in one process runs its unit methods locally and broadcasts each change
    with [_sendToAll]. Every other process applies the internal
    [_selection:*] message with the handlers of [selection.js] lines
    566-680, which write the fields directly and send nothing.

    - [on_selected] ... [on_patch] are the handler bodies on the unit found
      under the message's type (lines 566-680); [recv_world] dispatches one
      message on a [World]. [recv] is the same on a whole [Registry],
      including the [_units[type]] lookup and its logged miss. [replay] and
      [replay_reg] apply a sequence of messages in order.
    - [view] is the replicated part of a unit: [type], [selection],
      [lastActive], [lastHover] and [_context]. [confirmed] and
      [_confirmedSnapShot] are local to the process that runs a
      transaction. [view_eq] and [reg_eq] compare worlds and registries on
      that part; [Proper] instances let [replay] be rewritten along them.
    - [replays m w]: replaying the outbox of [m] on [w] reaches the state
      [m] leaves, up to [view_eq]. Each method has such a lemma, and
      [run_op_replays] collects them for the unit.
    - [typed_run] (file [Typing]) lets the unit-level lemma lift to the
      registry ([run_unit_replays], and [each_unit_replays] for [confirm]
      and [cancel] over all units).
    - [facade_replicates]: after any facade call, a replica that agreed
      with the caller agrees again once it has applied the call's messages.
      The hypotheses are the registry invariant [reg_wf] (unique keys, each
      unit stored under its own type and satisfying [wf]) and, for [hover],
      non-empty ids. [hover_empty_diverges] shows that the condition is
      needed: from any unit with no hover, [hover('')] changes the sender
      and sends nothing.
    - [facades_replicate] extends it to any sequence of calls of one
      process ([run_facades]). It carries [reg_wf] from call to call with
      [RegistryInv.facade_preserves_wf].
    - [register_not_replicated]: registration sends nothing, so no
      replica lacking the type ever gets it.
      [concurrent_membership_diverges] is a concrete run in which two
      concurrent senders end with different members. *)

From Stdlib Require Import Morphisms.
From S2P Require Import SelPrelude JsArray Messages Units UnitInv Transaction Typing Registry RegistryInv.
Set Warnings "-clear-no-such-hyp".

(** The handlers, on the receiving unit and the receiving process's
    [_lastActiveUnit]. *)
Definition on_selected (ids : list string) (w : World) : World :=
  let selectionUnit := this w in
  let ids := List.filter (λ x, bool_decide (index_of x (selection selectionUnit) = None)) ids in
  let sel :=
    if bool_decide (length ids = 1) then
      match head ids with Some x => selection selectionUnit ++ [x] | None => selection selectionUnit end
    else if bool_decide (1 < length ids) then selection selectionUnit ++ ids
    else selection selectionUnit in
  mkWorld (set_selection sel selectionUnit) (_lastActiveUnit w).

Definition on_unselected (ids : list string) (w : World) : World :=
  let selectionUnit := this w in
  mkWorld (set_selection (List.filter (λ x, bool_decide (index_of x ids = None)) (selection selectionUnit))
             selectionUnit) (_lastActiveUnit w).

Definition on_activated (type : string) (id : option string) (w : World) : World :=
  mkWorld (set_lastActive id (this w)) (Some type).

Definition on_deactivated (type : string) (w : World) : World :=
  mkWorld (set_lastActive None (this w))
    (if _lastActiveUnit w === Some type then None else _lastActiveUnit w).

Definition on_hoverin (id : option string) (w : World) : World :=
  mkWorld (set_lastHover id (this w)) (_lastActiveUnit w).

Definition on_hoverout (w : World) : World :=
  mkWorld (set_lastHover None (this w)) (_lastActiveUnit w).

Definition on_context (id : option string) (w : World) : World :=
  mkWorld (set_context id (this w)) (_lastActiveUnit w).

Definition on_patch (srcID destID : string) (w : World) : World :=
  let u := this w in
  let sel := match index_of srcID (selection u) with
             | Some idx => <[idx := destID]> (selection u)
             | None => selection u
             end in
  let la := if lastActive u === Some srcID then Some destID else lastActive u in
  let lh := if lastHover u === Some srcID then Some destID else lastHover u in
  let ctx := if _context u === Some srcID then Some destID else _context u in
  mkWorld (mkUnit (type u) sel la lh ctx (confirmed u) (_confirmedSnapShot u)) (_lastActiveUnit w).

(** Dispatch of one internal message to its handler ([IPC_CHANGED] has no
    internal handler). *)
Definition recv_world (m : Msg) (w : World) : World :=
  match m with
  | IPC_SELECTED _ ids => on_selected ids w
  | IPC_UNSELECTED _ ids => on_unselected ids w
  | IPC_ACTIVATED t id => on_activated t id w
  | IPC_DEACTIVATED t _ => on_deactivated t w
  | IPC_HOVERIN _ id => on_hoverin id w
  | IPC_HOVEROUT _ _ => on_hoverout w
  | IPC_CONTEXT _ id => on_context id w
  | IPC_PATCH _ s d => on_patch s d w
  | IPC_CHANGED _ => w
  end.

Definition replay (o : list Msg) (w : World) : World := foldl (λ w m, recv_world m w) w o.

(** The replicated part of a unit: the handlers never read or write
    [confirmed] or [_confirmedSnapShot]. *)
Definition view (u : SelectionUnit) : string * list string * option string * option string * option string :=
  (type u, selection u, lastActive u, lastHover u, _context u).

Definition view_eq (w1 w2 : World) : Prop :=
  view (this w1) = view (this w2) /\ _lastActiveUnit w1 = _lastActiveUnit w2.

(** [replay] of the outbox of [m] on the sender's own pre-state reaches
    the sender's post-state, up to the replicated fields. *)
Definition replays (m : M unit) (w : World) : Prop := view_eq (replay (outbox m w) w) (exec m w).

(** A nullable id whose JavaScript truthiness agrees with being non-null:
    [null] or a non-empty string. *)
Definition nonempty_id (o : option string) : Prop := o <> Some "".

#[export] Instance nonempty_id_dec o : Decision (nonempty_id o).
Proof. unfold nonempty_id. apply _. Defined.

(** The precondition a replica needs: [hover] with a non-empty id (the
    empty string is a falsy id the handlers never see). *)
Definition replay_pre (op : unit_op) (u : SelectionUnit) : Prop :=
  match op with
  | OpHover id => nonempty_id id /\ nonempty_id (lastHover u)
  | _ => True
  end.

(** One [_selection:*] message delivered to a process. The handler looks
    the unit up with [_units[type]]. On a missing type it logs and returns
    ([Some reg]). On a member of [Object.prototype] it works on a built-in
    function, which the model does not track ([None]). [_selection:changed]
    has no handler. *)
Definition recv (m : Msg) (reg : Registry) : option Registry :=
  match m with
  | IPC_CHANGED _ => Some reg
  | _ =>
      match lookup_unit (msg_type m) reg with
      | Own selectionUnit =>
          let w := recv_world m (mkWorld selectionUnit (lastActiveUnit reg)) in
          Some (mkRegistry (put_unit (msg_type m) (this w) (_units reg)) (_lastActiveUnit w))
      | Absent => Some reg
      | Inherited => None
      end
  end.

Fixpoint replay_reg (o : list Msg) (reg : Registry) : option Registry :=
  match o with
  | [] => Some reg
  | m :: o' => recv m reg ≫= replay_reg o'
  end.

(** Two registries agree on every replicated field of every type and on
    the global pointer. *)
Definition reg_eq (r1 r2 : Registry) : Prop :=
  (forall t, view <$> assoc t (_units r1) = view <$> assoc t (_units r2)) /\
  lastActiveUnit r1 = lastActiveUnit r2.

(** [hover] needs ids that are [null] or non-empty. *)
Definition facade_pre (op : facade_op) (reg : Registry) : Prop :=
  match op with
  | FHover t id => nonempty_id id /\ forall u, assoc t (_units reg) = Some u -> nonempty_id (lastHover u)
  | _ => True
  end.

(** A replica of [reg1] in the middle of a transaction of its own: it
    agrees with [reg1] on the replicated fields only. *)
Definition reg1_replica : Registry :=
  mkRegistry [("node", mkUnit "node" [] None None None false ["x"])] None.

(** [Selection.select('node', ['a', 'b'])] on [reg1]: the new registry and
    the messages (see [facade_select_run]). *)
Definition reg1_ab : Registry :=
  mkRegistry [("node", mkUnit "node" ["a"; "b"] (Some "b") None None true [])] (Some "node").
Definition out_ab : list Msg :=
  [IPC_SELECTED "node" ["a"; "b"]; IPC_ACTIVATED "node" (Some "b"); IPC_CHANGED "node";
   IPC_ACTIVATED "node" (Some "b")].

(** Two processes that share a unit with ["a"] selected. Process A
    unselects ["a"]; concurrently process B unselects it and selects it
    again. Each then applies the other's messages. *)
Definition w_a : World := exec (ConfirmableSelectionUnit.select (One "a") true true) w0.
Definition op_A : M unit := ConfirmableSelectionUnit.unselect (One "a") true.
Definition op_B : M unit :=
  ConfirmableSelectionUnit.unselect (One "a") true;; ConfirmableSelectionUnit.select (One "a") true true.

(** A process's sequence of facade calls: a call that logs an error
    changes nothing and the process goes on; a call that throws stops it. *)
Fixpoint run_facades (ops : list facade_op) (reg : Registry) : option (Registry * list Msg) :=
  match ops with
  | [] => Some (reg, [])
  | op :: ops' =>
      match run_facade op reg with
      | Done reg' out => (λ p, (p.1, out ++ p.2)) <$> run_facades ops' reg'
      | Failed _ => run_facades ops' reg
      | Crash => None
      end
  end.

(** The preconditions of [facade_replicates] and [facade_preserves_wf],
    met at each call of the sequence in the state it runs in. *)
Fixpoint facades_ok (ops : list facade_op) (reg : Registry) : Prop :=
  match ops with
  | [] => True
  | op :: ops' =>
      facade_pre op reg /\ inv_pre op reg /\
      match run_facade op reg with
      | Done reg' _ => facades_ok ops' reg'
      | Failed _ => facades_ok ops' reg
      | Crash => True
      end
  end.

(** ** Lemmas *)

#[export] Instance view_eq_equiv : Equivalence view_eq.
Proof. unfold view_eq. split; [done|intros ?? [-> ->]; done|intros ??? [-> ->] [-> ->]; done]. Qed.

#[export] Instance recv_world_proper m : Proper (view_eq ==> view_eq) (recv_world m).
Proof.
  intros [u1 g1] [u2 g2] [Hv Hg]. destruct u1, u2. unfold view in Hv. simpl in *. simplify_eq.
  destruct m; unfold view_eq; simpl; done.
Qed.

#[export] Instance replay_proper o : Proper (view_eq ==> view_eq) (replay o).
Proof. induction o as [|m o IH]; intros w1 w2 H; simpl; [done|]. apply IH. by rewrite H. Qed.

Lemma replay_app o1 o2 w : replay (o1 ++ o2) w = replay o2 (replay o1 w).
Proof. apply foldl_app. Qed.

Lemma replays_bind (m1 m2 : M unit) w :
  replays m1 w -> replays m2 (exec m1 w) -> replays (m1;; m2) w.
Proof.
  unfold replays. intros H1 H2. rewrite outbox_bind, exec_bind, replay_app. cbv beta.
  by rewrite H1.
Qed.

Lemma filter_bool_all (f : string -> bool) l : (forall x, x ∈ l -> f x = true) -> List.filter f l = l.
Proof. induction l as [|a l IH]; intros H; simpl; [done|]. rewrite H by set_solver. f_equal. apply IH. set_solver. Qed.

Lemma filter_bool_ext (f g : string -> bool) l :
  (forall x, x ∈ l -> f x = g x) -> List.filter f l = List.filter g l.
Proof. induction l as [|a l IH]; intros H; simpl; [done|]. rewrite H by set_solver. rewrite IH by set_solver. done. Qed.

Lemma on_selected_fresh ids w :
  (forall x, x ∈ ids -> x ∉ selection (this w)) ->
  on_selected ids w = mkWorld (set_selection (selection (this w) ++ ids) (this w)) (_lastActiveUnit w).
Proof.
  intros Hf. unfold on_selected. rewrite filter_bool_all.
  2:{ intros x Hx. apply bool_decide_eq_true_2, index_of_None. by apply Hf. }
  destruct ids as [|x [|y ids]]; simpl; [by rewrite app_nil_r|done|].
  reflexivity.
Qed.

Lemma activate_replays id w : replays (SelectionUnit._activate id) w.
Proof.
  unfold replays, outbox, exec. rewrite activate_run. case_bool_decide; simpl; [reflexivity|].
  destruct w as [[] g]; unfold msg_if, view_eq, view; simpl. by destruct (truthy _).
Qed.

Lemma c_act_replays id w : replays (c_act id) w.
Proof.
  unfold replays, outbox, exec. rewrite c_act_run. destruct (confirmed (this w)); [|reflexivity].
  apply activate_replays.
Qed.

Lemma List_filter_bool_decide (P : string -> Prop) `{!forall x, Decision (P x)} l :
  List.filter (λ x, bool_decide (P x)) l = filter P l.
Proof. induction l as [|a l IH]; simpl; [done|]. rewrite filter_cons, IH. case_decide; case_bool_decide; done. Qed.

(** The [_selection:unselected] handler removes exactly the listed ids. *)
Lemma on_unselected_filter ids w :
  on_unselected ids w = mkWorld (set_selection (filter (.∉ ids) (selection (this w))) (this w)) (_lastActiveUnit w).
Proof.
  unfold on_unselected. rewrite (filter_bool_ext _ (λ x, bool_decide (x ∉ ids))), List_filter_bool_decide; [done|].
  intros x _. apply bool_decide_ext, index_of_None.
Qed.

Lemma replay_changed b t w : replay (msg_if b (IPC_CHANGED t)) w = w.
Proof. by destruct b. Qed.

Lemma replay_set_selection_id w : mkWorld (set_selection (selection (this w)) (this w)) (_lastActiveUnit w) = w.
Proof. by rewrite set_selection_id, mkWorld_eta. Qed.

(** The membership messages of [select] rebuild the sender's selection. *)
Lemma select_prefix_replay uo ids w :
  NoDup (selection (this w)) ->
  let u := this w in
  let removed := difference (selection u) ids in
  let sel1 := uo_sel uo (selection u) ids in
  let added := difference ids sel1 in
  replay (msg_if (uo && bool_decide (0 < length removed)) (IPC_UNSELECTED (type u) removed)
          ++ msg_if (bool_decide (0 < length added)) (IPC_SELECTED (type u) added)) w
  = mkWorld (set_selection (sel1 ++ added) u) (_lastActiveUnit w).
Proof.
  intros Hnd u removed sel1 added. rewrite replay_app.
  assert (Hw1 : replay (msg_if (uo && bool_decide (0 < length removed)) (IPC_UNSELECTED (type u) removed)) w
                = mkWorld (set_selection sel1 u) (_lastActiveUnit w)).
  { subst sel1 removed. unfold uo_sel, msg_if.
    destruct (uo && _); simpl; [|unfold u; by rewrite replay_set_selection_id].
    rewrite on_unselected_filter, intersection_filter by done. do 3 f_equal.
    apply filter_ext_elem. intros x Hx. rewrite elem_of_difference.
    destruct (decide (x ∈ ids)); naive_solver. }
  rewrite Hw1. clear Hw1. unfold msg_if.
  destruct (decide (0 < length added)) as [Ha|Ha]; [rewrite bool_decide_true by done|rewrite bool_decide_false by done]; simpl.
  - rewrite on_selected_fresh; [by destruct u|]. intros x. unfold added. rewrite elem_of_difference. simpl. tauto.
  - destruct added; simpl in *; [|lia]. by rewrite app_nil_r.
Qed.

Section replays_methods.
Context (act : option string -> M unit).
Hypothesis act_replays : forall id w, replays (act id) w.

Lemma replays_then (pre : list Msg) (w w1 : World) (r : unit * World * list Msg) o3 :
  replay pre w = w1 -> view_eq (replay r.2 w1) r.1.2 -> (forall w', replay o3 w' = w') ->
  view_eq (replay (pre ++ r.2 ++ o3) w) r.1.2.
Proof. intros H1 H2 H3. by rewrite !replay_app, H3, H1. Qed.

Lemma select_replays id uo w :
  NoDup (selection (this w)) -> replays (SelectionUnit.select act id uo) w.
Proof.
  intros Hnd. unfold replays, outbox, exec. rewrite select_run. cbv zeta.
  match goal with |- context [act _ ?x] => set (w1 := x) end.
  set (r := if bool_decide (0 < length (to_array id)) then act (list.last (to_array id)) w1 else (tt, w1, [])).
  assert (Hr : view_eq (replay r.2 w1) r.1.2) by (subst r; case_bool_decide; [apply act_replays|reflexivity]).
  clearbody r. destruct r as [[[] w2] o2]. simpl in *. rewrite app_assoc.
  apply (replays_then _ _ w1 (tt, w2, o2)); [by apply select_prefix_replay|done|].
  intros. apply replay_changed.
Qed.

Lemma unselect_replays id w :
  NoDup (selection (this w)) -> replays (SelectionUnit.unselect act id) w.
Proof.
  intros Hnd. unfold replays, outbox, exec. rewrite unselect_run. cbv zeta.
  rewrite unselect_res_spec by done.
  match goal with |- context [act _ ?x] => set (w1 := x) end.
  set (r := if bool_decide (opt_in (lastActive (this w)) (to_array id) /\ opt_in (lastActive (this w)) (selection (this w)))
             then act (last_or_null (filter (λ y, y ∉ to_array id) (selection (this w)))) w1 else (tt, w1, [])).
  assert (Hr : view_eq (replay r.2 w1) r.1.2) by (subst r; case_bool_decide; [apply act_replays|reflexivity]).
  clearbody r. destruct r as [[[] w2] o2]. simpl in *.
  apply (replays_then _ _ w1 (tt, w2, o2)); [|done|intros; apply replay_changed].
  unfold msg_if. case_bool_decide as Hl; simpl.
  - rewrite on_unselected_filter. subst w1. do 3 f_equal.
    apply filter_ext_elem. intros x Hx. rewrite elem_of_intersection. tauto.
  - assert (intersection (to_array id) (selection (this w)) = []) as E
      by (destruct (intersection _ _); simpl in *; [done|lia]).
    subst w1. rewrite filter_all; [by rewrite replay_set_selection_id|].
    intros x Hx Hin. assert (x ∈ intersection (to_array id) (selection (this w))) as Hi
      by (by apply elem_of_intersection). rewrite E in Hi. set_solver.
Qed.
End replays_methods.

Lemma truthy_nonempty o : nonempty_id o -> truthy o = bool_decide (is_Some o).
Proof.
  unfold nonempty_id. destruct o as [s|]; simpl; [|done]. intros H.
  repeat case_bool_decide; try done; congruence.
Qed.

Lemma hover_replays id w :
  nonempty_id id -> nonempty_id (lastHover (this w)) -> replays (SelectionUnit.hover id) w.
Proof.
  intros Hid Hlh. unfold replays, outbox, exec. rewrite hover_run, !truthy_nonempty by done.
  case_bool_decide as Hne; simpl; [reflexivity|].
  destruct w as [[ty sel la lh ctx c snap] g]; simpl in *.
  unfold msg_if, view_eq, view. destruct lh, id; simpl; repeat case_bool_decide; naive_solver.
Qed.

Lemma setContext_replays id w : replays (SelectionUnit.setContext id) w.
Proof. unfold replays, outbox, exec. rewrite setContext_run. reflexivity. Qed.

Lemma patch_replays srcID destID w : replays (SelectionUnit.patch srcID destID) w.
Proof. unfold replays, outbox, exec. rewrite patch_run. reflexivity. Qed.

Lemma clear_replays w : replays ConfirmableSelectionUnit.clear w.
Proof.
  unfold replays, outbox, exec, ConfirmableSelectionUnit.clear. rewrite clear_run. fold c_act.
  set (w1 := mkWorld (set_selection [] (this w)) (_lastActiveUnit w)).
  pose proof (c_act_replays None w1) as Hr. unfold replays, outbox, exec in Hr.
  destruct (c_act None w1) as [[[] w2] o2]. simpl in *.
  rewrite replay_app, on_unselected_filter, filter_none by set_solver. simpl. exact Hr.
Qed.

(** Updating only [confirmed] and [_confirmedSnapShot] is invisible to a
    replica. *)
Lemma view_eq_confirmed b s w :
  view_eq (mkWorld (set_confirmed b (set_snapshot s (this w))) (_lastActiveUnit w)) w.
Proof. by split. Qed.

Lemma confirm_replays w : replays ConfirmableSelectionUnit.confirm w.
Proof.
  unfold replays, outbox, exec. rewrite confirm_run.
  destruct (confirmed (this w)); [reflexivity|].
  pose proof (activate_replays (last_or_null (selection (this w)))
               (mkWorld (set_confirmed true (set_snapshot [] (this w))) (_lastActiveUnit w))) as H.
  unfold replays, outbox, exec in H. etransitivity; [|exact H].
  apply replay_proper. symmetry. apply view_eq_confirmed.
Qed.

Lemma checkConfirm_replays cf w : replays (ConfirmableSelectionUnit._checkConfirm cf) w.
Proof.
  unfold replays, outbox, exec. rewrite checkConfirm_run.
  destruct (negb _ && cf); [apply confirm_replays|].
  destruct (_ && _); simpl; [symmetry; apply view_eq_confirmed|reflexivity].
Qed.

Lemma cancel_replays w : NoDup (selection (this w)) -> replays ConfirmableSelectionUnit.cancel w.
Proof.
  intros Hnd. unfold replays, outbox, exec. rewrite cancel_run.
  destruct (confirmed (this w)); [reflexivity|].
  pose proof (select_replays c_act c_act_replays (Many (_confirmedSnapShot (this w))) true w Hnd) as H.
  unfold replays, outbox, exec in H. destruct (SelectionUnit.select _ _ _ _) as [[[] w1] o1].
  simpl in *. by rewrite H, view_eq_confirmed.
Qed.

Lemma csel_replays id uo cf w :
  NoDup (selection (this w)) -> replays (ConfirmableSelectionUnit.select id uo cf) w.
Proof.
  intros Hnd. apply replays_bind; [apply checkConfirm_replays|].
  apply select_replays; [apply c_act_replays|]. rewrite checkConfirm_this.
  repeat case_match; exact Hnd.
Qed.

Lemma cunsel_replays id cf w :
  NoDup (selection (this w)) -> replays (ConfirmableSelectionUnit.unselect id cf) w.
Proof.
  intros Hnd. apply replays_bind; [apply checkConfirm_replays|].
  apply unselect_replays; [apply c_act_replays|]. rewrite checkConfirm_this.
  repeat case_match; exact Hnd.
Qed.

(** The unit methods replay on a well-formed unit. *)
Lemma replays_run_op op w :
  wf (this w) -> replay_pre op (this w) -> replays (run_op op) w.
Proof.
  intros [Hnd _] Hpre. destruct op; simpl in *.
  - by apply csel_replays.
  - by apply cunsel_replays.
  - destruct Hpre. by apply hover_replays.
  - apply setContext_replays.
  - apply patch_replays.
  - apply clear_replays.
  - apply confirm_replays.
  - by apply cancel_replays.
Qed.

(** C5: Unit-level refinement: a replica that starts in the sender's state
    and applies the sender's outbox through the [_selection:*] handlers
    reaches the sender's new state, on every replicated field. *)
Theorem run_op_replays op w :
  wf (this w) -> replay_pre op (this w) -> replays (run_op op) w.
Proof. apply replays_run_op. Qed.

(** C31: hover('') stores the empty string as lastHover, but the
    truthiness test skips the hoverin broadcast: from every unit with no
    hover, the call sends nothing, so every replica that agreed with the
    sender keeps a null lastHover and no longer agrees with it. *)
Theorem hover_empty_diverges w r :
  lastHover (this w) = None -> view_eq r w ->
  let w1 := exec (SelectionUnit.hover (Some "")) w in
  lastHover (this w1) = Some "" /\ outbox (SelectionUnit.hover (Some "")) w = [] /\
  ¬ view_eq (replay (outbox (SelectionUnit.hover (Some "")) w) r) w1.
Proof.
  intros Hh [Hv Hg] w1. subst w1. unfold exec, outbox. rewrite hover_run, Hh. simpl.
  split; [done|]. split; [done|]. intros [Hv' _]. unfold view in Hv, Hv'. simpl in *.
  rewrite Hh in Hv. congruence.
Qed.

(** ** The handlers on the process registry *)

#[export] Instance reg_eq_equiv : Equivalence reg_eq.
Proof.
  unfold reg_eq. split.
  - done.
  - intros r1 r2 [H1 H2]. split; [|done]. intros t. by rewrite H1.
  - intros r1 r2 r3 [H1 H2] [H3 H4]. split; [|congruence]. intros t. by rewrite H1, H3.
Qed.

(** A message about a registered type updates that type's unit by its
    handler, and nothing else. *)
Lemma recv_own m reg u :
  assoc (msg_type m) (_units reg) = Some u ->
  let w := recv_world m (mkWorld u (lastActiveUnit reg)) in
  recv m reg = Some (mkRegistry (put_unit (msg_type m) (this w) (_units reg)) (_lastActiveUnit w)).
Proof.
  intros Ha w. unfold recv, lookup_unit. subst w.
  destruct m; rewrite ?Ha; try done. simpl in *. by rewrite put_unit_same by done; destruct reg.
Qed.

(** A run of messages that all name type [t] replays at the unit level on
    [t]'s unit. *)
Lemma replay_reg_typed t o reg u :
  Forall (λ m, msg_type m = t) o -> assoc t (_units reg) = Some u ->
  let w := replay o (mkWorld u (lastActiveUnit reg)) in
  replay_reg o reg = Some (mkRegistry (put_unit t (this w) (_units reg)) (_lastActiveUnit w)).
Proof.
  revert reg u. induction o as [|m o IH]; intros reg u Ho Ha w; subst w; simpl.
  - rewrite put_unit_same by done. by destruct reg.
  - apply Forall_cons in Ho as [Hm Ho]. rewrite (recv_own m reg u) by (by rewrite Hm). simpl.
    rewrite Hm, (IH _ (this (recv_world m (mkWorld u (lastActiveUnit reg))))); [|done|simpl; by apply assoc_put_unit_eq].
    simpl. by rewrite mkWorld_eta, put_unit_put_unit.
Qed.

Lemma reg_eq_assoc r1 r2 t u1 :
  reg_eq r1 r2 -> assoc t (_units r1) = Some u1 -> exists u2, assoc t (_units r2) = Some u2 /\ view u2 = view u1.
Proof.
  intros [H _] Ha. specialize (H t). rewrite Ha in H.
  destruct (assoc t (_units r2)) as [u2|]; simpl in H; [|done]. exists u2. split; [done|]. congruence.
Qed.

Lemma reg_eq_put r1 r2 t u1 u2 g :
  reg_eq r1 r2 -> view u1 = view u2 ->
  reg_eq (mkRegistry (put_unit t u1 (_units r1)) g) (mkRegistry (put_unit t u2 (_units r2)) g).
Proof.
  intros [H _] Hv. split; [|done]. intros t'. simpl. destruct (decide (t = t')) as [<-|Hne].
  - specialize (H t). destruct (assoc t (_units r1)) eqn:E1, (assoc t (_units r2)) eqn:E2; simpl in H; try discriminate.
    + rewrite !assoc_put_unit_eq by eauto. simpl. by rewrite Hv.
    + by rewrite !assoc_put_unit_None.
  - by rewrite !assoc_put_unit_ne.
Qed.

(** Registry-level refinement of one unit method: a replica that agrees
    with the sender before the call agrees with it after applying the
    call's messages. *)
Lemma run_unit_replays t u m reg r :
  assoc t (_units reg) = Some u -> type u = t -> typed_run m ->
  replays m (mkWorld u (lastActiveUnit reg)) -> reg_eq reg r ->
  exists r', replay_reg (run_unit t u m reg).2 r = Some r' /\ reg_eq (run_unit t u m reg).1 r'.
Proof.
  intros Ha Ht Hty Hr Heq. destruct (reg_eq_assoc _ _ _ _ Heq Ha) as (u2 & Ha2 & Hv).
  destruct (Hty (mkWorld u (lastActiveUnit reg))) as (_ & Ho & _).
  unfold replays, exec, outbox, run_unit in *. simpl in Ho.
  destruct (m _) as [[[] w'] out]. simpl in *. rewrite Ht in Ho.
  rewrite (replay_reg_typed t out r u2) by done. eexists. split; [done|].
  assert (Hw : view_eq (replay out (mkWorld u2 (lastActiveUnit r))) w').
  { rewrite <-Hr. apply replay_proper. split; [done|]. simpl. symmetry. apply Heq. }
  destruct Hw as [Hw1 Hw2]. rewrite Hw2. symmetry. by apply reg_eq_put.
Qed.

Lemma replay_reg_app o1 o2 r : replay_reg (o1 ++ o2) r = replay_reg o1 r ≫= replay_reg o2.
Proof.
  revert r. induction o1 as [|m o1 IH]; intros r; simpl; [done|].
  destruct (recv m r); simpl; [apply IH|done].
Qed.

Lemma view_set_lastActive_same u : view (set_lastActive (lastActive u) u) = view u.
Proof. by destruct u. Qed.

Lemma view_set_lastActive la u1 u2 :
  view u1 = view u2 -> view (set_lastActive la u1) = view (set_lastActive la u2).
Proof. destruct u1, u2. unfold view. simpl. by intros [= -> -> -> -> ->]. Qed.

Section each_unit_replays.
Context (m : M unit).
Hypothesis m_replays : forall w, wf (this w) -> replays m w.
Hypothesis m_typed : typed_run m.

(** [for (var p in _units)] over the units not yet visited ([us]), after
    the visited ones ([pre]). *)
Lemma each_unit_replays us : forall pre g r,
  NoDup (pre ++ us).*1 -> (forall k u, (k, u) ∈ us -> type u = k /\ wf u) ->
  reg_eq (mkRegistry (pre ++ us) g) r ->
  exists r', replay_reg (Selection.each_unit m us g).2 r = Some r' /\
             reg_eq (mkRegistry (pre ++ (Selection.each_unit m us g).1.1) (Selection.each_unit m us g).1.2) r'.
Proof.
  induction us as [|[k u] us IH]; intros pre g r Hnd Hus Heq; simpl; [by eexists|].
  assert (Hk : k ∉ pre.*1) by (rewrite fmap_app in Hnd; apply NoDup_app in Hnd; set_solver).
  destruct (Hus k u) as [Ht Hwf]; [set_solver|].
  assert (Ha : assoc k (_units (mkRegistry (pre ++ (k, u) :: us) g)) = Some u)
    by (simpl; rewrite assoc_app_notin by done; simpl; by rewrite bool_decide_true).
  destruct (run_unit_replays k u m _ r Ha Ht m_typed (m_replays (mkWorld u g) Hwf) Heq) as (r1 & Hr1 & Heq1).
  unfold run_unit in Hr1, Heq1. simpl in Hr1, Heq1.
  destruct (m (mkWorld u g)) as [[[] w] o1]. simpl in *.
  rewrite put_unit_app_notin in Heq1 by done. simpl in Heq1. rewrite bool_decide_true in Heq1 by done.
  destruct (IH (pre ++ [(k, this w)]) (_lastActiveUnit w) r1) as (r' & Hr' & Heq');
    [rewrite <-app_assoc, !fmap_app in *; exact Hnd|intros; apply Hus; set_solver|by rewrite <-app_assoc|].
  destruct (Selection.each_unit m us _) as [[us'' g'] o2]. simpl in *.
  exists r'. rewrite replay_reg_app, Hr1. simpl. split; [done|]. by rewrite <-app_assoc in Heq'.
Qed.
End each_unit_replays.

(** The facade methods that run one unit method through [run_unit]. *)
Lemma run_unit_facade_replays t m reg r reg' out :
  reg_wf reg -> typed_run m ->
  (forall u, assoc t (_units reg) = Some u -> replays m (mkWorld u (lastActiveUnit reg))) ->
  with_unit t reg (λ u, done_with (run_unit t u m reg)) = Done reg' out -> reg_eq reg r ->
  exists r', replay_reg out r = Some r' /\ reg_eq reg' r'.
Proof.
  intros [_ Hwf] Hty Hrep Hd Heq. apply lookup_unit_Done in Hd as (u & Ha & Hd).
  unfold done_with in Hd. injection Hd as <- <-.
  apply run_unit_replays; auto. by apply Hwf.
Qed.

(** [Selection.select]: the unit's messages, then possibly one more
    [_selection:activated] for the global pointer. *)
Lemma select_facade_replays t id uo cf reg r reg' out :
  reg_wf reg -> Selection.select t id uo cf reg = Done reg' out -> reg_eq reg r ->
  exists r', replay_reg out r = Some r' /\ reg_eq reg' r'.
Proof.
  intros [Hnd Hwf] Hd Heq. unfold Selection.select in Hd.
  apply lookup_unit_Done in Hd as (u & Ha & Hd). destruct (arg_ids id) as [ids|]; [|done].
  destruct (Hwf t u Ha) as [Ht Hu].
  set (m := ConfirmableSelectionUnit.select ids (default true uo) (default true cf)) in Hd.
  destruct (run_unit_replays t u m reg r Ha Ht (typed_run_op (OpSelect _ _ _))
              (csel_replays _ _ _ (mkWorld u (lastActiveUnit reg)) (proj1 Hu)) Heq) as (r1 & Hr1 & Heq1).
  destruct (typed_run_op (OpSelect ids (default true uo) (default true cf)) (mkWorld u (lastActiveUnit reg)))
    as (_ & _ & Hg).
  unfold run_unit, exec in *. simpl in Hg. fold m in Hg.
  destruct (m (mkWorld u (lastActiveUnit reg))) as [[[] w] o]. simpl in *.
  destruct (confirmed (this w)); injection Hd as <- <-; [|by exists r1].
  assert (Hp : assoc t (put_unit t (this w) (_units reg)) = Some (this w)) by (apply assoc_put_unit_eq; eauto).
  destruct (reg_eq_assoc _ _ _ _ Heq1 Hp) as (u1 & Ha1 & Hv1).
  rewrite replay_reg_app, Hr1. simpl. unfold msg_if. case_match; simpl.
  - unfold lookup_unit. rewrite Ha1. simpl. eexists. split; [done|].
    rewrite <-(put_unit_put_unit t (this w) (this w) (_units reg)).
    apply (reg_eq_put (mkRegistry (put_unit t (this w) (_units reg)) (_lastActiveUnit w))); [done|].
    rewrite <-(view_set_lastActive_same (this w)). by apply view_set_lastActive.
  - exists r1. split; [done|]. rewrite <-Heq1. split; [done|]. simpl.
    apply orb_false_iff in H as [H1 _]. apply negb_false_iff, bool_decide_eq_true in H1.
    destruct Hg as [->| ->]; congruence.
Qed.

Lemma for_all_units_replays m reg r reg' out :
  reg_wf reg -> (forall w, wf (this w) -> replays m w) -> typed_run m ->
  Selection.for_all_units m reg = Done reg' out -> reg_eq reg r ->
  exists r', replay_reg out r = Some r' /\ reg_eq reg' r'.
Proof.
  intros [Hnd Hwf] Hrep Hty Hd Heq. unfold Selection.for_all_units in Hd.
  destruct (each_unit_replays m Hrep Hty (_units reg) [] (lastActiveUnit reg) r) as (r' & Hr & Heq');
    [done|intros k u Hin; apply Hwf, assoc_elem; done|by destruct reg|].
  destruct (Selection.each_unit m _ _) as [[us g] o]. injection Hd as <- <-. by exists r'.
Qed.

(** One facade call replays on an agreeing replica. *)
Lemma replicates_facade op reg r reg' out :
  reg_wf reg -> facade_pre op reg -> run_facade op reg = Done reg' out -> reg_eq reg r ->
  exists r', replay_reg out r = Some r' /\ reg_eq reg' r'.
Proof.
  intros Hwf Hpre Hd Heq. pose proof (proj2 Hwf) as Hu. destruct op as [t id uo cf|t id cf|t id|t id|t srcID destID|t| |]; simpl in *.
  - by eapply select_facade_replays.
  - unfold Selection.unselect in Hd. destruct (arg_ids id) as [ids|].
    + eapply (run_unit_facade_replays t (run_op (OpUnselect ids (default true cf)))); eauto using typed_run_op.
      intros u Ha. apply replays_run_op; [by apply (Hu t)|done].
    + by apply lookup_unit_Done in Hd as (u & _ & Hd).
  - eapply (run_unit_facade_replays _ (run_op (OpHover id))); eauto using typed_run_op.
    intros u Ha. apply replays_run_op; [by apply (Hu t)|]. simpl. split; [apply Hpre|by apply Hpre].
  - eapply (run_unit_facade_replays _ (run_op (OpSetContext id))); eauto using typed_run_op.
    intros u Ha. apply replays_run_op; [by apply (Hu t)|done].
  - eapply (run_unit_facade_replays _ (run_op (OpPatch srcID destID))); eauto using typed_run_op.
    intros u Ha. apply replays_run_op; [by apply (Hu t)|done].
  - eapply (run_unit_facade_replays _ (ConfirmableSelectionUnit.clear;; ConfirmableSelectionUnit.confirm)); eauto.
    + apply typed_bind; [apply clear_typed|apply confirm_typed].
    + intros u Ha. apply replays_bind; [apply clear_replays|apply confirm_replays].
  - eapply for_all_units_replays; eauto using confirm_typed. intros. apply confirm_replays.
  - eapply for_all_units_replays; eauto using cancel_typed. intros w [Hn _]. by apply cancel_replays.
Qed.

(** C1: Replication refinement of the facade: if a replica agrees with a
    process on every type's [type], [selection], [lastActive],
    [lastHover] and [_context] and on the global active type, then after a
    facade call of that process the replica, applying the call's internal
    messages through the [_selection:*] handlers in order, agrees with it
    again. *)
Theorem facade_replicates op reg r reg' out :
  reg_wf reg -> facade_pre op reg -> run_facade op reg = Done reg' out -> reg_eq reg r ->
  exists r', replay_reg out r = Some r' /\ reg_eq reg' r'.
Proof. apply replicates_facade. Qed.

Example facade_replicates_witness :
  reg_wf reg1 /\ facade_pre (FSelect "node" (JArr ["a"; "b"]) None None) reg1 /\
  run_facade (FSelect "node" (JArr ["a"; "b"]) None None) reg1 = Done reg1_ab out_ab /\
  reg_eq reg1 reg1_replica /\
  exists r', replay_reg out_ab reg1_replica = Some r' /\ reg_eq reg1_ab r'.
Proof.
  assert (Heq : reg_eq reg1 reg1_replica).
  { split; [|reflexivity]. intros t. simpl. by case_bool_decide. }
  split; [apply reg1_wf|]. split; [exact I|]. split; [reflexivity|]. split; [exact Heq|].
  apply (facade_replicates (FSelect "node" (JArr ["a"; "b"]) None None) reg1); [apply reg1_wf|exact I|reflexivity|exact Heq].
Defined.

Example run_op_replays_witness :
  wf (this w0) /\ replay_pre (OpHover (Some "a")) (this w0) /\ replays (run_op (OpHover (Some "a"))) w0.
Proof.
  assert (Hp : replay_pre (OpHover (Some "a")) (this w0)) by (split; unfold nonempty_id; simpl; congruence).
  split; [apply wf_new|]. split; [exact Hp|]. apply run_op_replays; [apply wf_new|exact Hp].
Defined.


(** A sequence of facade calls replays on an agreeing replica. *)
Lemma replicate_facades ops reg reg' out r :
  reg_wf reg -> facades_ok ops reg -> run_facades ops reg = Some (reg', out) -> reg_eq reg r ->
  exists r', replay_reg out r = Some r' /\ reg_eq reg' r'.
Proof.
  revert reg r reg' out. induction ops as [|op ops IH]; intros reg r reg' out Hwf Hok Hrun Heq; simpl in *.
  - injection Hrun as <- <-. by exists r.
  - destruct Hok as (Hp & Hi & Hok). destruct (run_facade op reg) as [reg1 out1|e|] eqn:Hop; [|by eapply IH|done].
    destruct (run_facades ops reg1) as [[reg2 out2]|] eqn:Hr2; [|done]. injection Hrun as <- <-.
    destruct (replicates_facade op reg r reg1 out1 Hwf Hp Hop Heq) as (r1 & Hr1 & Heq1).
    destruct (IH reg1 r1 reg2 out2) as (r2 & Hr2' & Heq2); [by eapply wf_facade|done|done|done|].
    exists r2. simpl. rewrite replay_reg_app, Hr1. simpl. by split.
Qed.

(** C2: Eventual agreement for one sender: a replica that agreed with a process
    agrees with it again after applying, in order, all the messages of any
    sequence of that process's facade calls. *)
Theorem facades_replicate ops reg reg' out r :
  reg_wf reg -> facades_ok ops reg -> run_facades ops reg = Some (reg', out) -> reg_eq reg r ->
  exists r', replay_reg out r = Some r' /\ reg_eq reg' r'.
Proof. apply replicate_facades. Qed.

(** The two calls of the witnesses below meet their preconditions. *)
Lemma facades_ab_ok :
  facades_ok [FSelect "node" (JArr ["a"; "b"]) None None; FHover "node" (Some "a")] reg1.
Proof.
  simpl. split; [done|]. split.
  - intros u ids Ha Hi. simpl in Ha. injection Ha as <-. injection Hi as <-.
    split; [repeat constructor; set_solver|left; done].
  - split; [|done]. split; [unfold nonempty_id; congruence|].
    intros u Ha. simpl in Ha. injection Ha as <-. unfold nonempty_id. simpl. congruence.
Qed.

Example facades_replicate_witness :
  reg_wf reg1 /\
  facades_ok [FSelect "node" (JArr ["a"; "b"]) None None; FHover "node" (Some "a")] reg1 /\
  run_facades [FSelect "node" (JArr ["a"; "b"]) None None; FHover "node" (Some "a")] reg1 =
    Some (mkRegistry [("node", mkUnit "node" ["a"; "b"] (Some "b") (Some "a") None true [])] (Some "node"),
          out_ab ++ [IPC_HOVERIN "node" (Some "a")]) /\
  reg_eq reg1 reg1_replica /\
  exists r', replay_reg (out_ab ++ [IPC_HOVERIN "node" (Some "a")]) reg1_replica = Some r' /\
    reg_eq (mkRegistry [("node", mkUnit "node" ["a"; "b"] (Some "b") (Some "a") None true [])] (Some "node")) r'.
Proof.
  assert (Heq : reg_eq reg1 reg1_replica).
  { split; [|reflexivity]. intros t. simpl. by case_bool_decide. }
  pose proof facades_ab_ok as Hok.
  split; [apply reg1_wf|]. split; [exact Hok|]. split; [reflexivity|]. split; [exact Heq|].
  eapply facades_replicate; [apply reg1_wf|exact Hok|reflexivity|exact Heq].
Defined.

(** Concurrent senders: the replicas end with different membership, A
    with ["a"] selected and B with nothing, although the spec says
    concurrent mutation only lets the order diverge. *)
Lemma concurrent_membership_diverges :
  selection (this w_a) = ["a"] /\
  selection (this (replay (outbox op_B w_a) (exec op_A w_a))) = ["a"] /\
  selection (this (replay (outbox op_A w_a) (exec op_B w_a))) = [].
Proof. vm_compute. done. Qed.

Example hover_empty_diverges_witness :
  lastHover (this w0) = None /\ view_eq w0 w0 /\
  lastHover (this (exec (SelectionUnit.hover (Some "")) w0)) = Some "" /\
  outbox (SelectionUnit.hover (Some "")) w0 = [] /\
  ¬ view_eq (replay (outbox (SelectionUnit.hover (Some "")) w0) w0) (exec (SelectionUnit.hover (Some "")) w0).
Proof.
  assert (Hv : view_eq w0 w0) by reflexivity.
  split; [reflexivity|]. split; [exact Hv|]. apply hover_empty_diverges; [reflexivity|exact Hv].
Defined.

