(* ===== verification/Bootstrap.v ===== *)
(** * The bootstrap: [selection:get-registers] and the page-level init

    The core process answers [selection:get-registers] (lines 686-702)
    with one record per registered type, in [for (var key in _units)]
    order. A page process, while [selection.js] loads, asks for that table
    and builds its units from it (lines 704-725).

    [get_registers] and [page_init] translate the two loops. The page loop
    reads [if (_units[info.type]) return;]: a type it already has stops the
    whole loop, where the spec says such a type is skipped.
    [page_init_roundtrip] shows that from the empty registry the page
    rebuilds the core's replicated state exactly. [page_init_stops] shows
    that the early [return] drops every entry from the first type the
    page already has onwards, whatever the table holds. [page_tracks_core] composes the round trip with
    [Replication]: after bootstrapping, a page that applies the core's
    broadcasts stays in agreement with the core.
    [bootstrap_pending_not_wf] shows that the table has no transaction
    state: every core unit whose focus is not selected (a pending one)
    becomes a confirmed page unit that breaks [wf]. *)

From S2P Require Import SelPrelude JsArray Messages Units UnitInv Registry RegistryInv Replication.
Set Warnings "-clear-no-such-hyp".

(** One entry of the [get-registers] answer. *)
Record RegisterInfo := mkInfo {
  info_type : string;
  info_selection : list string;
  info_lastActive : option string;
  info_lastHover : option string;
  info_context : option string;
  isLastGlobalActive : bool
}.

(** The core's handler: [isLastGlobalActive: selectionUnit === _lastActiveUnit].
    The pointer is stored as a type, so identity is equality of keys. *)
Fixpoint get_registers_go (us : list (string * SelectionUnit)) (g : option string) : list RegisterInfo :=
  match us with
  | [] => []
  | (key, selectionUnit) :: us' =>
      mkInfo key selectionUnit.(selection) selectionUnit.(lastActive) selectionUnit.(lastHover)
             selectionUnit.(_context) (g === Some key)
      :: get_registers_go us' g
  end.

Definition get_registers (reg : Registry) : list RegisterInfo :=
  get_registers_go reg.(_units) reg.(lastActiveUnit).

(** [new ConfirmableSelectionUnit(info.type)] with the four fields copied. *)
Definition unit_of_info (info : RegisterInfo) : SelectionUnit :=
  mkUnit info.(info_type) info.(info_selection) info.(info_lastActive)
         info.(info_lastHover) info.(info_context) true [].

(** The page's loop over [results]. *)
Fixpoint page_init (results : list RegisterInfo) (reg : Registry) : Registry :=
  match results with
  | [] => reg
  | info :: results' =>
      match lookup_unit info.(info_type) reg with
      | Own _ | Inherited => reg
      | Absent =>
          let selectionUnit := unit_of_info info in
          page_init results'
            (mkRegistry (reg.(_units) ++ [(info.(info_type), selectionUnit)])
                        (if isLastGlobalActive info then Some info.(info_type) else reg.(lastActiveUnit)))
      end
  end.

(** The registries a core process can hand out: unique keys that are not
    [Object.prototype] members, each unit under its own type, and a global
    pointer that names a registered type. *)
Definition core_ok (reg : Registry) : Prop :=
  NoDup reg.(_units).*1 /\
  Forall (λ e, type e.2 = e.1 /\ e.1 ∉ object_prototype_keys) reg.(_units) /\
  match reg.(lastActiveUnit) with Some t => t ∈ reg.(_units).*1 | None => True end.

#[export] Instance core_ok_dec reg : Decision (core_ok reg).
Proof. unfold core_ok. destruct (lastActiveUnit reg); apply _. Defined.

(** The unit a page builds for a core unit stored under [k]. *)
Definition copy_entry (e : string * SelectionUnit) : string * SelectionUnit :=
  (e.1, unit_of_info (mkInfo e.1 (selection e.2) (lastActive e.2) (lastHover e.2) (_context e.2) false)).

(** The core's table for two types, and a page that already has ["a"]. *)
Definition core_ab : Registry :=
  mkRegistry [("a", ConfirmableSelectionUnit.new "a"); ("b", ConfirmableSelectionUnit.new "b")] (Some "b").
Definition page_a : Registry := mkRegistry [("a", ConfirmableSelectionUnit.new "a")] None.

(** ** Lemmas *)

Lemma assoc_copy t us :
  assoc t (copy_entry <$> us) =
  (λ u, unit_of_info (mkInfo t (selection u) (lastActive u) (lastHover u) (_context u) false)) <$> assoc t us.
Proof.
  induction us as [|[k u] us IH]; simpl; [done|]. case_bool_decide; [by subst|done].
Qed.

(** The page loop on entries whose types are new to the page: it appends
    a copy of each, and takes the global pointer if it names one of them. *)
Lemma page_init_fresh us g P :
  NoDup us.*1 -> (forall k, k ∈ us.*1 -> (k ∉ (_units P).*1) /\ (k ∉ object_prototype_keys)) ->
  page_init (get_registers_go us g) P =
  mkRegistry (_units P ++ (copy_entry <$> us))
             (if bool_decide (opt_in g us.*1) then g else lastActiveUnit P).
Proof.
  revert P. induction us as [|[k u] us IH]; intros P Hnd Hk; simpl in *.
  - rewrite app_nil_r. destruct P, g; simpl; [|done]. done.
  - apply NoDup_cons in Hnd as [Hku Hnd].
    destruct (Hk k) as [HkP Hkp]; [set_solver|].
    unfold lookup_unit. rewrite assoc_None_notin, bool_decide_false by done.
    rewrite IH; [|done|].
    2:{ intros k' Hk'. destruct (Hk k') as [H1 H2]; [set_solver|]. simpl. rewrite fmap_app. simpl.
        split; [|done]. set_solver. }
    simpl. rewrite <-app_assoc. f_equal.
    destruct g as [a|]; simpl; [|done].
    repeat case_bool_decide; simplify_eq; set_solver.
Qed.

(** The page loop from the empty registry on a core table. *)
Lemma page_init_core reg :
  core_ok reg ->
  page_init (get_registers reg) empty_registry =
  mkRegistry (copy_entry <$> _units reg)
             (if bool_decide (opt_in (lastActiveUnit reg) (_units reg).*1) then lastActiveUnit reg else None).
Proof.
  intros (Hnd & Hty & Hg). rewrite Forall_forall in Hty. unfold get_registers.
  rewrite page_init_fresh by (done || (intros k Hk; split; [set_solver|];
    apply list_elem_of_fmap in Hk as [[k' u] [-> Hin]]; by apply (Hty (k', u)))).
  done.
Qed.

Lemma assoc_app_Some t v (us ext : list (string * SelectionUnit)) :
  assoc t us = Some v -> assoc t (us ++ ext) = Some v.
Proof. induction us as [|[k u] us IH]; simpl; [done|]. by case_bool_decide. Qed.

(** A type the page has keeps being found when the loop appends a type the
    page did not have. *)
Lemma lookup_unit_append t k u P g :
  lookup_unit t P <> Absent -> lookup_unit k P = Absent ->
  lookup_unit t (mkRegistry (_units P ++ [(k, u)]) g) <> Absent.
Proof.
  unfold lookup_unit. simpl. destruct (assoc t (_units P)) as [v|] eqn:Ht.
  - by rewrite (assoc_app_Some _ v).
  - case_bool_decide as Hp; [|done]. intros _ Hk.
    destruct (assoc k (_units P)); [done|]. case_bool_decide; [done|].
    rewrite assoc_app_ne by set_solver. by rewrite Ht.
Qed.

(** The page loop from the empty registry rebuilds the core's view. *)
Lemma page_init_agrees reg :
  core_ok reg -> reg_eq (page_init (get_registers reg) empty_registry) reg.
Proof.
  intros Hc. rewrite page_init_core by done. destruct Hc as (Hnd & Hty & Hg).
  rewrite Forall_forall in Hty. split; simpl.
  - intros t. rewrite assoc_copy. destruct (assoc t (_units reg)) as [u|] eqn:Ha; [|done].
    simpl. apply assoc_Some_elem, Hty in Ha as [Ht _]. simpl in Ht. subst t. by destruct u.
  - destruct (lastActiveUnit reg) as [a|]; simpl; [|done]. by rewrite bool_decide_true.
Qed.

(** C13: Bootstrap round trip. A page that starts with no units and runs
    the init loop on the core's [get-registers] answer agrees with the
    core on every replicated field of every type and on the global
    pointer. *)
Theorem page_init_roundtrip reg :
  core_ok reg -> reg_eq (page_init (get_registers reg) empty_registry) reg.
Proof. apply page_init_agrees. Qed.

Example page_init_roundtrip_witness :
  core_ok core_ab /\ reg_eq (page_init (get_registers core_ab) empty_registry) core_ab.
Proof.
  assert (H : core_ok core_ab) by (apply (bool_decide_unpack _); vm_compute; reflexivity).
  split; [exact H|]. apply page_init_roundtrip. exact H.
Defined.

(** C32: the page loop reads [if (_units[info.type]) return;]: once it
    meets a type the page already has (or an Object.prototype member), it
    drops that entry and every later one, whatever they are, where the
    spec says such a type is skipped. *)
Theorem page_init_stops results info rest P :
  lookup_unit (info_type info) P <> Absent ->
  page_init (results ++ info :: rest) P = page_init results P.
Proof.
  induction results as [|i rs IH] in P |- *; intros Hl; simpl.
  - by destruct (lookup_unit (info_type info) P).
  - destruct (lookup_unit (info_type i) P) eqn:Ei; [done|done|]. apply IH.
    by apply lookup_unit_append.
Qed.

(** C14: Bootstrap composed with replication. A page that starts with no
    units, bootstraps from the core's [get-registers] answer, and then
    applies every message the core broadcasts for any later sequence of
    facade calls agrees with the core after those calls. *)
Theorem page_tracks_core ops reg reg' out :
  core_ok reg -> reg_wf reg -> facades_ok ops reg -> run_facades ops reg = Some (reg', out) ->
  exists r', replay_reg out (page_init (get_registers reg) empty_registry) = Some r' /\ reg_eq reg' r'.
Proof.
  intros Hc Hwf Hok Hrun. eapply replicate_facades; [exact Hwf|exact Hok|exact Hrun|].
  symmetry. by apply page_init_agrees.
Qed.

Example page_tracks_core_witness :
  let ops := [FSelect "node" (JArr ["a"; "b"]) None None; FHover "node" (Some "a")] in
  core_ok reg1 /\ reg_wf reg1 /\ facades_ok ops reg1 /\
  run_facades ops reg1 =
    Some (mkRegistry [("node", mkUnit "node" ["a"; "b"] (Some "b") (Some "a") None true [])] (Some "node"),
          out_ab ++ [IPC_HOVERIN "node" (Some "a")]) /\
  exists r', replay_reg (out_ab ++ [IPC_HOVERIN "node" (Some "a")])
               (page_init (get_registers reg1) empty_registry) = Some r' /\
    reg_eq (mkRegistry [("node", mkUnit "node" ["a"; "b"] (Some "b") (Some "a") None true [])] (Some "node")) r'.
Proof.
  assert (Hc : core_ok reg1) by (apply (bool_decide_unpack _); vm_compute; reflexivity).
  pose proof facades_ab_ok as Hok.
  split; [exact Hc|]. split; [apply reg1_wf|]. split; [exact Hok|]. split; [reflexivity|].
  eapply page_tracks_core; [exact Hc|apply reg1_wf|exact Hok|reflexivity].
Defined.

(** C33: the get-registers table carries no transaction state and the
    page builds every unit confirmed: for every core unit whose focus is
    not selected (which a well-formed unit allows only while a provisional
    selection is pending), the page's copy has the same selection and
    focus, is confirmed, and breaks the unit invariant [wf]. *)
Theorem bootstrap_pending_not_wf reg t u a :
  core_ok reg -> assoc t (_units reg) = Some u -> lastActive u = Some a -> a ∉ selection u ->
  exists u', assoc t (_units (page_init (get_registers reg) empty_registry)) = Some u' /\
    selection u' = selection u /\ lastActive u' = Some a /\ confirmed u' = true /\ ¬ wf u'.
Proof.
  intros Hc Ha Hla Hsel. rewrite page_init_core by done. simpl. rewrite assoc_copy, Ha. simpl.
  eexists. split; [reflexivity|]. simpl. rewrite Hla.
  split; [done|]. split; [done|]. split; [done|]. intros (_ & _ & Hin & _). simpl in Hin. done.
Qed.

Example page_init_stops_witness :
  lookup_unit "a" page_a <> Absent /\
  get_registers core_ab = [] ++ mkInfo "a" [] None None None false :: [mkInfo "b" [] None None None true] /\
  page_init (get_registers core_ab) page_a = page_a.
Proof.
  assert (Hl : lookup_unit "a" page_a <> Absent) by (vm_compute; discriminate).
  assert (He : get_registers core_ab =
               [] ++ mkInfo "a" [] None None None false :: [mkInfo "b" [] None None None true]) by reflexivity.
  split; [exact Hl|]. split; [exact He|]. rewrite He.
  rewrite (page_init_stops [] (mkInfo "a" [] None None None false) _ page_a Hl). reflexivity.
Defined.

Example bootstrap_pending_not_wf_witness :
  reg_wf reg_pending /\ core_ok reg_pending /\
  assoc "node" (_units reg_pending) = Some (mkUnit "node" ["b"] (Some "a") None None false ["a"]) /\
  lastActive (mkUnit "node" ["b"] (Some "a") None None false ["a"]) = Some "a" /\
  "a" ∉ selection (mkUnit "node" ["b"] (Some "a") None None false ["a"]) /\
  exists u', assoc "node" (_units (page_init (get_registers reg_pending) empty_registry)) = Some u' /\
    selection u' = ["b"] /\ lastActive u' = Some "a" /\ confirmed u' = true /\ ¬ wf u'.
Proof.
  assert (Hc : core_ok reg_pending) by (apply (bool_decide_unpack _); vm_compute; reflexivity).
  assert (Hs : "a" ∉ selection (mkUnit "node" ["b"] (Some "a") None None false ["a"])) by (simpl; set_solver).
  split; [exact reg_pending_wf|]. split; [exact Hc|]. split; [reflexivity|]. split; [reflexivity|].
  split; [exact Hs|]. exact (bootstrap_pending_not_wf reg_pending "node" _ "a" Hc eq_refl eq_refl Hs).
Defined.
